(** * kont: delimited continuations and algebraic effects

    A shallow embedding of the Go package [kont] (closure form [Cont],
    frame form [Expr], handlers, stepping boundary, bridge, composed
    runners) together with the properties of its specification.

    Conventions of the embedding.
    - A Go function that may panic returns a [result]: [Ok v] or
      [Panic msg].  A closure is a total function into [result]; a
      closure that does not return is outside the model.
    - Go's [any] (the types [Resumed], [Erased], [Operation] are all
      declared as [any]) is split in two layers: [dynval], the nil
      interface or a boxed ordinary value, and [Resumed], which adds the
      effect-suspension markers that flow out of a computation.  A
      handler answers with a [dynval]: a suspension marker is a value of
      an unexported type and is never a handler's answer.
    - A static type is seen from the dynamic side through [GoType]:
      conversion to an interface, the type assertion, the zero value.
    - Mutable objects reached through pointers (handler state, the
      [Suspension] objects, the [Affine] wrapper) are threaded
      explicitly.  The [sync.Pool]s are not: a frame or marker is a
      value, and what is stated is about runs whose frames and markers
      no other run and no other suspension holds.  [Suspension.Discard],
      which gives the marker of the receiver back to its pool, is left
      out for that reason.
    - Frames and markers are finite trees: a frame that reaches itself
      and closures that return frames without end are outside the
      model.
    - [int] and [uintptr] are 64 bits wide.
    - Loops whose termination depends on the data ([evalFrames], the
      driver of the stepping boundary) take a fuel argument; [None]
      means the fuel ran out, never a result. *)

From Stdlib Require Import ZArith List String Bool Lia.
Import ListNotations.
Open Scope string_scope.
Open Scope Z_scope.

Set Implicit Arguments.
Set Warnings "-register-all".

(* ================================================================== *)
(** * Results of Go calls *)

Inductive result (X : Type) : Type :=
| Ok (x : X)
| Panic (msg : string).
Arguments Ok {X} x.
Arguments Panic {X} msg.

Definition rbind {X Y : Type} (r : result X) (f : X -> result Y) : result Y :=
  match r with
  | Ok x => f x
  | Panic msg => Panic msg
  end.

(** The run-time error of a failed type assertion [x.(T)].  Its text
    names the types involved; one constant stands for all of them. *)
Definition assertion_failed : string := "interface conversion".

(* ================================================================== *)
(** * Go's [int] and [uintptr] *)

Module GoInt.

Definition modulus : Z := 2 ^ 64.
Definition half : Z := 2 ^ 63.

(** Two's-complement wrap-around of a 64-bit [int]. *)
Definition wrap (z : Z) : Z := (z + half) mod modulus - half.

Definition add (a b : Z) : Z := wrap (a + b).
Definition mul (a b : Z) : Z := wrap (a * b).

(** [atomic.Uintptr.Add(1)] returns the new value; the counter is
    unsigned and wraps at [modulus]. *)
Definition uintptr_incr (u : Z) : Z := (u + 1) mod modulus.

End GoInt.

(* ================================================================== *)
(** * cont.go, monad.go, run.go: the continuation monad *)

(** [type Cont[R, A any] func(k func(A) R) R] *)
Definition Cont (R A : Type) : Type := (A -> R) -> R.

Definition Return {R A : Type} (a : A) : Cont R A :=
  fun k => k a.

Definition Suspend {R A : Type} (f : (A -> R) -> R) : Cont R A := f.

Definition Bind {R A B : Type} (m : Cont R A) (f : A -> Cont R B) : Cont R B :=
  fun k => m (fun a => f a k).

Definition Map {R A B : Type} (m : Cont R A) (f : A -> B) : Cont R B :=
  fun k => m (fun a => k (f a)).

Definition Then {R A B : Type} (m : Cont R A) (n : Cont R B) : Cont R B :=
  fun k => m (fun _ => n k).

Definition identity {A : Type} (a : A) : A := a.

Definition Run {A : Type} (m : Cont A A) : A := m identity.

Definition RunWith {R A : Type} (m : Cont R A) (k : A -> R) : R := m k.

(** Delimited control. *)
Definition Shift {R A : Type} (f : (A -> R) -> R) : Cont R A := f.

Definition Reset {R A : Type} (m : Cont A A) : Cont R A :=
  Return (Run m).

(** The scenario of the specification:
    [Reset(Bind(Shift(k => k(1)+k(10)), x => Return(x*2)))] over [int]. *)
Definition shift_reset_scenario : Cont Z Z :=
  Reset (Bind (Shift (fun k : Z -> Z => GoInt.add (k 1) (k 10)))
              (fun x : Z => Return (GoInt.mul x 2))).

(* ================================================================== *)
(** * effect.go: operations, suspensions, handlers, [Handle] *)

Section Core.

(** [Val] is the universe of boxed ordinary Go values (a dynamic type
    together with its payload); [Operation] the effect operations. *)
Variable Val : Type.
Variable Operation : Type.

(** An interface value that is not a suspension marker: the nil
    interface or a boxed value.  Handlers answer with such values. *)
Inductive dynval : Type :=
| dnil
| dbox (v : Val).

(** [Resumed]: what flows out of an effectful computation.  [Marker]
    is a value implementing [effectSuspension]: it carries [Op()] and
    [Resume(v)]. *)
Inductive Resumed : Type :=
| Plain (x : dynval)
| Marker (op : Operation) (resume : dynval -> result Resumed).

Definition Erased : Type := Resumed.

(** [type Eff[A any] = Cont[Resumed, A]]; the answer is a [result]
    because running the closure may panic. *)
Definition Eff (A : Type) : Type := Cont (result Resumed) A.

(** A static Go type [T] seen from the dynamic side: conversion to an
    interface value ([box]), the type assertion [x.(T)] ([assert]) and
    the zero value.  The three laws hold for every Go type: the nil
    interface satisfies no assertion; a successful assertion returns the
    value stored in the interface; a non-nil interface value obtained
    from a [T] asserts back to it.  For a non-interface type [box] is
    never nil; for an interface type [box zero] is the nil interface. *)
Class GoType (T : Type) : Type := {
  box : T -> dynval;
  assert : dynval -> result T;
  zero : T;
  assert_nil : assert dnil = Panic assertion_failed;
  box_assert : forall x t, assert x = Ok t -> box t = x;
  assert_box : forall t, box t <> dnil -> assert (box t) = Ok t
}.

(** The assertion [x.(T)] on an [Erased] that may be a suspension
    marker.  The markers are values of unexported types of the package
    and are taken to satisfy no assertion to a client's type. *)
Definition assertErased {T : Type} {GT : GoType T} (x : Erased) : result T :=
  match x with
  | Plain d => assert d
  | Marker _ _ => Panic assertion_failed
  end.

(** [effectMarker[A]]: [Resume(v) = m.k(v.(A))]. *)
Definition effectMarker {A : Type} {GA : GoType A}
  (op : Operation) (k : A -> result Resumed) : Resumed :=
  Marker op (fun v => rbind (assert v) k).

(** [bindMarker[A, B]]: [Resume(v) = m.f(v.(A))(m.k)]. *)
Definition bindMarker {A B : Type} {GA : GoType A}
  (op : Operation) (f : A -> Eff B) (k : B -> result Resumed) : Resumed :=
  Marker op (fun v => rbind (assert v) (fun a => f a k)).

(** [thenMarker[B]]: [Resume(_) = m.next(m.k)]. *)
Definition thenMarker {B : Type}
  (op : Operation) (next : Eff B) (k : B -> result Resumed) : Resumed :=
  Marker op (fun _ => next k).

(** [mapMarker[A, B]]: [Resume(v) = m.k(m.f(v.(A)))]. *)
Definition mapMarker {A B : Type} {GA : GoType A}
  (op : Operation) (f : A -> B) (k : B -> result Resumed) : Resumed :=
  Marker op (fun v => rbind (assert v) (fun a => k (f a))).

Definition Pure {A : Type} (a : A) : Eff A := Return a.

Definition Perform {A : Type} {GA : GoType A} (op : Operation) : Eff A :=
  fun k => Ok (effectMarker op k).

Definition toResumed {A : Type} {GA : GoType A} (a : A) : result Resumed :=
  Ok (Plain (box a)).

(** [Handler]: the handler object is a value [H] (what its pointers
    reach); [Dispatch] returns the answer, the resume flag and the
    handler after the call, or panics. *)
Record Handler (H : Type) : Type := {
  Dispatch : H -> Operation -> result (dynval * bool * H)
}.

Section Handle.
Variable R : Type.
Context {GR : GoType R}.
Variable H : Type.
Variable h : Handler H.

(** [handleDispatch]: the trampoline loop, one recursive call per
    [continue]. *)
Fixpoint handleDispatch (res : Resumed) (st : H) : result (R * H) :=
  match res with
  | Marker op resume =>
      match Dispatch h st op with
      | Panic msg => Panic msg
      | Ok (v, shouldResume, st') =>
          if shouldResume then
            match resume v with
            | Panic msg => Panic msg
            | Ok next => handleDispatch next st'
            end
          else
            match assert v with
            | Panic msg => Panic msg
            | Ok r => Ok (r, st')
            end
      end
  | Plain dnil => Ok (zero, st)
  | Plain x =>
      match assert x with
      | Panic msg => Panic msg
      | Ok r => Ok (r, st)
      end
  end.

Definition Handle (m : Eff R) (st : H) : result (R * H) :=
  match m toResumed with
  | Panic msg => Panic msg
  | Ok res => handleDispatch res st
  end.

End Handle.

(* ------------------------------------------------------------------ *)
(** ** frame.go: the frame form *)

(** The frame variants.  [chainedFrame] is the Chain node; [UserFrame]
    stands for a frame type defined outside the built-in variants, with
    its [Unwind] method when it has one.  The [pooled] flags are kept as
    data and the release calls are not modelled: what is stated below
    is about one run over frames that no other run holds.

    Frames are finite trees here.  A frame value that reaches itself
    through its [Next] field, or closures that go on returning frames
    for ever, are Go values without a counterpart in this type, and on
    them the loop of [evalFrames] does not return; the theorems on runs
    are about the outcome of runs over finite frames.

    [BindFrame.F] is a Go function value.  [Closure] is an ordinary
    closure.  [reifyNext A] is the function literal allocated in
    [fromResumed[A]]: it captures nothing, calls [fromResumed[A]] on its
    argument and so produces a frame that contains itself again; it is
    kept as a tag and unfolded on application ([applyBind]). *)
Inductive Frame : Type :=
| ReturnFrame
| BindFrame (F : BindFn) (Next : Frame) (pooled : bool)
| MapFrame (F : Erased -> result Erased) (Next : Frame)
| ThenFrame (SecondValue : Erased) (SecondFrame : Frame) (Next : Frame)
            (pooled : bool)
| EffectFrame (Operation0 : Operation) (Resume : Erased -> result Erased)
              (Next : Frame) (pooled : bool)
| chainedFrame (first rest : Frame) (pooled : bool)
| UserFrame (unwind : option (Erased -> result (Erased * Frame)))
with BindFn : Type :=
| Closure (f : Erased -> result (Erased * Frame))
| reifyNext (A : Type) (GA : GoType A).

(** [Expr[A]] *)
Record Expr (A : Type) : Type := mkExpr {
  Value : A;
  ExprFrame : Frame
}.

Definition ExprReturn {A : Type} (a : A) : Expr A :=
  {| Value := a; ExprFrame := ReturnFrame |}.

Definition ExprSuspend {A : Type} {GA : GoType A} (frame : Frame) : Expr A :=
  {| Value := zero; ExprFrame := frame |}.

(** A pointer to an [EffectFrame[Erased]] as handed to a processor. *)
Record effectFrame : Type := mkEffectFrame {
  efOperation : Operation;
  efResume : Erased -> result Erased;
  efNext : Frame;
  efPooled : bool
}.

(* ------------------------------------------------------------------ *)
(** ** trampoline.go: chains *)

Definition ChainFrames (first second : Frame) : Frame :=
  match first with
  | ReturnFrame => second
  | _ =>
      match second with
      | ReturnFrame => first
      | _ => chainedFrame first second false
      end
  end.

Definition chainFromPool (first second : Frame) : Frame :=
  match first with
  | ReturnFrame => second
  | _ =>
      match second with
      | ReturnFrame => first
      | _ => chainedFrame first second true
      end
  end.

(* ------------------------------------------------------------------ *)
(** ** bridge.go: [Reify] *)

(** The [Resume] closure of the frame built by [fromResumed]:
    [func(v Erased) Erased { return s.Resume(v) }].  The processors
    call it on a handler's answer only, which is never a marker. *)
Definition reifyResume (resume : dynval -> result Resumed)
  (v : Erased) : result Erased :=
  match v with
  | Plain x => resume x
  | Marker _ _ => Panic assertion_failed
  end.

Definition fromResumed {A : Type} {GA : GoType A} (r : Resumed)
  : result (Expr A) :=
  match r with
  | Marker op resume =>
      Ok {| Value := zero;
            ExprFrame :=
              EffectFrame op (reifyResume resume)
                (BindFrame (reifyNext GA) ReturnFrame false) false |}
  | Plain dnil => Ok (ExprReturn zero)
  | Plain x =>
      match assert x with
      | Panic msg => Panic msg
      | Ok a => Ok (ExprReturn a)
      end
  end.

Definition Reify {A : Type} {GA : GoType A} (m : Eff A) : result (Expr A) :=
  match m toResumed with
  | Panic msg => Panic msg
  | Ok res => fromResumed res
  end.

(** Calling a [BindFrame.F]. *)
Definition applyBind (F : BindFn) (v : Erased) : result (Erased * Frame) :=
  match F with
  | Closure f => f v
  | reifyNext GA =>
      match fromResumed (GA := GA) v with
      | Panic msg => Panic msg
      | Ok e => Ok (Plain (box (Value e)), ExprFrame e)
      end
  end.

(* ------------------------------------------------------------------ *)
(** ** trampoline.go: [evalFrames] *)

Definition unknown_frame : string :=
  "kont: frame type does not implement Unwind".

(** What [processEffect] returns: [(newCurrent, newFrame, _, true)] or
    [(_, _, result, false)]. *)
Inductive effectStep (R : Type) : Type :=
| Continue (newCurrent : Erased) (newFrame : Frame)
| Exit (r : R).
Arguments Continue {R} newCurrent newFrame.
Arguments Exit {R} r.

(** [frameProcessor[P, R]]: [St] is the memory the processor works on
    (handler state, or the heap of suspensions); it is returned also
    when the call panics. *)
Record frameProcessor (St R : Type) : Type := {
  processEffect : effectFrame -> Frame -> St -> result (effectStep R) * St;
  processReturn : Erased -> St -> result R * St
}.

Section EvalFrames.
Variables St R : Type.
Variable p : frameProcessor St R.

(** One recursive call per pass through the [for] loops: the inner loop
    handles a frame that is a [chainedFrame], the switch after it any
    other frame. *)
Fixpoint evalFrames (fuel : nat) (current : Erased) (frame : Frame) (st : St)
  : option (result R * St) :=
  match fuel with
  | O => None
  | S fuel' =>
      match frame with
      | chainedFrame cfirst crest _ =>
          match cfirst with
          | chainedFrame nfirst nrest _ =>
              evalFrames fuel' current
                (chainFromPool nfirst (chainFromPool nrest crest)) st
          | ReturnFrame => evalFrames fuel' current crest st
          | BindFrame F fNext _ =>
              match applyBind F current with
              | Panic msg => Some (Panic msg, st)
              | Ok (nextValue, nextFrame) =>
                  evalFrames fuel' nextValue
                    (chainFromPool (chainFromPool nextFrame fNext) crest) st
              end
          | MapFrame F fNext =>
              match F current with
              | Panic msg => Some (Panic msg, st)
              | Ok v => evalFrames fuel' v (chainFromPool fNext crest) st
              end
          | ThenFrame secondValue secondFrame fNext _ =>
              evalFrames fuel' secondValue
                (chainFromPool (chainFromPool secondFrame fNext) crest) st
          | EffectFrame op resume fNext pooled =>
              match processEffect p (mkEffectFrame op resume fNext pooled)
                      (chainFromPool fNext crest) st with
              | (Panic msg, st') => Some (Panic msg, st')
              | (Ok (Exit r), st') => Some (Ok r, st')
              | (Ok (Continue newCurrent newFrame), st') =>
                  evalFrames fuel' newCurrent newFrame st'
              end
          | UserFrame (Some unwind) =>
              match unwind current with
              | Panic msg => Some (Panic msg, st)
              | Ok (v, next) => evalFrames fuel' v (chainFromPool next crest) st
              end
          | UserFrame None => Some (Panic unknown_frame, st)
          end
      | ReturnFrame => Some (processReturn p current st)
      | BindFrame F fNext _ =>
          match applyBind F current with
          | Panic msg => Some (Panic msg, st)
          | Ok (nextValue, nextFrame) =>
              evalFrames fuel' nextValue (chainFromPool nextFrame fNext) st
          end
      | MapFrame F fNext =>
          match F current with
          | Panic msg => Some (Panic msg, st)
          | Ok v => evalFrames fuel' v fNext st
          end
      | ThenFrame secondValue secondFrame fNext _ =>
          evalFrames fuel' secondValue (chainFromPool secondFrame fNext) st
      | EffectFrame op resume fNext pooled =>
          match processEffect p (mkEffectFrame op resume fNext pooled) fNext st with
          | (Panic msg, st') => Some (Panic msg, st')
          | (Ok (Exit r), st') => Some (Ok r, st')
          | (Ok (Continue newCurrent newFrame), st') =>
              evalFrames fuel' newCurrent newFrame st'
          end
      | UserFrame (Some unwind) =>
          match unwind current with
          | Panic msg => Some (Panic msg, st)
          | Ok (v, next) => evalFrames fuel' v next st
          end
      | UserFrame None => Some (Panic unknown_frame, st)
      end
  end.

End EvalFrames.

(** [handlerProcessor[H, R]] *)
Definition handlerProcessor {R : Type} {GR : GoType R} {H : Type}
  (h : Handler H) : frameProcessor H R :=
  {| processEffect := fun f rest st =>
       match Dispatch h st (efOperation f) with
       | Panic msg => (Panic msg, st)
       | Ok (v, shouldResume, st') =>
           if shouldResume then
             match efResume f (Plain v) with
             | Panic msg => (Panic msg, st')
             | Ok resumed => (Ok (Continue resumed rest), st')
             end
           else
             match assert v with
             | Panic msg => (Panic msg, st')
             | Ok r => (Ok (Exit r), st')
             end
       end;
     processReturn := fun current st =>
       match assertErased current with
       | Panic msg => (Panic msg, st)
       | Ok r => (Ok r, st)
       end |}.

(** A run that ended, as [Handle] reports it. *)
Definition withState {R St : Type} (o : result R * St) : result (R * St) :=
  match o with
  | (Ok r, st) => Ok (r, st)
  | (Panic msg, _) => Panic msg
  end.

Definition HandleExpr {R : Type} {GR : GoType R} {H : Type}
  (fuel : nat) (m : Expr R) (h : Handler H) (st : H)
  : option (result (R * H)) :=
  option_map (@withState R H)
    (evalFrames (handlerProcessor h) fuel (Plain (box (Value m))) (ExprFrame m) st).

(** [pureEval[R]]: the handler of [RunPure]. *)
Definition pureEval : Handler unit :=
  {| Dispatch := fun _ _ =>
       Panic "kont: unhandled effect frame in pure computation - use HandleExpr" |}.

Definition RunPure {A : Type} {GA : GoType A} (fuel : nat) (c : Expr A)
  : option (result A) :=
  option_map (fun o => fst o)
    (evalFrames (handlerProcessor pureEval) fuel (Plain (box (Value c))) (ExprFrame c) tt).

(** The smart constructors. *)
Definition ExprBind {A B : Type} {GA : GoType A} {GB : GoType B}
  (m : Expr A) (f : A -> Expr B) : Expr B :=
  match ExprFrame m with
  | ReturnFrame => f (Value m)
  | _ =>
      let bindFrame :=
        BindFrame
          (Closure (fun a =>
             match assertErased a with
             | Panic msg => Panic msg
             | Ok x => Ok (Plain (box (Value (f x))), ExprFrame (f x))
             end))
          ReturnFrame false in
      {| Value := zero; ExprFrame := ChainFrames (ExprFrame m) bindFrame |}
  end.

Definition ExprMap {A B : Type} {GA : GoType A} {GB : GoType B}
  (m : Expr A) (f : A -> B) : Expr B :=
  match ExprFrame m with
  | ReturnFrame => ExprReturn (f (Value m))
  | _ =>
      let mapFrame :=
        MapFrame
          (fun a =>
             match assertErased a with
             | Panic msg => Panic msg
             | Ok x => Ok (Plain (box (f x)))
             end)
          ReturnFrame in
      {| Value := zero; ExprFrame := ChainFrames (ExprFrame m) mapFrame |}
  end.

Definition ExprThen {A B : Type} {GB : GoType B}
  (m : Expr A) (n : Expr B) : Expr B :=
  match ExprFrame m with
  | ReturnFrame => n
  | _ =>
      let thenFrame :=
        ThenFrame (Plain (box (Value n))) (ExprFrame n) ReturnFrame false in
      {| Value := zero; ExprFrame := ChainFrames (ExprFrame m) thenFrame |}
  end.

Definition identityResume (v : Erased) : result Erased := Ok v.

Definition ExprPerform {A : Type} {GA : GoType A} (op : Operation) : Expr A :=
  {| Value := zero;
     ExprFrame := EffectFrame op identityResume ReturnFrame false |}.

(** [HandleExpr(Reify(m), h)]: a panic of [Reify] is a panic of the
    whole call. *)
Definition HandleExprReify {R : Type} {GR : GoType R} {H : Type}
  (fuel : nat) (m : Eff R) (h : Handler H) (st : H)
  : option (result (R * H)) :=
  match Reify m with
  | Panic msg => Some (Panic msg)
  | Ok e => HandleExpr fuel e h st
  end.

(* ------------------------------------------------------------------ *)
(** ** The stepping boundary: [Suspension], [Step], [StepExpr] *)

(** A value implementing [effectSuspension], as an interface value. *)
Record effectSuspension : Type := mkSuspension {
  suspOp : Operation;
  suspResume : dynval -> result Resumed
}.

(** The assertion [result.(effectSuspension)]. *)
Definition asSuspension (r : Resumed) : option effectSuspension :=
  match r with
  | Marker op resume => Some (mkSuspension op resume)
  | Plain _ => None
  end.

(** [Suspension[A]]: the struct; [None] is a nil field. *)
Record Suspension : Type := mkSusp {
  used : Z;
  op : Operation;
  cont : option effectSuspension;
  ef : option effectFrame;
  rest : option Frame
}.

(** A pointer to a [Suspension[A]]: an address in the heap of
    suspensions.  Objects are allocated at the end of the heap and never
    freed. *)
Definition ptr : Type := nat.
Definition heap : Type := list Suspension.

Definition load (l : ptr) (hp : heap) : option Suspension := nth_error hp l.

Fixpoint store (l : ptr) (s : Suspension) (hp : heap) : heap :=
  match hp, l with
  | [], _ => []
  | _ :: tl, O => s :: tl
  | x :: tl, S l' => x :: store l' s tl
  end.

Definition alloc (s : Suspension) (hp : heap) : ptr * heap :=
  (List.length hp, (hp ++ [s])%list).

(** Writing the counter of a suspension ([used.Add], [used.Store]). *)
Definition setUsed (n : Z) (x : Suspension) : Suspension :=
  mkSusp n (op x) (cont x) (ef x) (rest x).

Definition nil_dereference : string :=
  "runtime error: invalid memory address or nil pointer dereference".

Definition resumed_twice : string := "kont: suspension resumed twice".

(** The [Erased] result of [evalFrames[stepProcessor[A]]]: the
    suspension made by [processEffect], or the final value. *)
Inductive stepOut : Type :=
| StepSuspended (s : ptr)
| StepDone (current : Erased).

(** [stepProcessor[A]{reuse}] *)
Definition stepProcessor (reuse : option ptr) : frameProcessor heap stepOut :=
  {| processEffect := fun f frest hp =>
       match reuse with
       | None =>
           let (s, hp') :=
             alloc (mkSusp 0 (efOperation f) None (Some f) (Some frest)) hp in
           (Ok (Exit (StepSuspended s)), hp')
       | Some s =>
           match load s hp with
           | None => (Panic nil_dereference, hp)
           | Some _ =>
               (Ok (Exit (StepSuspended s)),
                store s (mkSusp 0 (efOperation f) None (Some f) (Some frest)) hp)
           end
       end;
     processReturn := fun current hp => (Ok (StepDone current), hp) |}.

Section Stepping.
Variable A : Type.
Context {GA : GoType A}.

Definition classifyResumed (res : Resumed) (hp : heap)
  : result (A * option ptr) * heap :=
  match asSuspension res with
  | Some s =>
      let (l, hp') := alloc (mkSusp 0 (suspOp s) (Some s) None None) hp in
      (Ok (zero, Some l), hp')
  | None =>
      match res with
      | Plain dnil => (Ok (zero, None), hp)
      | _ =>
          match assertErased res with
          | Panic msg => (Panic msg, hp)
          | Ok a => (Ok (a, None), hp)
          end
      end
  end.

Definition classifyStepResult (o : stepOut) : result (A * option ptr) :=
  match o with
  | StepSuspended s => Ok (zero, Some s)
  | StepDone current =>
      match assertErased current with
      | Panic msg => Panic msg
      | Ok a => Ok (a, None)
      end
  end.

Definition Step (m : Eff A) (hp : heap) : result (A * option ptr) * heap :=
  match m toResumed with
  | Panic msg => (Panic msg, hp)
  | Ok res => classifyResumed res hp
  end.

Definition StepExpr (fuel : nat) (m : Expr A) (hp : heap)
  : option (result (A * option ptr) * heap) :=
  match evalFrames (stepProcessor None) fuel (Plain (box (Value m))) (ExprFrame m) hp with
  | None => None
  | Some (Panic msg, hp') => Some (Panic msg, hp')
  | Some (Ok o, hp') => Some (classifyStepResult o, hp')
  end.

(** What [Resume] and [TryResume] do once the guard is passed. *)
Definition advance (fuel : nat) (s : ptr) (susp : Suspension) (v : dynval)
  (hp : heap) : option (result (A * option ptr) * heap) :=
  match cont susp with
  | Some c =>
      match suspResume c v with
      | Panic msg => Some (Panic msg, hp)
      | Ok res => Some (classifyResumed res hp)
      end
  | None =>
      match ef susp with
      | None => Some (Panic nil_dereference, hp)
      | Some f =>
          match efResume f (Plain v) with
          | Panic msg => Some (Panic msg, hp)
          | Ok current =>
              match rest susp with
              | None => Some (Panic unknown_frame, hp)
              | Some frest =>
                  match evalFrames (stepProcessor (Some s)) fuel current frest hp with
                  | None => None
                  | Some (Panic msg, hp') => Some (Panic msg, hp')
                  | Some (Ok o, hp') => Some (classifyStepResult o, hp')
                  end
              end
          end
      end
  end.

(** [Suspension.Resume] *)
Definition Resume (fuel : nat) (s : ptr) (v : dynval) (hp : heap)
  : option (result (A * option ptr) * heap) :=
  match load s hp with
  | None => Some (Panic nil_dereference, hp)
  | Some susp =>
      let n := GoInt.uintptr_incr (used susp) in
      let hp1 := store s (setUsed n susp) hp in
      if negb (n =? 1) then Some (Panic resumed_twice, hp1)
      else advance fuel s susp v hp1
  end.

(** [Suspension.TryResume] *)
Definition TryResume (fuel : nat) (s : ptr) (v : dynval) (hp : heap)
  : option (result (A * option ptr * bool) * heap) :=
  match load s hp with
  | None => Some (Panic nil_dereference, hp)
  | Some susp =>
      let n := GoInt.uintptr_incr (used susp) in
      let hp1 := store s (setUsed n susp) hp in
      if negb (n =? 1) then Some (Ok (zero, None, false), hp1)
      else
        match advance fuel s susp v hp1 with
        | None => None
        | Some (Panic msg, hp2) => Some (Panic msg, hp2)
        | Some (Ok (a, next), hp2) => Some (Ok (a, next, true), hp2)
        end
  end.

(** [Suspension.Op] *)
Definition SuspensionOp (s : ptr) (hp : heap) : result Operation :=
  match load s hp with
  | None => Panic nil_dereference
  | Some susp => Ok (op susp)
  end.

End Stepping.

(** Driving a computation through the stepping boundary with a handler.
    This is the loop of the example in the documentation of [Step],
      [result, susp := Step(m)]
      [for susp != nil { v := handleOp(susp.Op()); result, susp = susp.Resume(v) }]
    with [h.Dispatch] for [handleOp]; an answer whose flag is [false]
    ends the run with that answer, as in [handleDispatch]. *)
Section Driver.
Variable R : Type.
Context {GR : GoType R}.
Variable H : Type.
Variable h : Handler H.

Fixpoint driveLoop (fuel : nat) (cur : R * option ptr) (st : H) (hp : heap)
  : option (result (R * H) * heap) :=
  match fuel with
  | O => None
  | S fuel' =>
      match cur with
      | (a, None) => Some (Ok (a, st), hp)
      | (_, Some s) =>
          match SuspensionOp s hp with
          | Panic msg => Some (Panic msg, hp)
          | Ok o =>
              match Dispatch h st o with
              | Panic msg => Some (Panic msg, hp)
              | Ok (v, shouldResume, st') =>
                  if shouldResume then
                    match Resume (A := R) fuel' s v hp with
                    | None => None
                    | Some (Panic msg, hp') => Some (Panic msg, hp')
                    | Some (Ok next, hp') => driveLoop fuel' next st' hp'
                    end
                  else
                    match assert v with
                    | Panic msg => Some (Panic msg, hp)
                    | Ok r => Some (Ok (r, st'), hp)
                    end
              end
          end
      end
  end.

Definition driveSteps (fuel : nat) (m : Eff R) (st : H) (hp : heap)
  : option (result (R * H) * heap) :=
  match Step m hp with
  | (Panic msg, hp') => Some (Panic msg, hp')
  | (Ok cur, hp') => driveLoop fuel cur st hp'
  end.

End Driver.

(** A handler that also records the operations it is handed, in
    order. *)
Definition traced {H : Type} (h : Handler H) : Handler (H * list Operation) :=
  {| Dispatch := fun st o =>
       match Dispatch h (fst st) o with
       | Panic msg => Panic msg
       | Ok (v, shouldResume, st') =>
           Ok (v, shouldResume, (st', (snd st ++ [o])%list))
       end |}.

End Core.

Arguments dnil {Val}.
Arguments zero {Val T GoType}.
Arguments box {Val T GoType} _.
Arguments assert {Val T GoType} _.
Arguments toResumed {Val Operation A GA} a.
Arguments stepProcessor {Val Operation} reuse.
Arguments Exit {Val Operation R} r.
Arguments Continue {Val Operation R} newCurrent newFrame.
Arguments StepSuspended {Val Operation} s.
Arguments Plain {Val Operation} x.
Arguments ReturnFrame {Val Operation}.
Arguments UserFrame {Val Operation} unwind.

(* ================================================================== *)
(** * affine.go: the one-shot wrapper *)

Section AffineWrapper.
Variables R A : Type.
Variable zeroR : R.

(** [Affine[R, A]]: the object behind the pointer. *)
Record Affine : Type := mkAffine {
  affineUsed : Z;
  affineResume : A -> result R
}.

Definition Once (k : A -> result R) : Affine := mkAffine 0 k.

Definition affine_resumed_twice : string :=
  "kont: affine continuation resumed twice".

Definition AffineResume (a : Affine) (v : A) : result R * Affine :=
  let n := GoInt.uintptr_incr (affineUsed a) in
  let a' := mkAffine n (affineResume a) in
  if negb (n =? 1) then (Panic affine_resumed_twice, a')
  else (affineResume a v, a').

Definition AffineTryResume (a : Affine) (v : A) : result (R * bool) * Affine :=
  let n := GoInt.uintptr_incr (affineUsed a) in
  let a' := mkAffine n (affineResume a) in
  if negb (n =? 1) then (Ok (zeroR, false), a')
  else
    match affineResume a v with
    | Panic msg => (Panic msg, a')
    | Ok r => (Ok (r, true), a')
    end.

Definition AffineDiscard (a : Affine) : Affine :=
  mkAffine 1 (affineResume a).

End AffineWrapper.

(* ================================================================== *)
(** * error.go: [Either] *)

Record Either (E A : Type) : Type := mkEither {
  isRight : bool;
  left : E;
  right : A
}.

(* ================================================================== *)
(** * State and Error effects, and the composed State+Error runner *)

Section StateError.

Variable Val : Type.

(** [S] is the state type and [E] the error type.  [B] is the result
    type of the computations carried by a [Catch[E, B]]; [CatchBody] is
    the type of those computations and [runBody] is [RunError[E, B]] on
    them.  The operations a body performs are of a type defined before
    this one, so bodies are stratified by the depth of nested [Catch]. *)
Variables S E B : Type.
Variable CatchBody : Type.

Context {GS : GoType Val S} {GE : GoType Val E} {GB : GoType Val B}.
Context {GU : GoType Val unit}.
Context {GEB : GoType Val (Either E B)}.

Variable runBody : CatchBody -> result (Either E B).

(** The operations: [Get[S]], [Put[S]], [Modify[S]], [Throw[E]],
    [Catch[E, B]], and [Foreign] for an operation of any other type
    (it has neither [DispatchState] nor [DispatchError]). *)
Inductive Op : Type :=
| Get
| Put (Value : S)
| Modify (F : S -> S)
| Throw (Err : E)
| Catch (Body : CatchBody) (Handler : E -> CatchBody)
| Foreign (name : string).

Definition Left {A : Type} {GA : GoType Val A} (e : E) : Either E A :=
  {| isRight := false; left := e; right := zero |}.

Definition Right {A : Type} {GA : GoType Val A} (a : A) : Either E A :=
  {| isRight := true; left := zero; right := a |}.

Definition IsLeft {A : Type} (e : Either E A) : bool := negb (isRight e).
Definition IsRight {A : Type} (e : Either E A) : bool := isRight e.

Definition GetLeft {A : Type} (e : Either E A) : E * bool :=
  if negb (isRight e) then (left e, true) else (zero, false).

Definition GetRight {A : Type} {GA : GoType Val A} (e : Either E A) : A * bool :=
  if isRight e then (right e, true) else (zero, false).

(** [ErrorContext[E]] *)
Record ErrorContext : Type := mkErrorContext {
  Err : E;
  HasErr : bool
}.

Definition unhandledEffect (handler : string) : string :=
  "kont: unhandled effect in " ++ handler.

(** The method [DispatchState(state *S) (Resumed, bool)], for the
    operations that have it: the answer, the flag and the state after
    the call. *)
Definition DispatchState (o : Op) : option (S -> dynval Val * bool * S) :=
  match o with
  | Get => Some (fun state => (box state, true, state))
  | Put v => Some (fun _ => (box tt, true, v))
  | Modify f => Some (fun state => (box (f state), true, f state))
  | _ => None
  end.

(** The method [DispatchError(ctx *ErrorContext[E]) (Resumed, bool)],
    for the operations that have it. *)
Definition DispatchError (o : Op)
  : option (ErrorContext -> result (dynval Val * bool * ErrorContext)) :=
  match o with
  | Throw e => Some (fun _ => Ok (box tt, true, mkErrorContext e true))
  | Catch body handler =>
      Some (fun ctx =>
        match runBody body with
        | Panic msg => Panic msg
        | Ok bodyResult =>
            if IsLeft bodyResult then
              let errVal := fst (GetLeft bodyResult) in
              match runBody (handler errVal) with
              | Panic msg => Panic msg
              | Ok handlerResult =>
                  if IsLeft handlerResult then
                    let e := fst (GetLeft handlerResult) in
                    Ok (box tt, true, mkErrorContext e true)
                  else
                    Ok (box (fst (GetRight handlerResult)), true, ctx)
              end
            else
              Ok (box (fst (GetRight bodyResult)), true, ctx)
        end)
  | _ => None
  end.

(** The computation raises [Throw(e)] when the state, [s] at first, has
    become [s']: [throws_at res s e s'].  Before the [Throw] the
    computation may perform [Get] (answered with the state), [Put(v)]
    (the state becomes [v]; answered with the unit value), [Modify(f)]
    (the state becomes [f s], which is also the answer) and
    [Catch(body, handler)]: a [Catch] whose body returns [Right(b)], or
    whose body returns [Left(x)] and whose [handler(x)] returns
    [Right(b)], is answered with [b] and has no part in the state; a
    [Catch] whose body returns [Left(x)] and whose [handler(x)] returns
    [Left(e)] raises [e] itself, where the state stands. *)
Inductive throws_at : Resumed Val Op -> S -> E -> S -> Prop :=
| throws_here : forall e resume s,
    throws_at (Marker (Throw e) resume) s e s
| throws_after_get : forall resume next s e s',
    resume (box s) = Ok next ->
    throws_at next s e s' ->
    throws_at (Marker Get resume) s e s'
| throws_after_put : forall v resume next s e s',
    resume (box tt) = Ok next ->
    throws_at next v e s' ->
    throws_at (Marker (Put v) resume) s e s'
| throws_after_modify : forall f resume next s e s',
    resume (box (f s)) = Ok next ->
    throws_at next (f s) e s' ->
    throws_at (Marker (Modify f) resume) s e s'
| throws_after_catch : forall body handler bodyResult resume next s e s',
    runBody body = Ok bodyResult ->
    isRight bodyResult = true ->
    resume (box (right bodyResult)) = Ok next ->
    throws_at next s e s' ->
    throws_at (Marker (Catch body handler) resume) s e s'
| throws_after_caught : forall body handler bodyResult handlerResult
                               resume next s e s',
    runBody body = Ok bodyResult ->
    isRight bodyResult = false ->
    runBody (handler (left bodyResult)) = Ok handlerResult ->
    isRight handlerResult = true ->
    resume (box (right handlerResult)) = Ok next ->
    throws_at next s e s' ->
    throws_at (Marker (Catch body handler) resume) s e s'
| throws_in_catch : forall body handler bodyResult handlerResult resume s,
    runBody body = Ok bodyResult ->
    isRight bodyResult = false ->
    runBody (handler (left bodyResult)) = Ok handlerResult ->
    isRight handlerResult = false ->
    throws_at (Marker (Catch body handler) resume) s (left handlerResult) s.

Section Runners.
Variable A : Type.
Context {GA : GoType Val A}.
Context {GEA : GoType Val (Either E A)}.

(** [errorHandler[E, A].Dispatch] *)
Definition errorHandler : Handler Val Op ErrorContext :=
  {| Dispatch := fun ctx o =>
       match DispatchError o with
       | Some eop =>
           match eop ctx with
           | Panic msg => Panic msg
           | Ok (v, _, ctx') =>
               if HasErr ctx' then Ok (box (Left (Err ctx')), false, ctx')
               else Ok (v, true, ctx')
           end
       | None => Panic (unhandledEffect "ErrorHandler")
       end |}.

Definition rightCont (a : A) : result (Resumed Val Op) :=
  Ok (Plain (box (Right a))).

(** [RunError[E, A]] *)
Definition RunError (m : Eff Val Op A) : result (Either E A) :=
  match m rightCont with
  | Panic msg => Panic msg
  | Ok (Plain dnil) => Ok (Right zero)
  | Ok res =>
      match handleDispatch errorHandler res (mkErrorContext zero false) with
      | Panic msg => Panic msg
      | Ok (either, _) => Ok either
      end
  end.

(** [stateErrorHandler[S, E, A].Dispatch]; the handler object is the
    state and the error context its two pointers reach. *)
Definition stateErrorHandler : Handler Val Op (S * ErrorContext) :=
  {| Dispatch := fun st o =>
       match DispatchState o with
       | Some sop =>
           let '(v, shouldResume, state') := sop (fst st) in
           Ok (v, shouldResume, (state', snd st))
       | None =>
           match DispatchError o with
           | Some eop =>
               match eop (snd st) with
               | Panic msg => Panic msg
               | Ok (v, _, ctx') =>
                   if HasErr ctx' then
                     Ok (box (Left (Err ctx')), false, (fst st, ctx'))
                   else Ok (v, true, (fst st, ctx'))
               end
           | None => Panic (unhandledEffect "StateErrorHandler")
           end
       end |}.

(** [RunStateError[S, E, A]] *)
Definition RunStateError (initial : S) (m : Eff Val Op A)
  : result (Either E A * S) :=
  match m rightCont with
  | Panic msg => Panic msg
  | Ok (Plain dnil) => Ok (Right zero, initial)
  | Ok res =>
      match handleDispatch stateErrorHandler res
              (initial, mkErrorContext zero false) with
      | Panic msg => Panic msg
      | Ok (either, st) => Ok (either, fst st)
      end
  end.

(** [stateHandler[S, A].Dispatch] and [RunState[S, A]] *)
Definition stateHandler : Handler Val Op S :=
  {| Dispatch := fun state o =>
       match DispatchState o with
       | Some sop => Ok (sop state)
       | None => Panic (unhandledEffect "StateHandler")
       end |}.

Definition RunState (initial : S) (m : Eff Val Op A) : result (A * S) :=
  Handle stateHandler m initial.

(** [ThrowError[E, A]] and [CatchError[E, A]] *)
Definition ThrowError (err : E) : Eff Val Op A :=
  fun k => Ok (effectMarker (Throw err) k).

End Runners.

Definition CatchError (body : CatchBody) (handler : E -> CatchBody)
  : Eff Val Op B :=
  Perform (Catch body handler).

End StateError.

Arguments Get {S E CatchBody}.
Arguments Put {S E CatchBody} Value.
Arguments Modify {S E CatchBody} F.
Arguments Throw {S E CatchBody} Err.
Arguments Catch {S E CatchBody} Body Handler.
Arguments Foreign {S E CatchBody} name.
Arguments rightCont {Val S E CatchBody GE A GA GEA} a.
Arguments errorHandler {Val S E B CatchBody GE GB GU} runBody {A GA GEA}.
Arguments stateHandler {Val S E CatchBody GS GU}.

(* ================================================================== *)
(** * A universe of values: [int], [struct{}], [string], [Either], [any] *)

Inductive GoValue : Type :=
| GInt (n : Z)
| GUnit
| GString (s : string)
| GEither (isRight : bool) (l r : GoValue).

(** [int] *)
#[export] Instance GoType_int : GoType GoValue Z.
Proof.
  refine {| box := fun n => dbox (GInt n);
            assert := fun d => match d with
                               | dbox (GInt n) => Ok n
                               | _ => Panic assertion_failed
                               end;
            zero := 0 |}.
  - reflexivity.
  - intros [|[n| | |]] t H; inversion H; reflexivity.
  - reflexivity.
Defined.

(** [struct{}] *)
#[export] Instance GoType_unit : GoType GoValue unit.
Proof.
  refine {| box := fun _ => dbox GUnit;
            assert := fun d => match d with
                               | dbox GUnit => Ok tt
                               | _ => Panic assertion_failed
                               end;
            zero := tt |}.
  - reflexivity.
  - intros [|[n| | |]] t H; inversion H; reflexivity.
  - intros []; reflexivity.
Defined.

(** [string] *)
#[export] Instance GoType_string : GoType GoValue string.
Proof.
  refine {| box := fun s => dbox (GString s);
            assert := fun d => match d with
                               | dbox (GString s) => Ok s
                               | _ => Panic assertion_failed
                               end;
            zero := EmptyString |}.
  - reflexivity.
  - intros [|[n| | |]] t H; inversion H; reflexivity.
  - reflexivity.
Defined.

(** [Either[string, int]] *)
#[export] Instance GoType_either : GoType GoValue (Either string Z).
Proof.
  refine {| box := fun e =>
              dbox (GEither (isRight e) (GString (left e)) (GInt (right e)));
            assert := fun d => match d with
                               | dbox (GEither b (GString l) (GInt r)) =>
                                   Ok (mkEither b l r)
                               | _ => Panic assertion_failed
                               end;
            zero := mkEither false EmptyString 0 |}.
  - reflexivity.
  - intros [|[n| | |b [ | |l| ] [z| | | ]]] t H; inversion H; reflexivity.
  - intros [b l z] _; reflexivity.
Defined.

(** [any]: an interface type; its zero value is the nil interface, and
    the assertion [x.(any)] fails exactly on nil. *)
Definition GoType_any : GoType GoValue (dynval GoValue).
Proof.
  refine {| box := fun d => d;
            assert := fun d => match d with
                               | dnil => Panic assertion_failed
                               | dbox v => Ok (dbox v)
                               end;
            zero := dnil |}.
  - reflexivity.
  - intros [|v] t H; inversion H; reflexivity.
  - intros [|v] H; [exfalso; apply H|]; reflexivity.
Defined.

(** The operations of the State and Error effects over [int] state and
    [string] errors, with no [Catch] inside a [Catch] body. *)
Definition Op0 : Type := Op Z string Empty_set.

Definition runBody0 (b : Empty_set) : result (Either string Z) :=
  match b with end.

(** One level up: the bodies of a [Catch] are computations over
    [Op0]. *)
Definition Op1 : Type := Op Z string (Eff GoValue Op0 Z).

Definition runBody1 (b : Eff GoValue Op0 Z) : result (Either string Z) :=
  RunError runBody0 b.

(** The program "let s = Get in Put(s+10); Get", closure form. *)
Definition get_put_get : Eff GoValue Op0 Z :=
  Bind (Perform (A := Z) Get)
       (fun s => Then (Perform (A := unit) (Put (GoInt.add s 10)))
                      (Perform (A := Z) Get)).

(** The same program, frame form. *)
Definition get_put_get_expr : Expr GoValue Op0 Z :=
  ExprBind (ExprPerform (A := Z) Get)
           (fun s => ExprThen (ExprPerform (A := unit) (Put (GoInt.add s 10)))
                              (ExprPerform (A := Z) Get)).

(* ================================================================== *)
(** * Runs of the trampoline *)

Section Runs.
Variables Val Operation H : Type.
Variable h : Handler Val Operation H.

(** One turn of the loop of [handleDispatch] that ends in [continue]:
    the value is a suspension, the handler answers with the resume
    flag set, and the suspension is resumed with the answer. *)
Inductive turn : Resumed Val Operation * H -> Resumed Val Operation * H -> Prop :=
| turn_resume : forall o resume st v st' next,
    Dispatch h st o = Ok (v, true, st') ->
    resume v = Ok next ->
    turn (Marker o resume, st) (next, st').

(** Any number of turns. *)
Inductive turns : Resumed Val Operation * H -> Resumed Val Operation * H -> Prop :=
| turns_refl : forall c, turns c c
| turns_step : forall c1 c2 c3, turn c1 c2 -> turns c2 c3 -> turns c1 c3.

End Runs.


(* ================================================================== *)
(** * Small programs and handlers used as instances *)

(** A handler that answers every operation with nil and resumes. *)
Definition answer_nil : Handler GoValue Op0 unit :=
  {| Dispatch := fun st _ => Ok (dnil, true, st) |}.

(** [Put(1)] fused with a computation that returns nil without calling
    its continuation. *)
Definition put_then_nil : Eff GoValue Op0 Z :=
  fun k => Ok (thenMarker (Put 1) (Suspend (fun _ => Ok (Plain dnil))) k).

(** The continuation of the tests of [Affine]: [x => x * 2]. *)
Definition double (x : Z) : result Z := Ok (GoInt.mul x 2).

(** [Put(99)]; [Modify(+1)]; [Throw("boom")]. *)
Definition put_modify_throw : Eff GoValue Op0 Z :=
  Then (Perform (A := unit) (Put 99))
       (Bind (Perform (A := Z) (Modify (fun s => GoInt.add s 1)))
             (fun _ => ThrowError (A := Z) "boom")).

(** [Put(99)]; [v := Catch(Throw("inner"), _ => Pure(1))];
    [Modify(+v)]; [Throw("boom")]: a [Catch] that recovers stands
    between the [Put] and the [Throw]. *)
Definition put_catch_throw : Eff GoValue Op1 Z :=
  Then (Perform (A := unit) (Put 99))
       (Bind (CatchError (B := Z) (ThrowError (A := Z) "inner")
                         (fun _ => Pure 1))
             (fun v => Then (Perform (A := Z) (Modify (fun s => GoInt.add s v)))
                            (ThrowError (A := Z) "boom"))).

(** [Put(7)]; [Catch(Throw("inner"), x => Throw(x ++ "!"))]: the
    handler of the [Catch] throws in its turn. *)
Definition put_catch_rethrow : Eff GoValue Op1 Z :=
  Then (Perform (A := unit) (Put 7))
       (CatchError (B := Z) (ThrowError (A := Z) "inner")
                   (fun x => ThrowError (A := Z) (x ++ "!"))).

(** A [Catch] body that reads the state. *)
Definition body_get : Eff GoValue Op0 Z := Perform (A := Z) Get.

(** [Pure[any](nil)]: a computation whose answer type is the interface
    type [any] and whose result is nil. *)
Definition pure_nil : Eff GoValue Op0 (dynval GoValue) := Pure dnil.

(** The State handler over [int] state. *)
Definition stateHandler0 : Handler GoValue Op0 Z := stateHandler.

(* ================================================================== *)
(** * trampoline.go: what a frame chain does, frame by frame *)

(** The loop of [evalFrames] works on a chain that it flattens and
    rotates as it goes.  Read without those rearrangements, a frame acts
    on the current value and the handler, and then hands over to the
    frame after it; an operation the handler does not resume, or a
    panic, ends the run.  [denote] is this reading for the processor of
    [HandleExpr]; the properties of chains, of [ExprBind] and of the
    stepping boundary are stated on [evalFrames] and proved through
    it. *)
Section Denote.
Variables Val Operation R H : Type.
Context {GR : GoType Val R}.
Variable h : Handler Val Operation H.

(** Where a frame leaves the run: at the next frame, with a current
    value and a handler, or at its end. *)
Inductive flow : Type :=
| Next (current : Erased Val Operation) (st : H)
| Stop (r : result R) (st : H).

Definition andThen (o : flow) (k : Erased Val Operation -> H -> flow) : flow :=
  match o with
  | Next c st => k c st
  | Stop r st => Stop r st
  end.

(** [handlerProcessor.processEffect] without the frame it passes on. *)
Definition dispatchEffect (o : Operation)
  (resume : Erased Val Operation -> result (Erased Val Operation)) (st : H)
  : flow :=
  match Dispatch h st o with
  | Panic msg => Stop (Panic msg) st
  | Ok (v, shouldResume, st') =>
      if shouldResume then
        match resume (Plain v) with
        | Panic msg => Stop (Panic msg) st'
        | Ok resumed => Next resumed st'
        end
      else
        match assert v with
        | Panic msg => Stop (Panic msg) st'
        | Ok r => Stop (Ok r) st'
        end
  end.

(** The frames that [fromResumed[A]] builds from a value, read in
    order: the effect frame of a suspension, then the conversion of
    what its [Resume] returns. *)
Fixpoint denoteResumed (A : Type) (GA : GoType Val A)
  (r : Resumed Val Operation) (st : H) {struct r} : flow :=
  match r with
  | Marker o resume =>
      match Dispatch h st o with
      | Panic msg => Stop (Panic msg) st
      | Ok (v, shouldResume, st') =>
          if shouldResume then
            match resume v with
            | Panic msg => Stop (Panic msg) st'
            | Ok next => denoteResumed GA next st'
            end
          else
            match assert v with
            | Panic msg => Stop (Panic msg) st'
            | Ok r => Stop (Ok r) st'
            end
      end
  | Plain dnil => Next (Plain (box (zero (T := A)))) st
  | Plain x =>
      match assert (T := A) x with
      | Panic msg => Stop (Panic msg) st
      | Ok a => Next (Plain (box a)) st
      end
  end.

Fixpoint denote (frame : Frame Val Operation) (current : Erased Val Operation)
  (st : H) {struct frame} : flow :=
  match frame with
  | ReturnFrame => Next current st
  | BindFrame F fNext _ =>
      andThen
        match F with
        | Closure f =>
            match f current with
            | Panic msg => Stop (Panic msg) st
            | Ok (nextValue, nextFrame) => denote nextFrame nextValue st
            end
        | reifyNext _ GA => denoteResumed GA current st
        end
        (denote fNext)
  | MapFrame F fNext =>
      match F current with
      | Panic msg => Stop (Panic msg) st
      | Ok v => denote fNext v st
      end
  | ThenFrame secondValue secondFrame fNext _ =>
      andThen (denote secondFrame secondValue st) (denote fNext)
  | EffectFrame o resume fNext _ =>
      andThen (dispatchEffect o resume st) (denote fNext)
  | chainedFrame cfirst crest _ =>
      andThen (denote cfirst current st) (denote crest)
  | UserFrame (Some unwind) =>
      match unwind current with
      | Panic msg => Stop (Panic msg) st
      | Ok (v, next) => denote next v st
      end
  | UserFrame None => Stop (Panic unknown_frame) st
  end.

(** The end of a run: [processReturn] on the value that is left. *)
Definition finish (o : flow) : result R * H :=
  match o with
  | Next c st => processReturn (handlerProcessor h) c st
  | Stop r st => (r, st)
  end.

(** The loop, started on [frame], gets to where [o] says: it has
    returned [out], or what is left of the run is the run of [K]. *)
Definition continues (o : flow) (K : Frame Val Operation) (fuel : nat)
  (out : result R * H) : Prop :=
  match o with
  | Next c st => evalFrames (handlerProcessor h) fuel c K st = Some out
  | Stop r st => out = (r, st)
  end.

Definition reaches (c : Erased Val Operation) (frame : Frame Val Operation)
  (st : H) (o : flow) (K : Frame Val Operation) : Prop :=
  exists n : nat, forall fuel out,
    continues o K fuel out ->
    evalFrames (handlerProcessor h) (n + fuel) c frame st = Some out.

(** A frame whose run, alone or as the first of a chain node, is what
    [denote] says. *)
Definition sound (frame : Frame Val Operation) : Prop :=
  (forall c st K p,
      reaches c (chainedFrame frame K p) st (denote frame c st) K) /\
  (forall c st, reaches c frame st (denote frame c st) ReturnFrame).

End Denote.

Arguments Next {Val Operation R H} current st.
Arguments Stop {Val Operation R H} r st.

(** The suspended computations that the constructors of the package
    build ([ExprPerform], [ExprThrowError], [Reify], and [ExprBind],
    [ExprMap], [ExprThen] on these) start with an [EffectFrame], and
    their [Value] is the zero value.  An [EffectFrame] does not read the
    current value it is started on. *)
Fixpoint effectFirst {Val Operation : Type} (frame : Frame Val Operation)
  : bool :=
  match frame with
  | EffectFrame _ _ _ _ => true
  | chainedFrame cfirst _ _ => effectFirst cfirst
  | _ => false
  end.

Definition standardExpr {Val Operation A : Type} {GA : GoType Val A}
  (m : Expr Val Operation A) : Prop :=
  ExprFrame m = ReturnFrame \/
  (Value m = zero /\ effectFirst (ExprFrame m) = true).

(* ================================================================== *)
(** * Driving the frame form through the stepping boundary *)

(** The loop of the documentation of [Step], started with [StepExpr]:
      [result, susp := StepExpr(m)]
      [for susp != nil { v := handleOp(susp.Op()); result, susp = susp.Resume(v) }]
    with [h.Dispatch] for [handleOp], as in [driveSteps]. *)
Section DriverExpr.
Variables Val Operation R H : Type.
Context {GR : GoType Val R}.
Variable h : Handler Val Operation H.

Definition driveStepsExpr (fuel : nat) (m : Expr Val Operation R) (st : H)
  (hp : heap Val Operation)
  : option (result (R * H) * heap Val Operation) :=
  match StepExpr fuel m hp with
  | None => None
  | Some (Panic msg, hp') => Some (Panic msg, hp')
  | Some (Ok cur, hp') => driveLoop h fuel cur st hp'
  end.

(** A run of the frames up to the first operation ([f1] passes of the
    loop at most), as [StepExpr] and [Resume] make it, followed by the
    driver. *)
Definition stepsThenDrive (f1 f2 : nat) (reuse : option ptr)
  (c : Erased Val Operation) (frame : Frame Val Operation) (st : H)
  (hp : heap Val Operation)
  : option (result (R * H) * heap Val Operation) :=
  match evalFrames (stepProcessor reuse) f1 c frame hp with
  | None => None
  | Some (Panic msg, hp1) => Some (Panic msg, hp1)
  | Some (Ok o, hp1) =>
      match classifyStepResult (A := R) o with
      | Panic msg => Some (Panic msg, hp1)
      | Ok cur => driveLoop h f2 cur st hp1
      end
  end.

End DriverExpr.

(* ================================================================== *)
(** * frame.go: the [Unwind] methods of the typed frames *)

(** A frame of type [BindFrame[A, B]], [MapFrame[A, B]] or
    [ThenFrame[A, B]] at types other than [Erased] is not one of the
    cases that [evalFrames] inlines: the loop calls its [Unwind]
    method.  In the embedding such a frame is a [UserFrame] that carries
    the method. *)
Section Unwind.
Variables Val Operation A B : Type.
Context {GA : GoType Val A} {GB : GoType Val B}.

Definition BindFrameUnwind (F : A -> Expr Val Operation B)
  (Next : Frame Val Operation) (current : Erased Val Operation)
  : result (Erased Val Operation * Frame Val Operation) :=
  match assertErased current with
  | Panic msg => Panic msg
  | Ok a =>
      let next := F a in
      Ok (Plain (box (Value next)), ChainFrames (ExprFrame next) Next)
  end.

Definition MapFrameUnwind (F : A -> B)
  (Next : Frame Val Operation) (current : Erased Val Operation)
  : result (Erased Val Operation * Frame Val Operation) :=
  match assertErased current with
  | Panic msg => Panic msg
  | Ok a => Ok (Plain (box (F a)), Next)
  end.

Definition ThenFrameUnwind (Second : Expr Val Operation B)
  (Next : Frame Val Operation) (current : Erased Val Operation)
  : result (Erased Val Operation * Frame Val Operation) :=
  Ok (Plain (box (Value Second)), ChainFrames (ExprFrame Second) Next).

End Unwind.

(* ================================================================== *)
(** * error.go: working with [Either] *)

(** The functions passed to these combinators are Go closures: they
    return or panic. *)
Section EitherOps.
Variables Val E A : Type.
Context {GE : GoType Val E} {GA : GoType Val A}.

Definition MatchEither {T : Type} (e : Either E A)
  (onLeft : E -> result T) (onRight : A -> result T) : result T :=
  if isRight e then onRight (right e) else onLeft (left e).

Definition MapEither {B : Type} {GB : GoType Val B} (e : Either E A)
  (f : A -> result B) : result (Either E B) :=
  if isRight e then
    match f (right e) with
    | Panic msg => Panic msg
    | Ok b => Ok (Right b)
    end
  else Ok (Left (left e)).

Definition FlatMapEither {B : Type} {GB : GoType Val B} (e : Either E A)
  (f : A -> result (Either E B)) : result (Either E B) :=
  if isRight e then f (right e) else Ok (Left (left e)).

Definition MapLeftEither {F : Type} {GF : GoType Val F} (e : Either E A)
  (f : E -> result F) : result (Either F A) :=
  if isRight e then Ok (Right (right e))
  else
    match f (left e) with
    | Panic msg => Panic msg
    | Ok x => Ok (Left x)
    end.

End EitherOps.

(* ================================================================== *)
(** * The State and Error runners: the remaining entry points *)

Section StateErrorRunners.
Variable Val : Type.
Variables S E B : Type.
Variable CatchBody : Type.
Context {GS : GoType Val S} {GE : GoType Val E} {GB : GoType Val B}.
Context {GU : GoType Val unit}.
Context {GEB : GoType Val (Either E B)}.
Variable runBody : CatchBody -> result (Either E B).
Variable A : Type.
Context {GA : GoType Val A}.
Context {GEA : GoType Val (Either E A)}.

(** [ExprThrowError[E, A]] *)
Definition ExprThrowError (err : E) : Expr Val (Op S E CatchBody) A :=
  {| Value := zero;
     ExprFrame :=
       EffectFrame (Throw err) (@identityResume Val (Op S E CatchBody))
         ReturnFrame false |}.

(** [RunErrorExpr[E, A]] *)
Definition RunErrorExpr (fuel : nat) (m : Expr Val (Op S E CatchBody) A)
  : option (result (Either E A)) :=
  let wrapped := ExprMap m (fun a => Right (E := E) a) in
  match HandleExpr fuel wrapped (errorHandler runBody (A := A))
          (mkErrorContext zero false) with
  | None => None
  | Some (Panic msg) => Some (Panic msg)
  | Some (Ok (either, _)) => Some (Ok either)
  end.

(** [RunStateErrorExpr[S, E, A]] *)
Definition RunStateErrorExpr (fuel : nat) (initial : S)
  (m : Expr Val (Op S E CatchBody) A) : option (result (Either E A * S)) :=
  let wrapped := ExprMap m (fun a => Right (E := E) a) in
  match HandleExpr fuel wrapped (stateErrorHandler runBody (A := A))
          (initial, mkErrorContext zero false) with
  | None => None
  | Some (Panic msg) => Some (Panic msg)
  | Some (Ok (either, st)) => Some (Ok (either, fst st))
  end.

(** [EvalStateError] and [ExecStateError] *)
Definition EvalStateError (initial : S) (m : Eff Val (Op S E CatchBody) A)
  : result (Either E A) :=
  match RunStateError runBody initial m with
  | Panic msg => Panic msg
  | Ok (either, _) => Ok either
  end.

Definition ExecStateError (initial : S) (m : Eff Val (Op S E CatchBody) A)
  : result S :=
  match RunStateError runBody initial m with
  | Panic msg => Panic msg
  | Ok (_, state) => Ok state
  end.

(** [EvalState], [ExecState] and [RunStateExpr] *)
Definition EvalState (initial : S) (m : Eff Val (Op S E CatchBody) A)
  : result A :=
  match RunState initial m with
  | Panic msg => Panic msg
  | Ok (a, _) => Ok a
  end.

Definition ExecState (initial : S) (m : Eff Val (Op S E CatchBody) A)
  : result S :=
  match RunState initial m with
  | Panic msg => Panic msg
  | Ok (_, state) => Ok state
  end.

Definition RunStateExpr (fuel : nat) (initial : S)
  (m : Expr Val (Op S E CatchBody) A) : option (result (A * S)) :=
  HandleExpr fuel m stateHandler initial.

(** The fused constructors: [GetState] is [Get] with its bind,
    [PutState] is [Put] with its then, [ModifyState] is [Modify] with
    its bind.  (The markers come from a pool; a marker is a value
    here.) *)
Definition GetState (f : S -> Eff Val (Op S E CatchBody) A)
  : Eff Val (Op S E CatchBody) A :=
  fun k => Ok (bindMarker Get f k).

Definition PutState (s : S) (next : Eff Val (Op S E CatchBody) A)
  : Eff Val (Op S E CatchBody) A :=
  fun k => Ok (thenMarker (Put s) next k).

Definition ModifyState (f : S -> S) (next : S -> Eff Val (Op S E CatchBody) A)
  : Eff Val (Op S E CatchBody) A :=
  fun k => Ok (bindMarker (Modify f) next k).

End StateErrorRunners.

Arguments ExprThrowError {Val S E CatchBody A GA} err.

(* ================================================================== *)
(** * run.go: the Reader effect *)

Section Reader.
Variables Val Env Operation : Type.
Context {GEnv : GoType Val Env}.

(** The operations: [Ask[E]], and [NotReader] for an operation of any
    other type (it has no [DispatchReader]). *)
Inductive ReaderOp : Type :=
| Ask
| NotReader (o : Operation).

(** The method [DispatchReader(env *E) (Resumed, bool)], for the
    operations that have it: the answer, the flag and the environment
    after the call. *)
Definition DispatchReader (o : ReaderOp)
  : option (Env -> dynval Val * bool * Env) :=
  match o with
  | Ask => Some (fun env => (box env, true, env))
  | NotReader _ => None
  end.

(** [readerHandler[E, R].Dispatch] *)
Definition readerHandler : Handler Val ReaderOp Env :=
  {| Dispatch := fun env o =>
       match DispatchReader o with
       | Some rop => Ok (rop env)
       | None => Panic (unhandledEffect "ReaderHandler")
       end |}.

Section ReaderRun.
Variable A : Type.
Context {GA : GoType Val A}.

(** [RunReader[E, A]] and [RunReaderExpr[E, A]] *)
Definition RunReader (env : Env) (m : Eff Val ReaderOp A) : result A :=
  match Handle readerHandler m env with
  | Panic msg => Panic msg
  | Ok (a, _) => Ok a
  end.

Definition RunReaderExpr (fuel : nat) (env : Env) (m : Expr Val ReaderOp A)
  : option (result A) :=
  match HandleExpr fuel m readerHandler env with
  | None => None
  | Some (Panic msg) => Some (Panic msg)
  | Some (Ok (a, _)) => Some (Ok a)
  end.

(** [AskReader] and [MapReader]: [Ask] fused with its bind, with its
    map. *)
Definition AskReader (f : Env -> Eff Val ReaderOp A) : Eff Val ReaderOp A :=
  fun k => Ok (bindMarker Ask f k).

Definition MapReader (f : Env -> A) : Eff Val ReaderOp A :=
  fun k => Ok (mapMarker Ask f k).

End ReaderRun.

End Reader.

Arguments Ask {Operation}.
Arguments NotReader {Operation} o.
Arguments readerHandler {Val Env Operation GEnv}.

(* ================================================================== *)
(** * compose.go: the handlers composed with Reader *)

Section ComposedReader.
Variables Val Env S E B CatchBody : Type.
Context {GEnv : GoType Val Env}.
Context {GS : GoType Val S} {GE : GoType Val E} {GB : GoType Val B}.
Context {GU : GoType Val unit}.
Context {GEB : GoType Val (Either E B)}.
Variable runBody : CatchBody -> result (Either E B).

(** The methods [DispatchState] and [DispatchError] of an operation of
    the larger family: [Ask] has neither. *)
Definition DispatchStateR (o : ReaderOp (Op S E CatchBody))
  : option (S -> dynval Val * bool * S) :=
  match o with
  | Ask => None
  | NotReader o' => DispatchState o'
  end.

Definition DispatchErrorR (o : ReaderOp (Op S E CatchBody))
  : option (ErrorContext E -> result (dynval Val * bool * ErrorContext E)) :=
  match o with
  | Ask => None
  | NotReader o' => DispatchError runBody o'
  end.

(** [stateReaderHandler[S, E, R].Dispatch]: State, then Reader. *)
Definition stateReaderHandler
  : Handler Val (ReaderOp (Op S E CatchBody)) (S * Env) :=
  {| Dispatch := fun st o =>
       match DispatchStateR o with
       | Some sop =>
           let '(v, shouldResume, state') := sop (fst st) in
           Ok (v, shouldResume, (state', snd st))
       | None =>
           match DispatchReader o with
           | Some rop =>
               let '(v, shouldResume, env') := rop (snd st) in
               Ok (v, shouldResume, (fst st, env'))
           | None => Panic (unhandledEffect "StateReaderHandler")
           end
       end |}.

Section ComposedRun.
Variable A : Type.
Context {GA : GoType Val A}.
Context {GEA : GoType Val (Either E A)}.

(** [RunStateReader[S, E, A]] *)
Definition RunStateReader (initial : S) (env : Env)
  (m : Eff Val (ReaderOp (Op S E CatchBody)) A) : result (A * S) :=
  match Handle stateReaderHandler m (initial, env) with
  | Panic msg => Panic msg
  | Ok (a, st) => Ok (a, fst st)
  end.

(** [readerStateErrorHandler[Env, S, Err, A].Dispatch]: Reader, then
    State, then Error; the handler object is the environment, the state
    and the error context. *)
Definition readerStateErrorHandler
  : Handler Val (ReaderOp (Op S E CatchBody)) (Env * S * ErrorContext E) :=
  {| Dispatch := fun st o =>
       let '(env, state, ctx) := st in
       match DispatchReader o with
       | Some rop =>
           let '(v, shouldResume, env') := rop env in
           Ok (v, shouldResume, (env', state, ctx))
       | None =>
           match DispatchStateR o with
           | Some sop =>
               let '(v, shouldResume, state') := sop state in
               Ok (v, shouldResume, (env, state', ctx))
           | None =>
               match DispatchErrorR o with
               | Some eop =>
                   match eop ctx with
                   | Panic msg => Panic msg
                   | Ok (v, _, ctx') =>
                       if HasErr ctx' then
                         Ok (box (Left (A := A) (Err ctx')), false,
                             (env, state, ctx'))
                       else Ok (v, true, (env, state, ctx'))
                   end
               | None => Panic (unhandledEffect "ReaderStateErrorHandler")
               end
           end
       end |}.

(** The continuation [rightCont[Err, A]] of the runner. *)
Definition rightContR (a : A)
  : result (Resumed Val (ReaderOp (Op S E CatchBody))) :=
  Ok (Plain (box (Right (E := E) a))).

(** [RunReaderStateError[Env, S, Err, A]] *)
Definition RunReaderStateError (env : Env) (initial : S)
  (m : Eff Val (ReaderOp (Op S E CatchBody)) A) : result (Either E A * S) :=
  match m rightContR with
  | Panic msg => Panic msg
  | Ok (Plain dnil) => Ok (Right zero, initial)
  | Ok res =>
      match handleDispatch readerStateErrorHandler res
              (env, initial, mkErrorContext zero false) with
      | Panic msg => Panic msg
      | Ok (either, st) => Ok (either, snd (fst st))
      end
  end.

End ComposedRun.

End ComposedReader.

Arguments stateReaderHandler {Val Env S E CatchBody GEnv GS GU}.
Arguments rightContR {Val S E CatchBody GE A GA GEA} a.

(* ================================================================== *)
(** * writer.go: the Writer effect *)

(** [W] is the type of the outputs; the log behind [WriterContext.Output]
    is a list.  [B] is the result type of the computations carried by
    [Listen[W, B]] and [Censor[W, B]]; [WriterBody] is the type of those
    computations and [runBody] is [Handle] on them with the writer
    handler, started on the log so far: it returns the result and the
    log after the body.  As for [Catch], bodies are stratified by the
    depth of nesting. *)
Section Writer.
Variables Val W B Operation : Type.
Variable WriterBody : Type.
Context {GB : GoType Val B} {GU : GoType Val unit}.
Context {GP : GoType Val (B * list W)}.
Variable runBody : WriterBody -> list W -> result (B * list W).

(** The operations: [Tell[W]], [Listen[W, B]], [Censor[W, B]], and
    [NotWriter] for an operation of any other type. *)
Inductive WriterOp : Type :=
| Tell (Value : W)
| Listen (Body : WriterBody)
| Censor (F : list W -> result (list W)) (Body : WriterBody)
| NotWriter (o : Operation).

(** The run-time errors of [make] with a negative length and of a slice
    expression whose low bound is beyond the length. *)
Definition makeslice_out_of_range : string :=
  "runtime error: makeslice: len out of range".
Definition slice_out_of_range : string :=
  "runtime error: slice bounds out of range".

(** The method [DispatchWriter(ctx *WriterContext[W]) (Resumed, bool)]:
    the answer, the flag and the log after the call. *)
Definition DispatchWriter (o : WriterOp)
  : option (list W -> result (dynval Val * bool * list W)) :=
  match o with
  | Tell w => Some (fun output => Ok (box tt, true, (output ++ [w])%list))
  | Listen body =>
      Some (fun output =>
        let startLen := List.length output in
        match runBody body output with
        | Panic msg => Panic msg
        | Ok (result, output') =>
            if (List.length output' <? startLen)%nat
            then Panic makeslice_out_of_range
            else Ok (box (result, skipn startLen output'), true, output')
        end)
  | Censor f body =>
      Some (fun output =>
        let startLen := List.length output in
        match runBody body output with
        | Panic msg => Panic msg
        | Ok (result, output') =>
            if (List.length output' <? startLen)%nat
            then Panic slice_out_of_range
            else
              match f (skipn startLen output') with
              | Panic msg => Panic msg
              | Ok newOutput =>
                  Ok (box result, true,
                      (firstn startLen output' ++ newOutput)%list)
              end
        end)
  | NotWriter _ => None
  end.

(** [writerHandler[W, R].Dispatch] *)
Definition writerHandler : Handler Val WriterOp (list W) :=
  {| Dispatch := fun output o =>
       match DispatchWriter o with
       | Some wop => wop output
       | None => Panic (unhandledEffect "WriterHandler")
       end |}.

Section WriterRun.
Variable A : Type.
Context {GA : GoType Val A}.

(** [RunWriter[W, A]], [ExecWriter[W, A]] and [RunWriterExpr[W, A]] *)
Definition RunWriter (m : Eff Val WriterOp A) : result (A * list W) :=
  Handle writerHandler m [].

Definition ExecWriter (m : Eff Val WriterOp A) : result (list W) :=
  match RunWriter m with
  | Panic msg => Panic msg
  | Ok (_, output) => Ok output
  end.

Definition RunWriterExpr (fuel : nat) (m : Expr Val WriterOp A)
  : option (result (A * list W)) :=
  HandleExpr fuel m writerHandler [].

(** [TellWriter]: [Tell] fused with its then. *)
Definition TellWriter (w : W) (next : Eff Val WriterOp A) : Eff Val WriterOp A :=
  fun k => Ok (thenMarker (Tell w) next k).

End WriterRun.

(** [ListenWriter] and [CensorWriter] *)
Definition ListenWriter (body : WriterBody) : Eff Val WriterOp (B * list W) :=
  Perform (Listen body).

Definition CensorWriter (f : list W -> result (list W)) (body : WriterBody)
  : Eff Val WriterOp B :=
  Perform (Censor f body).

End Writer.

Arguments Tell {W Operation WriterBody} Value.
Arguments Listen {W Operation WriterBody} Body.
Arguments Censor {W Operation WriterBody} F Body.
Arguments NotWriter {W Operation WriterBody} o.
Arguments writerHandler {Val W B Operation WriterBody GB GU GP} runBody.

(** The writer operations with no [Listen] or [Censor] inside a body,
    and one level up, where the bodies are computations over the
    former. *)
Definition noBody {W B : Type} (b : Empty_set) (output : list W)
  : result (B * list W) :=
  match b with end.

Definition bodyRun {Val W B Operation : Type}
  {GB : GoType Val B} {GU : GoType Val unit} {GP : GoType Val (B * list W)}
  (body : Eff Val (WriterOp W Operation Empty_set) B) (output : list W)
  : result (B * list W) :=
  Handle (writerHandler (noBody (W := W) (B := B))) body output.

(** A universe of values for the Writer: [int], [struct{}], [[]int]
    and [Pair[int, []int]]. *)
Inductive WriterValue : Type :=
| WInt (n : Z)
| WUnit
| WPair (fst0 : Z) (snd0 : list Z).

Definition WriterType_int : GoType WriterValue Z.
Proof.
  refine {| box := fun n => dbox (WInt n);
            assert := fun d => match d with
                               | dbox (WInt n) => Ok n
                               | _ => Panic assertion_failed
                               end;
            zero := 0 |}.
  - reflexivity.
  - intros [|[n| |a l]] t H; inversion H; reflexivity.
  - reflexivity.
Defined.

Definition WriterType_unit : GoType WriterValue unit.
Proof.
  refine {| box := fun _ => dbox WUnit;
            assert := fun d => match d with
                               | dbox WUnit => Ok tt
                               | _ => Panic assertion_failed
                               end;
            zero := tt |}.
  - reflexivity.
  - intros [|[n| |a l]] t H; inversion H; reflexivity.
  - intros []; reflexivity.
Defined.

Definition WriterType_pair : GoType WriterValue (Z * list Z).
Proof.
  refine {| box := fun p => dbox (WPair (fst p) (snd p));
            assert := fun d => match d with
                               | dbox (WPair a l) => Ok (a, l)
                               | _ => Panic assertion_failed
                               end;
            zero := (0, []) |}.
  - reflexivity.
  - intros [|[n| |a l]] t H; inversion H; reflexivity.
  - intros [a l] _; reflexivity.
Defined.
(* ================================================================== *)
(** * Properties *)

(** ** The continuation monad *)

(** C2. The monad laws of [Return] and [Bind], as equalities of the
    results under every final continuation [k] and every answer type
    [R]: left identity, right identity, associativity. *)
Theorem monad_laws :
  forall (R A B C : Type) (a : A) (m : Cont R A)
         (f : A -> Cont R B) (g : B -> Cont R C),
    (forall k : B -> R, Bind (Return a) f k = f a k) /\
    (forall k : A -> R, Bind m Return k = m k) /\
    (forall k : C -> R, Bind (Bind m f) g k = Bind m (fun x => Bind (f x) g) k).
Proof.
  intros R A B C a m f g. repeat split; intros k; reflexivity.
Qed.

(** C5. [Reset(Bind(Shift(k => k(1)+k(10)), x => Return(x*2)))] run
    with the identity continuation yields [22]: the continuation handed
    to the body of [Shift] is [x => x*2], the rest of the computation up
    to the [Reset], and the body calls it on [1] and on [10]. *)
Theorem shift_reset_22 :
  Run shift_reset_scenario = 22 /\
  Run shift_reset_scenario = GoInt.add (GoInt.mul 1 2) (GoInt.mul 10 2) /\
  forall (R : Type) (k : Z -> R),
    RunWith (Reset (R := R)
               (Bind (Shift (fun c : Z -> Z => GoInt.add (c 1) (c 10)))
                     (fun x : Z => Return (GoInt.mul x 2)))) k
    = k 22.
Proof.
  repeat split; intros; vm_compute; reflexivity.
Qed.

(** ** Chains *)

(** C9. Identity elision in [ChainFrames] and in [chainFromPool]: with
    the return sentinel on either side the result is the other operand
    itself; a chain node is built only when neither operand is the
    sentinel. *)
Theorem chain_identity_elision :
  forall (Val Operation : Type) (x y : Frame Val Operation),
    ChainFrames ReturnFrame x = x /\
    ChainFrames x ReturnFrame = x /\
    chainFromPool ReturnFrame x = x /\
    chainFromPool x ReturnFrame = x /\
    (x <> ReturnFrame -> y <> ReturnFrame ->
     ChainFrames x y = chainedFrame x y false /\
     chainFromPool x y = chainedFrame x y true).
Proof.
  intros Val Operation x y. repeat split.
  - destruct x; reflexivity.
  - destruct x; reflexivity.
  - destruct x, y; try reflexivity; contradiction.
  - destruct x, y; try reflexivity; contradiction.
Qed.

Lemma chain_identity_elision_witness :
  let x : Frame GoValue Op0 := UserFrame None in
  let y : Frame GoValue Op0 := MapFrame (fun a => Ok a) ReturnFrame in
  x <> ReturnFrame /\ y <> ReturnFrame /\
  ChainFrames x y = chainedFrame x y false /\
  chainFromPool x y = chainedFrame x y true.
Proof.
  intros x y.
  assert (Hx : x <> ReturnFrame) by discriminate.
  assert (Hy : y <> ReturnFrame) by discriminate.
  split; [exact Hx|]. split; [exact Hy|].
  exact (proj2 (proj2 (proj2 (proj2 (chain_identity_elision x y)))) Hx Hy).
Defined.

(** ** Unknown frames *)

(** C8. A frame that is none of the built-in variants and has no
    [Unwind] method makes [evalFrames] panic; the message is the same
    whether the frame stands alone or is the first operand of a chain
    node. *)
Theorem unknown_frame_panic :
  forall (Val Operation St R : Type) (p : frameProcessor Val Operation St R)
         (fuel : nat) (current : Erased Val Operation)
         (crest : Frame Val Operation) (pooled : bool) (st : St),
    evalFrames p (S fuel) current (UserFrame None) st
      = Some (Panic "kont: frame type does not implement Unwind", st) /\
    evalFrames p (S fuel) current (chainedFrame (UserFrame None) crest pooled) st
      = Some (Panic "kont: frame type does not implement Unwind", st) /\
    RunPure (Operation := Op0) (S fuel) (mkExpr 42 (UserFrame None))
      = Some (Panic "kont: frame type does not implement Unwind") /\
    RunPure (Operation := Op0) (S fuel)
      (mkExpr 42 (ChainFrames (UserFrame None)
                              (MapFrame (fun a => Ok a) ReturnFrame)))
      = Some (Panic "kont: frame type does not implement Unwind").
Proof.
  intros. repeat split.
Qed.

(** ** Nil completion *)

Lemma handleDispatch_turn :
  forall (Val Operation R : Type) (GR : GoType Val R) (H : Type)
         (h : Handler Val Operation H) c1 c2,
    turn h c1 c2 ->
    handleDispatch h (fst c1) (snd c1) = handleDispatch (R := R) h (fst c2) (snd c2).
Proof.
  intros Val Operation R GR H h c1 c2 Ht.
  destruct Ht as [o resume st v st' next Hd Hr]. simpl.
  rewrite Hd, Hr. reflexivity.
Qed.

Lemma handleDispatch_turns :
  forall (Val Operation R : Type) (GR : GoType Val R) (H : Type)
         (h : Handler Val Operation H) c1 c2,
    turns h c1 c2 ->
    handleDispatch h (fst c1) (snd c1) = handleDispatch (R := R) h (fst c2) (snd c2).
Proof.
  intros Val Operation R GR H h c1 c2 Hts.
  induction Hts as [c|c1 c2 c3 Ht _ IH].
  - reflexivity.
  - rewrite (handleDispatch_turn GR Ht). exact IH.
Qed.

(** C7. When the computation, applied to the initial continuation or
    resumed by the trampoline after any number of handled operations,
    produces the nil value, [Handle] returns the zero value of the
    answer type (with the handler as the operations left it): it does
    not panic. *)
Theorem Handle_nil_zero :
  forall (Val Operation R : Type) (GR : GoType Val R) (H : Type)
         (h : Handler Val Operation H) (m : Eff Val Operation R)
         (res : Resumed Val Operation) (st st' : H),
    m toResumed = Ok res ->
    turns h (res, st) (Plain dnil, st') ->
    Handle h m st = Ok (zero, st').
Proof.
  intros Val Operation R GR H h m res st st' Hm Hts.
  unfold Handle. rewrite Hm.
  pose proof (handleDispatch_turns GR Hts) as Heq. simpl in Heq.
  exact Heq.
Qed.

Lemma Handle_nil_zero_witness :
  put_then_nil toResumed
    = Ok (thenMarker (Put 1) (Suspend (fun _ => Ok (Plain dnil))) toResumed) /\
  Handle answer_nil put_then_nil tt = Ok (0, tt).
Proof.
  split; [reflexivity|].
  change (Handle answer_nil put_then_nil tt = Ok (zero, tt)).
  apply (@Handle_nil_zero GoValue Op0 Z _ unit answer_nil put_then_nil
           (thenMarker (Put 1) (Suspend (fun _ => Ok (Plain dnil))) toResumed)
           tt tt).
  - reflexivity.
  - eapply turns_step; [|apply turns_refl].
    unfold thenMarker. apply turn_resume with (v := dnil); reflexivity.
Defined.

(** ** Stepping *)

(** C4. The program "let s = Get in Put(s+10); Get" driven through the
    stepping boundary: three suspensions, on [Get], [Put] (of [15]) and
    [Get]; resumed with [5], the unit value and [15], the run ends with
    the value [15] and no suspension.  This holds for [Step] on the
    closure form and for [StepExpr] on the frame form (where the
    suspension object is the same one at every step). *)
Theorem stepping_get_put_get :
  forall fuel : nat,
    (exists hp1 hp2 hp3 hp4,
       Step get_put_get [] = (Ok (0, Some 0%nat), hp1) /\
       SuspensionOp 0%nat hp1 = Ok Get /\
       Resume (A := Z) fuel 0%nat (dbox (GInt 5)) hp1
         = Some (Ok (0, Some 1%nat), hp2) /\
       SuspensionOp 1%nat hp2 = Ok (Put 15) /\
       Resume (A := Z) fuel 1%nat (dbox GUnit) hp2
         = Some (Ok (0, Some 2%nat), hp3) /\
       SuspensionOp 2%nat hp3 = Ok Get /\
       Resume (A := Z) fuel 2%nat (dbox (GInt 15)) hp3
         = Some (Ok (15, None), hp4)) /\
    (exists hp1 hp2 hp3 hp4,
       StepExpr (S (S fuel)) get_put_get_expr [] = Some (Ok (0, Some 0%nat), hp1) /\
       SuspensionOp 0%nat hp1 = Ok Get /\
       Resume (A := Z) (S (S (S fuel))) 0%nat (dbox (GInt 5)) hp1
         = Some (Ok (0, Some 0%nat), hp2) /\
       SuspensionOp 0%nat hp2 = Ok (Put 15) /\
       Resume (A := Z) (S (S (S fuel))) 0%nat (dbox GUnit) hp2
         = Some (Ok (0, Some 0%nat), hp3) /\
       SuspensionOp 0%nat hp3 = Ok Get /\
       Resume (A := Z) (S (S (S fuel))) 0%nat (dbox (GInt 15)) hp3
         = Some (Ok (15, None), hp4)).
Proof.
  intros fuel. split; do 4 eexists; repeat split; reflexivity.
Qed.

(** ** The heap of suspensions *)

Section HeapFacts.
Variables Val Operation : Type.
Implicit Types (hp : heap Val Operation) (x y : Suspension Val Operation).

Lemma load_store_same :
  forall hp (s : ptr) x y,
    load s hp = Some x -> load s (store s y hp) = Some y.
Proof.
  induction hp as [|z hp IH]; intros [|s] x y Hl; simpl in *; try discriminate.
  - reflexivity.
  - eapply IH; eassumption.
Qed.

Lemma store_store :
  forall hp (s : ptr) x y,
    store s y (store s x hp) = store s y hp.
Proof.
  induction hp as [|z hp IH]; intros [|s] x y; simpl; try reflexivity.
  rewrite IH. reflexivity.
Qed.

Lemma load_bound :
  forall hp (s : ptr) x,
    load s hp = Some x -> (s < List.length hp)%nat.
Proof.
  intros hp s x Hl. apply nth_error_Some. unfold load in Hl. congruence.
Qed.

Lemma load_alloc_old :
  forall hp (s : ptr) x y,
    load s hp = Some x -> load s (snd (alloc y hp)) = Some x.
Proof.
  intros hp s x y Hl. unfold alloc, load in *. simpl.
  rewrite nth_error_app1; [assumption|].
  apply nth_error_Some. congruence.
Qed.

Lemma load_alloc_new :
  forall hp y,
    load (fst (alloc y hp)) (snd (alloc y hp)) = Some y.
Proof.
  intros hp y. unfold alloc, load. simpl.
  rewrite nth_error_app2 by apply Nat.le_refl.
  rewrite Nat.sub_diag. reflexivity.
Qed.

End HeapFacts.

(** ** The one-shot law *)

Section OneShot.
Variables Val Operation A : Type.
Context {GA : GoType Val A}.
Implicit Types (hp : heap Val Operation) (x : Suspension Val Operation).

(** [classifyResumed] leaves the objects of the heap as they are, and a
    suspension it returns is a new object. *)
Lemma classifyResumed_heap :
  forall (res : Resumed Val Operation) hp r hp' (s : ptr) x,
    classifyResumed (A := A) res hp = (r, hp') ->
    load s hp = Some x ->
    load s hp' = Some x /\ (forall a, r <> Ok (a, Some s)).
Proof.
  intros res hp r hp' s x Hc Hl.
  pose proof (load_bound _ _ Hl) as Hb.
  unfold classifyResumed in Hc.
  destruct res as [[|v]|o resume]; simpl in Hc.
  - inversion Hc; subst. split; [assumption|]. intros a Ha. discriminate.
  - destruct (assert (dbox v)); inversion Hc; subst;
      (split; [assumption|]); intros a0 Ha; discriminate.
  - inversion Hc; subst. split.
    + apply (load_alloc_old hp s
               (mkSusp 0 o (Some (mkSuspension o resume)) None None) Hl).
    + intros a Ha. inversion Ha. lia.
Qed.

(** A run of [evalFrames] for the step processor that reuses [s] either
    stops at an effect, and then [s] itself is the suspension, written
    afresh, or ends otherwise and leaves the heap alone. *)
Lemma evalFrames_reuse_heap :
  forall (fuel : nat) (s : ptr) x current frame hp o hp',
    load s hp = Some x ->
    evalFrames (stepProcessor (Some s)) fuel current frame hp = Some (o, hp') ->
    (o = Ok (StepSuspended s) /\
     exists y, used y = 0 /\ hp' = store s y hp) \/
    (hp' = hp /\ forall l, o <> Ok (StepSuspended l)).
Proof.
  induction fuel as [|fuel IH]; intros s x current frame hp o hp' Hl He;
    [discriminate|].
  simpl in He.
  destruct frame as [|F fNext pooled|F fNext|sv sf fNext pooled
                    |eo resume fNext pooled|cfirst crest cpooled|[unwind|]].
  - inversion He; subst. right. split; [reflexivity|]. intros l Hc. discriminate.
  - destruct (applyBind F current) as [[nv nf]|msg].
    + eapply IH; eassumption.
    + inversion He; subst. right. split; [reflexivity|]. intros l Hc. discriminate.
  - destruct (F current) as [v|msg].
    + eapply IH; eassumption.
    + inversion He; subst. right. split; [reflexivity|]. intros l Hc. discriminate.
  - eapply IH; eassumption.
  - rewrite Hl in He. inversion He; subst. left. split; [reflexivity|].
    eexists. split; [|reflexivity]. reflexivity.
  - destruct cfirst as [|F fNext pooled|F fNext|sv sf fNext pooled
                       |eo resume fNext pooled|nfirst nrest npooled|[unwind|]].
    + eapply IH; eassumption.
    + destruct (applyBind F current) as [[nv nf]|msg].
      * eapply IH; eassumption.
      * inversion He; subst. right. split; [reflexivity|]. intros l Hc. discriminate.
    + destruct (F current) as [v|msg].
      * eapply IH; eassumption.
      * inversion He; subst. right. split; [reflexivity|]. intros l Hc. discriminate.
    + eapply IH; eassumption.
    + rewrite Hl in He. inversion He; subst. left. split; [reflexivity|].
      eexists. split; [|reflexivity]. reflexivity.
    + eapply IH; eassumption.
    + destruct (unwind current) as [[v next]|msg].
      * eapply IH; eassumption.
      * inversion He; subst. right. split; [reflexivity|]. intros l Hc. discriminate.
    + inversion He; subst. right. split; [reflexivity|]. intros l Hc. discriminate.
  - destruct (unwind current) as [[v next]|msg].
    + eapply IH; eassumption.
    + inversion He; subst. right. split; [reflexivity|]. intros l Hc. discriminate.
  - inversion He; subst. right. split; [reflexivity|]. intros l Hc. discriminate.
Qed.

(** After [advance], a suspension that is not handed back as the next
    one is still the object it was. *)
Lemma advance_heap :
  forall (fuel : nat) (s : ptr) x0 x (v : dynval Val) hp r hp',
    load s hp = Some x ->
    advance (A := A) fuel s x0 v hp = Some (r, hp') ->
    (forall a, r <> Ok (a, Some s)) ->
    load s hp' = Some x.
Proof.
  intros fuel s x0 x v hp r hp' Hl Ha Hne.
  unfold advance in Ha.
  destruct (cont x0) as [c|].
  - destruct (suspResume c v) as [res|msg].
    + inversion Ha as [Hc].
      destruct (classifyResumed_heap res hp s Hc Hl) as [Hl' _]. exact Hl'.
    + inversion Ha; subst. exact Hl.
  - destruct (ef x0) as [f|]; [|inversion Ha; subst; exact Hl].
    destruct (efResume f (Plain v)) as [current|msg];
      [|inversion Ha; subst; exact Hl].
    destruct (rest x0) as [frest|]; [|inversion Ha; subst; exact Hl].
    destruct (evalFrames (stepProcessor (Some s)) fuel current frest hp)
      as [[o hp1]|] eqn:He; [|discriminate].
    destruct (@evalFrames_reuse_heap fuel s x current frest hp o hp1 Hl He)
      as [[Ho _]|[Hh _]].
    + subst o. simpl in Ha. inversion Ha; subst.
      exfalso. apply (Hne zero). reflexivity.
    + subst hp1. destruct o; inversion Ha; subst; exact Hl.
Qed.

Lemma Resume_fresh :
  forall (fuel : nat) (s : ptr) x (v : dynval Val) hp,
    load s hp = Some x -> used x = 0 ->
    Resume (A := A) fuel s v hp
      = advance fuel s x v (store s (setUsed 1 x) hp).
Proof.
  intros fuel s x v hp Hl Hu. unfold Resume. rewrite Hl, Hu. reflexivity.
Qed.

Lemma TryResume_fresh :
  forall (fuel : nat) (s : ptr) x (v : dynval Val) hp,
    load s hp = Some x -> used x = 0 ->
    TryResume (A := A) fuel s v hp
      = match advance fuel s x v (store s (setUsed 1 x) hp) with
        | None => None
        | Some (Panic msg, hp2) => Some (Panic msg, hp2)
        | Some (Ok (a, next), hp2) => Some (Ok (a, next, true), hp2)
        end.
Proof.
  intros fuel s x v hp Hl Hu. unfold TryResume. rewrite Hl, Hu. reflexivity.
Qed.

Lemma advance_cont :
  forall (fuel : nat) (s : ptr) x (v : dynval Val) hp c,
    cont x = Some c ->
    advance (A := A) fuel s x v hp
      = Some (match suspResume c v with
              | Panic msg => (Panic msg, hp)
              | Ok res => classifyResumed res hp
              end).
Proof.
  intros fuel s x v hp c Hc. unfold advance. rewrite Hc.
  destruct (suspResume c v); reflexivity.
Qed.

(** On the frame path, the suspension [advance] returns is the receiver
    itself, written afresh. *)
Lemma advance_reuse :
  forall (fuel : nat) (s : ptr) x0 x (v : dynval Val) hp a s' hp',
    load s hp = Some x ->
    cont x0 = None ->
    advance (A := A) fuel s x0 v hp = Some (Ok (a, Some s'), hp') ->
    s' = s /\ exists y, load s hp' = Some y /\ used y = 0.
Proof.
  intros fuel s x0 x v hp a s' hp' Hl Hc Ha.
  unfold advance in Ha. rewrite Hc in Ha.
  destruct (ef x0) as [f|]; [|discriminate].
  destruct (efResume f (Plain v)) as [current|msg]; [|discriminate].
  destruct (rest x0) as [frest|]; [|discriminate].
  destruct (evalFrames (stepProcessor (Some s)) fuel current frest hp)
    as [[o hp1]|] eqn:He; [|discriminate].
  destruct (@evalFrames_reuse_heap fuel s x current frest hp o hp1 Hl He)
    as [[Ho [y [Hy Hh]]]|[_ Hno]].
  - subst o. simpl in Ha. inversion Ha; subst. split; [reflexivity|].
    exists y. split; [|exact Hy]. eapply load_store_same; eassumption.
  - destruct o as [[l|current']|msg]; simpl in Ha.
    + exfalso. apply (Hno l). reflexivity.
    + destruct (assertErased current'); discriminate.
    + discriminate.
Qed.

End OneShot.

(** C3.  The one-shot law holds on the closure path and for [Affine],
    and fails on the frame path.  On the closure path, once a fresh
    suspension has been consumed by [Resume], a second [Resume] on it
    panics with the double-resume message and a second [TryResume]
    returns [(zero, nil, false)]; so it is for an [Affine] consumed by
    [Resume] or by [Discard].  On the frame
    path, a [Resume] that reaches the next effect resets the receiver
    ([stepProcessor.processEffect] stores 0 in [used]) and returns it as
    the next suspension: the object that the first [Resume] consumed
    passes the guard again, and a second [Resume] on it advances the
    computation.  On the program "s := Get; Put(s+10); Get" the same
    three calls end in the double-resume panic on the closure path and
    reach the third operation on the frame path. *)
Theorem frame_path_suspension_resumes_twice :
  (forall (Val Operation A : Type) (GA : GoType Val A)
          (fuel fuel' : nat) (s : ptr) (x : Suspension Val Operation) c
          (v v' : dynval Val) (hp : heap Val Operation) r hp1,
      load s hp = Some x -> used x = 0 -> cont x = Some c ->
      Resume (A := A) fuel s v hp = Some (r, hp1) ->
      (exists hp2,
          Resume (A := A) fuel' s v' hp1 = Some (Panic resumed_twice, hp2)) /\
      (exists hp2,
          TryResume (A := A) fuel' s v' hp1
            = Some (Ok (zero, None, false), hp2))) /\
  (forall (R B : Type) (zeroR : R) (k : B -> result R) (w w' : B),
      let consumed := snd (AffineResume (Once k) w) in
      let discarded := AffineDiscard (Once k) in
      fst (AffineResume consumed w') = Panic affine_resumed_twice /\
      fst (AffineTryResume zeroR consumed w') = Ok (zeroR, false) /\
      fst (AffineResume discarded w') = Panic affine_resumed_twice /\
      fst (AffineTryResume zeroR discarded w') = Ok (zeroR, false)) /\
  (forall (Val Operation A : Type) (GA : GoType Val A)
          (fuel : nat) (s : ptr) (x : Suspension Val Operation)
          (v : dynval Val) (hp : heap Val Operation) a s' hp1,
      load s hp = Some x -> used x = 0 -> cont x = None ->
      Resume (A := A) fuel s v hp = Some (Ok (a, Some s'), hp1) ->
      s' = s /\
      exists y, load s hp1 = Some y /\ used y = 0 /\
                forall (fuel' : nat) (v' : dynval Val),
                  Resume (A := A) fuel' s v' hp1
                    = advance fuel' s y v' (store s (setUsed 1 y) hp1)) /\
  (exists hp1 hp2 hp3,
      Step get_put_get [] = (Ok (0, Some 0%nat), hp1) /\
      Resume (A := Z) 0 0%nat (dbox (GInt 5)) hp1
        = Some (Ok (0, Some 1%nat), hp2) /\
      Resume (A := Z) 0 0%nat (dbox GUnit) hp2
        = Some (Panic resumed_twice, hp3)) /\
  (exists hp1 hp2 hp3,
      StepExpr 2 get_put_get_expr [] = Some (Ok (0, Some 0%nat), hp1) /\
      Resume (A := Z) 3 0%nat (dbox (GInt 5)) hp1
        = Some (Ok (0, Some 0%nat), hp2) /\
      SuspensionOp 0%nat hp2 = Ok (Put 15) /\
      Resume (A := Z) 3 0%nat (dbox GUnit) hp2
        = Some (Ok (0, Some 0%nat), hp3) /\
      SuspensionOp 0%nat hp3 = Ok Get).
Proof.
  split.
  { intros Val Operation A GA fuel fuel' s x c v v' hp r hp1 Hl Hu Hc Hr.
    assert (Hl0 : load s (store s (setUsed 1 x) hp) = Some (setUsed 1 x))
      by (eapply load_store_same; eassumption).
    rewrite (Resume_fresh fuel s v hp Hl Hu) in Hr.
    assert (Hne : forall a, r <> Ok (a, Some s)).
    { rewrite (advance_cont fuel s x v _ Hc) in Hr.
      destruct (suspResume c v) as [res|msg].
      - inversion Hr as [Hc'].
        destruct (classifyResumed_heap res _ s Hc' Hl0) as [_ Hne]. exact Hne.
      - inversion Hr; subst. intros a Ha. discriminate. }
    assert (Hl1 : load s hp1 = Some (setUsed 1 x))
      by (eapply advance_heap; [exact Hl0|exact Hr|exact Hne]).
    unfold Resume, TryResume. rewrite Hl1.
    change (used (setUsed 1 x)) with 1.
    split; eexists; reflexivity. }
  split.
  { intros R B zeroR k w w' consumed discarded. repeat split. }
  split.
  { intros Val Operation A GA fuel s x v hp a s' hp1 Hl Hu Hc Hr.
    assert (Hl0 : load s (store s (setUsed 1 x) hp) = Some (setUsed 1 x))
      by (eapply load_store_same; eassumption).
    rewrite (Resume_fresh fuel s v hp Hl Hu) in Hr.
    assert (Hre : s' = s /\ exists y, load s hp1 = Some y /\ used y = 0)
      by (eapply advance_reuse; [exact Hl0|exact Hc|exact Hr]).
    destruct Hre as [Hs [y [Hy Hu']]].
    split; [exact Hs|]. exists y. split; [exact Hy|]. split; [exact Hu'|].
    intros fuel' v'. apply Resume_fresh; assumption. }
  split.
  { do 3 eexists. repeat split; reflexivity. }
  do 3 eexists. repeat split; reflexivity.
Qed.

(** ** The State+Error runner *)

Section StateErrorFacts.
Variables Val S E B CatchBody : Type.
Context {GS : GoType Val S} {GE : GoType Val E} {GB : GoType Val B}.
Context {GU : GoType Val unit}.
Context {GEB : GoType Val (Either E B)}.
Variable runBody : CatchBody -> result (Either E B).
Variable A : Type.
Context {GA : GoType Val A} {GEA : GoType Val (Either E A)}.

(** [Either[E, A]] is a struct type: converted to an interface it is
    never nil. *)
Hypothesis Either_not_nil : forall x : Either E A, box x <> dnil.

Lemma handleDispatch_throws :
  forall (res : Resumed Val (Op S E CatchBody)) (s : S) (e : E) (s' : S)
         (ctx : ErrorContext E),
    HasErr ctx = false ->
    throws_at runBody res s e s' ->
    handleDispatch (stateErrorHandler (A := A) runBody) res (s, ctx)
      = Ok (Left e, (s', mkErrorContext e true)).
Proof.
  intros res s e s' ctx Hctx Ht. induction Ht as
    [e resume s
    |resume next s e s' Hr _ IH
    |v resume next s e s' Hr _ IH
    |f resume next s e s' Hr _ IH
    |body handler bodyResult resume next s e s' Hb Hright Hr _ IH
    |body handler bodyResult handlerResult resume next s e s'
       Hb Hleft Hh Hright Hr _ IH
    |body handler bodyResult handlerResult resume s Hb Hleft Hh Hleft'];
    simpl.
  - rewrite (assert_box (Left e) (Either_not_nil _)). reflexivity.
  - rewrite Hr. exact IH.
  - rewrite Hr. exact IH.
  - rewrite Hr. exact IH.
  - rewrite Hb. unfold IsLeft, GetRight. rewrite Hright. simpl.
    rewrite Hctx, Hr. exact IH.
  - rewrite Hb. unfold IsLeft, GetLeft, GetRight. rewrite Hleft. simpl.
    rewrite Hh, Hright. simpl. rewrite Hctx, Hr. exact IH.
  - rewrite Hb. unfold IsLeft, GetLeft. rewrite Hleft. simpl.
    rewrite Hh, Hleft'. simpl.
    rewrite (assert_box (Left (left handlerResult)) (Either_not_nil _)).
    reflexivity.
Qed.

End StateErrorFacts.

(** C6. When the computation raises [Throw(e)], [RunStateError] returns
    [Left(e)] together with the state as it stood at the throw: the
    [Put]s and [Modify]s performed before it are in the returned state,
    and the [Throw] does not change it.  Nor does a [Catch] performed
    before it, whether its body returns or its handler recovers; and
    when the handler of a [Catch] throws, that error is raised with the
    state as it stood at the [Catch]. *)
Theorem RunStateError_throw :
  forall (Val S E B CatchBody : Type)
         (GS : GoType Val S) (GE : GoType Val E) (GB : GoType Val B)
         (GU : GoType Val unit) (GEB : GoType Val (Either E B))
         (runBody : CatchBody -> result (Either E B))
         (A : Type) (GA : GoType Val A) (GEA : GoType Val (Either E A))
         (initial : S) (m : Eff Val (Op S E CatchBody) A)
         (res : Resumed Val (Op S E CatchBody)) (e : E) (s' : S),
    (forall x : Either E A, box x <> dnil) ->
    m (rightCont (A := A)) = Ok res ->
    throws_at runBody res initial e s' ->
    RunStateError runBody initial m = Ok (Left e, s').
Proof.
  intros Val S E B CatchBody GS GE GB GU GEB runBody A GA GEA initial m res e s'
         Hstruct Hm Ht.
  unfold RunStateError. rewrite Hm.
  pose proof Ht as Hd.
  eapply handleDispatch_throws
    with (A := A) (ctx := mkErrorContext zero false) in Hd;
    [|exact Hstruct|reflexivity].
  destruct res as [x|o resume]; [inversion Ht|].
  rewrite Hd. reflexivity.
Qed.

Lemma RunStateError_throw_witness :
  (forall x : Either string Z, box x <> dnil) /\
  (exists res, put_modify_throw rightCont = Ok res /\
               throws_at runBody0 res 0 "boom" 100) /\
  (exists res, put_catch_throw rightCont = Ok res /\
               throws_at runBody1 res 0 "boom" 100) /\
  (exists res, put_catch_rethrow rightCont = Ok res /\
               throws_at runBody1 res 0 "inner!" 7) /\
  RunStateError runBody0 0 put_modify_throw = Ok (Left "boom", 100) /\
  RunStateError runBody1 0 put_catch_throw = Ok (Left "boom", 100) /\
  RunStateError runBody1 0 put_catch_rethrow = Ok (Left "inner!", 7).
Proof.
  assert (Hstruct : forall x : Either string Z, box x <> dnil)
    by (intros x; discriminate).
  assert (Ht0 : exists res, put_modify_throw rightCont = Ok res /\
                            throws_at runBody0 res 0 "boom" 100).
  { eexists. split; [reflexivity|].
    eapply throws_after_put; [reflexivity|].
    eapply throws_after_modify; [reflexivity|].
    apply throws_here. }
  assert (Ht : exists res, put_catch_throw rightCont = Ok res /\
                           throws_at runBody1 res 0 "boom" 100).
  { eexists. split; [reflexivity|].
    eapply throws_after_put; [reflexivity|].
    eapply throws_after_caught;
      [reflexivity|reflexivity|reflexivity|reflexivity|reflexivity|].
    eapply throws_after_modify; [reflexivity|].
    apply throws_here. }
  assert (Ht' : exists res, put_catch_rethrow rightCont = Ok res /\
                            throws_at runBody1 res 0 "inner!" 7).
  { eexists. split; [reflexivity|].
    eapply throws_after_put; [reflexivity|].
    eapply throws_in_catch
      with (bodyResult := mkEither false "inner" 0)
           (handlerResult := mkEither false "inner!" 0);
      reflexivity. }
  split; [exact Hstruct|]. split; [exact Ht0|].
  split; [exact Ht|]. split; [exact Ht'|].
  destruct Ht0 as [res0 [Hm0 Ht0]].
  destruct Ht as [res [Hm Ht]]. destruct Ht' as [res' [Hm' Ht']].
  split; [|split].
  - exact (@RunStateError_throw GoValue Z string Z Empty_set _ _ _ _ _ runBody0
             Z _ _ 0 put_modify_throw res0 "boom" 100 Hstruct Hm0 Ht0).
  - exact (@RunStateError_throw GoValue Z string Z _ _ _ _ _ _ runBody1
             Z _ _ 0 put_catch_throw res "boom" 100 Hstruct Hm Ht).
  - exact (@RunStateError_throw GoValue Z string Z _ _ _ _ _ _ runBody1
             Z _ _ 0 put_catch_rethrow res' "inner!" 7 Hstruct Hm' Ht').
Defined.

(** ** The body of a [Catch] *)

(** C10. The body of a [Catch] is run by the error-only handler of
    [RunError]: when the body, so run, comes to an operation that has no
    [DispatchError] (a [Get], a [Put], a [Modify], a foreign operation),
    [RunError] on the body panics with the unhandled-effect message of
    [ErrorHandler], and so does dispatching the [Catch], in the error
    handler and in the State+Error handler alike, and so does
    [RunStateError] on the computation that performs the [Catch]; yet
    the State+Error handler answers [Get], [Put] and [Modify] when they
    are performed outside the body. *)
Theorem Catch_body_error_only :
  forall (Val S E B Body0 : Type)
         (GS : GoType Val S) (GE : GoType Val E) (GB : GoType Val B)
         (GU : GoType Val unit) (GEB : GoType Val (Either E B))
         (runBody0 : Body0 -> result (Either E B))
         (body : Eff Val (Op S E Body0) B)
         (handler : E -> Eff Val (Op S E Body0) B)
         (res : Resumed Val (Op S E Body0)) (o : Op S E Body0)
         (resume : dynval Val -> result (Resumed Val (Op S E Body0)))
         (ctx' : ErrorContext E)
         (A : Type) (GA : GoType Val A) (GEA : GoType Val (Either E A))
         (st : S * ErrorContext E),
    body rightCont = Ok res ->
    turns (errorHandler runBody0 (A := B))
          (res, mkErrorContext zero false) (Marker o resume, ctx') ->
    DispatchError runBody0 o = None ->
    let unhandled := "kont: unhandled effect in ErrorHandler" in
    let runBody1 := RunError runBody0 (A := B) in
    RunError runBody0 body = Panic unhandled /\
    (exists eop, DispatchError runBody1 (Catch (S := S) body handler) = Some eop /\
                 forall ctx, eop ctx = Panic unhandled) /\
    (forall ctx, Dispatch (errorHandler runBody1 (A := A)) ctx (Catch (S := S) body handler)
                 = Panic unhandled) /\
    Dispatch (stateErrorHandler runBody1 (A := A)) st (Catch (S := S) body handler)
      = Panic unhandled /\
    RunStateError runBody1 (fst st) (CatchError (S := S) body handler) = Panic unhandled /\
    Dispatch (stateErrorHandler runBody1 (A := A)) st Get
      = Ok (box (fst st), true, st) /\
    (forall v, Dispatch (stateErrorHandler runBody1 (A := A)) st (Put v)
               = Ok (box tt, true, (v, snd st))) /\
    (forall f, Dispatch (stateErrorHandler runBody1 (A := A)) st (Modify f)
               = Ok (box (f (fst st)), true, (f (fst st), snd st))).
Proof.
  intros Val S E B Body0 GS GE GB GU GEB runBody0 body handler res o resume ctx'
         A GA GEA st Hm Hts Hno unhandled runBody1.
  assert (Hrun : RunError runBody0 body = Panic unhandled).
  { unfold RunError. rewrite Hm.
    pose proof (handleDispatch_turns GEB Hts) as Hd. simpl in Hd.
    rewrite Hno in Hd.
    destruct res as [x|o0 resume0].
    - inversion Hts as [|c1 c2 c3 Ht]. inversion Ht.
    - rewrite Hd. reflexivity. }
  split; [exact Hrun|].
  split.
  { eexists. split; [reflexivity|]. intros ctx. simpl.
    unfold runBody1. rewrite Hrun. reflexivity. }
  split.
  { intros ctx. simpl. unfold runBody1. rewrite Hrun. reflexivity. }
  split.
  { simpl. unfold runBody1. rewrite Hrun. reflexivity. }
  split.
  { unfold RunStateError, CatchError, Perform, effectMarker. simpl.
    unfold runBody1. rewrite Hrun. reflexivity. }
  destruct st as [s ctx]. repeat split.
Qed.

Lemma Catch_body_error_only_witness :
  let handler : string -> Eff GoValue Op0 Z := fun _ => Pure 0 in
  (exists res resume,
     body_get rightCont = Ok res /\
     turns (errorHandler runBody0 (A := Z))
           (res, mkErrorContext zero false)
           (Marker Get resume, mkErrorContext zero false)) /\
  DispatchError runBody0 (Get (S := Z) (E := string)) = None /\
  Dispatch (stateErrorHandler runBody1 (A := Z)) (5, mkErrorContext zero false)
           (Catch (S := Z) body_get handler)
    = Panic "kont: unhandled effect in ErrorHandler" /\
  Dispatch (stateErrorHandler runBody1 (A := Z)) (5, mkErrorContext zero false) Get
    = Ok (dbox (GInt 5), true, (5, mkErrorContext zero false)).
Proof.
  intros handler.
  assert (Hb : exists res resume,
             body_get rightCont = Ok res /\
             turns (errorHandler runBody0 (A := Z))
                   (res, mkErrorContext zero false)
                   (Marker Get resume, mkErrorContext zero false)).
  { do 2 eexists. split; [reflexivity|]. apply turns_refl. }
  assert (Hno : DispatchError runBody0 (Get (S := Z) (E := string)) = None)
    by reflexivity.
  split; [exact Hb|]. split; [exact Hno|].
  destruct Hb as [res [resume [Hm Hts]]].
  destruct (@Catch_body_error_only GoValue Z string Z Empty_set _ _ _ _ _
              runBody0 body_get handler res Get resume
              (mkErrorContext zero false) Z _ _
              (5, mkErrorContext zero false) Hm Hts Hno)
    as [_ [_ [_ [Hd [_ [Hg _]]]]]].
  split; [exact Hd|exact Hg].
Defined.

(** ** The three ways to run a computation *)

Section ThreeModes.
Variables Val Operation R H : Type.
Context {GR : GoType Val R}.
Variable h : Handler Val Operation H.

(** Induction on what a computation can still do: a suspension is
    larger than everything its [Resume] can return. *)
Lemma Resumed_induction :
  forall P : Resumed Val Operation -> Prop,
    (forall x, P (Plain x)) ->
    (forall o resume,
        (forall v next, resume v = Ok next -> P next) -> P (Marker o resume)) ->
    forall r, P r.
Proof.
  intros P HP HM. fix IH 1. intros [x|o resume].
  - apply HP.
  - apply HM. intros v next. destruct (resume v) as [r'|msg]; intros Hr.
    + assert (He : r' = next) by congruence.
      rewrite <- He. apply IH.
    + discriminate.
Qed.

Lemma chainFromPool_return_right :
  forall f : Frame Val Operation, chainFromPool f ReturnFrame = f.
Proof. intros f; destruct f; reflexivity. Qed.

Lemma evalFrames_effect :
  forall (St T : Type) (p : frameProcessor Val Operation St T) fuel current
         o resume fNext pooled st,
    evalFrames p (S fuel) current (EffectFrame o resume fNext pooled) st
    = match processEffect p (mkEffectFrame o resume fNext pooled) fNext st with
      | (Panic msg, st') => Some (Panic msg, st')
      | (Ok (Exit r), st') => Some (Ok r, st')
      | (Ok (Continue newCurrent newFrame), st') =>
          evalFrames p fuel newCurrent newFrame st'
      end.
Proof. reflexivity. Qed.

Lemma evalFrames_bind :
  forall (St T : Type) (p : frameProcessor Val Operation St T) fuel current
         F fNext pooled st,
    evalFrames p (S fuel) current (BindFrame F fNext pooled) st
    = match applyBind F current with
      | Panic msg => Some (Panic msg, st)
      | Ok (nextValue, nextFrame) =>
          evalFrames p fuel nextValue (chainFromPool nextFrame fNext) st
      end.
Proof. reflexivity. Qed.

Lemma evalFrames_return :
  forall (St T : Type) (p : frameProcessor Val Operation St T) fuel current st,
    evalFrames p (S fuel) current ReturnFrame st
    = Some (processReturn p current st).
Proof. reflexivity. Qed.

(** [HandleExpr] on the frames built by [fromResumed]. *)
Lemma HandleExpr_fromResumed :
  box (zero (T := R)) <> dnil ->
  forall (r : Resumed Val Operation) (st : H),
  exists n : nat, forall fuel : nat, (n <= fuel)%nat ->
    match fromResumed (A := R) r with
    | Panic msg => handleDispatch h r st = Panic msg
    | Ok e => HandleExpr fuel e h st = Some (handleDispatch h r st)
    end.
Proof.
  intros Hz r. induction r as [x|o resume IH] using Resumed_induction; intros st.
  - exists 1%nat. intros [|fuel] Hf; [lia|].
    destruct x as [|v]; simpl.
    + unfold HandleExpr. simpl. rewrite (assert_box _ Hz). reflexivity.
    + destruct (assert (dbox v)) as [a|msg] eqn:Ha; [|reflexivity].
      unfold HandleExpr. simpl.
      rewrite (box_assert _ Ha), Ha. reflexivity.
  - cbn [fromResumed]. unfold HandleExpr. cbn [Value ExprFrame].
    destruct (Dispatch h st o) as [[[v shouldResume] st']|msg] eqn:Hd.
    + destruct shouldResume.
      * destruct (resume v) as [next|msg] eqn:Hr.
        -- assert (Hh : handleDispatch h (Marker o resume) st
                        = handleDispatch h next st')
             by (simpl; rewrite Hd, Hr; reflexivity).
           destruct (IH v next Hr st') as [n Hn].
           exists (S (S n)). intros [|[|fuel]] Hf; try lia.
           specialize (Hn fuel ltac:(lia)).
           rewrite Hh, evalFrames_effect.
           cbn [processEffect handlerProcessor efOperation efResume].
           rewrite Hd. cbn [reifyResume]. rewrite Hr.
           rewrite evalFrames_bind. cbn [applyBind].
           destruct (fromResumed next) as [e|msg].
           ++ rewrite chainFromPool_return_right. exact Hn.
           ++ rewrite Hn. reflexivity.
        -- exists 1%nat. intros [|fuel] Hf; [lia|].
           simpl. rewrite Hd. simpl. rewrite Hr. reflexivity.
      * exists 1%nat. intros [|fuel] Hf; [lia|].
        simpl. rewrite Hd.
        destruct (assert v); reflexivity.
    + exists 1%nat. intros [|fuel] Hf; [lia|].
      simpl. rewrite Hd. reflexivity.
Qed.

(** The driver on what [classifyResumed] returns. *)
Lemma driveLoop_classifyResumed :
  forall (r : Resumed Val Operation) (st : H) (hp : heap Val Operation),
  exists n : nat, forall fuel : nat, (n <= fuel)%nat ->
    match classifyResumed (A := R) r hp with
    | (Panic msg, _) => handleDispatch h r st = Panic msg
    | (Ok cur, hp1) =>
        exists hp', driveLoop h fuel cur st hp1
                    = Some (handleDispatch h r st, hp')
    end.
Proof.
  intros r. induction r as [x|o resume IH] using Resumed_induction;
    intros st hp.
  - exists 1%nat. intros [|fuel] Hf; [lia|].
    destruct x as [|v]; unfold classifyResumed; simpl.
    + eexists. reflexivity.
    + destruct (assert (dbox v)) as [a|msg]; [|reflexivity].
      eexists. reflexivity.
  - set (x0 := mkSusp 0 o (Some (mkSuspension o resume)) None None).
    assert (Hc : classifyResumed (A := R) (Marker o resume) hp
                 = (Ok (zero, Some (fst (alloc x0 hp))), snd (alloc x0 hp)))
      by reflexivity.
    rewrite Hc. clear Hc.
    set (l := fst (alloc x0 hp)). set (hp1 := snd (alloc x0 hp)).
    assert (Hl : load l hp1 = Some x0) by apply load_alloc_new.
    destruct (Dispatch h st o) as [[[v shouldResume] st']|msg] eqn:Hd.
    + destruct shouldResume.
      * assert (Hres : forall fuel,
                   Resume (A := R) fuel l v hp1
                   = advance fuel l x0 v (store l (setUsed 1 x0) hp1))
          by (intros fuel; apply Resume_fresh; [exact Hl|reflexivity]).
        destruct (resume v) as [next|msg] eqn:Hr.
        -- destruct (IH v next Hr st' (store l (setUsed 1 x0) hp1)) as [n Hn].
           exists (S n). intros [|fuel] Hf; [lia|].
           specialize (Hn fuel ltac:(lia)).
           simpl driveLoop. unfold SuspensionOp. rewrite Hl. cbn [op x0].
           rewrite Hd, Hres.
           rewrite (advance_cont (A := R) fuel l x0 v _ (c := mkSuspension o resume))
             by reflexivity.
           cbn [suspResume]. rewrite Hr.
           simpl handleDispatch. rewrite Hd, Hr.
           destruct (classifyResumed next (store l (setUsed 1 x0) hp1))
             as [[cur|msg] hp2].
           ++ exact Hn.
           ++ rewrite Hn. eexists. reflexivity.
        -- exists 1%nat. intros [|fuel] Hf; [lia|].
           simpl driveLoop. unfold SuspensionOp. rewrite Hl. cbn [op x0].
           rewrite Hd, Hres.
           rewrite (advance_cont (A := R) fuel l x0 v _ (c := mkSuspension o resume))
             by reflexivity.
           cbn [suspResume]. rewrite Hr.
           simpl handleDispatch. rewrite Hd, Hr.
           eexists. reflexivity.
      * exists 1%nat. intros [|fuel] Hf; [lia|].
        simpl driveLoop. unfold SuspensionOp. rewrite Hl. cbn [op x0].
        rewrite Hd. simpl handleDispatch. rewrite Hd.
        destruct (assert v); eexists; reflexivity.
    + exists 1%nat. intros [|fuel] Hf; [lia|].
      simpl driveLoop. unfold SuspensionOp. rewrite Hl. cbn [op x0].
      rewrite Hd. simpl handleDispatch. rewrite Hd.
      eexists. reflexivity.
Qed.

(** [Handle] and driving through [Step] agree, for every answer
    type. *)
Lemma Handle_driveSteps :
  forall (m : Eff Val Operation R) (st : H) (hp : heap Val Operation),
  exists n : nat, forall fuel : nat, (n <= fuel)%nat ->
    option_map fst (driveSteps h fuel m st hp) = Some (Handle h m st).
Proof.
  intros m st hp. unfold driveSteps, Step, Handle.
  destruct (m toResumed) as [r|msg].
  - destruct (driveLoop_classifyResumed r st hp) as [n Hn].
    exists n. intros fuel Hf. specialize (Hn fuel Hf).
    destruct (classifyResumed r hp) as [[cur|msg] hp1].
    + destruct Hn as [hp' Hn]. rewrite Hn. reflexivity.
    + rewrite Hn. reflexivity.
  - exists 0%nat. intros fuel _. reflexivity.
Qed.

(** [Handle] and [HandleExpr] after [Reify] agree when the zero value
    of the answer type does not convert to the nil interface. *)
Lemma Handle_HandleExprReify :
  box (zero (T := R)) <> dnil ->
  forall (m : Eff Val Operation R) (st : H),
  exists n : nat, forall fuel : nat, (n <= fuel)%nat ->
    HandleExprReify fuel m h st = Some (Handle h m st).
Proof.
  intros Hz m st. unfold HandleExprReify, Reify, Handle.
  destruct (m toResumed) as [r|msg].
  - destruct (HandleExpr_fromResumed Hz r st) as [n Hn].
    exists n. intros fuel Hf. specialize (Hn fuel Hf).
    destruct (fromResumed r) as [e|msg].
    + exact Hn.
    + rewrite Hn. reflexivity.
  - exists 0%nat. intros fuel _. reflexivity.
Qed.

End ThreeModes.

(** X1. The three modes agree on the outcome (value and handler, or
    panic) and on the sequence of operations handed to the handler, when
    the zero value of the answer type does not convert to the nil
    interface, that is, when the answer type is not an interface
    type. *)
Lemma three_modes_agree :
  forall (Val Operation R H : Type) (GR : GoType Val R)
         (h : Handler Val Operation H) (m : Eff Val Operation R)
         (st : H) (hp : heap Val Operation),
    box (zero (T := R)) <> dnil ->
    exists n : nat, forall fuel : nat, (n <= fuel)%nat ->
      HandleExprReify fuel m h st = Some (Handle h m st) /\
      option_map fst (driveSteps h fuel m st hp) = Some (Handle h m st) /\
      HandleExprReify fuel m (traced h) (st, [])
        = Some (Handle (traced h) m (st, [])) /\
      option_map fst (driveSteps (traced h) fuel m (st, []) hp)
        = Some (Handle (traced h) m (st, [])).
Proof.
  intros Val Operation R H GR h m st hp Hz.
  destruct (Handle_HandleExprReify h Hz m st) as [n1 H1].
  destruct (Handle_driveSteps h m st hp) as [n2 H2].
  destruct (Handle_HandleExprReify (traced h) Hz m (st, [])) as [n3 H3].
  destruct (Handle_driveSteps (traced h) m (st, []) hp) as [n4 H4].
  exists (n1 + n2 + n3 + n4)%nat. intros fuel Hf.
  repeat split; [apply H1|apply H2|apply H3|apply H4]; lia.
Qed.

Lemma three_modes_agree_witness :
  box (zero (T := Z)) <> dnil /\
  Handle (traced stateHandler0)
         get_put_get (5, [])
    = Ok (15, (15, [Get; Put 15; Get])) /\
  exists n : nat, forall fuel : nat, (n <= fuel)%nat ->
    HandleExprReify fuel get_put_get (traced stateHandler0) (5, [])
      = Some (Ok (15, (15, [Get; Put 15; Get]))) /\
    option_map fst (driveSteps (traced stateHandler0) fuel get_put_get (5, []) [])
      = Some (Ok (15, (15, [Get; Put 15; Get]))).
Proof.
  assert (Hz : box (zero (T := Z)) <> dnil) by discriminate.
  split; [exact Hz|]. split; [reflexivity|].
  destruct (@three_modes_agree GoValue Op0 Z _ _
              (traced stateHandler0) get_put_get (5, []) [] Hz)
    as [n Hn].
  exists n. intros fuel Hf.
  destruct (Hn fuel Hf) as [H1 [H2 _]].
  split; [exact H1|exact H2].
Defined.

(** C1 at an answer type that is an interface.  For [Pure[any](nil)]
    and any handler, [Handle] returns the zero value (nil), and so does
    driving through [Step]; [HandleExpr] after [Reify] panics: [Reify]
    turns the nil result into the zero value, and [processReturn]
    asserts it to the answer type without the nil check that
    [handleDispatch] makes. *)
Theorem modes_differ_on_nil_interface :
  forall (H : Type) (h : Handler GoValue Op0 H) (st : H) (fuel : nat),
    Handle (GR := GoType_any) h pure_nil st = Ok (dnil, st) /\
    option_map fst (driveSteps (GR := GoType_any) h (S fuel) pure_nil st [])
      = Some (Ok (dnil, st)) /\
    HandleExprReify (GR := GoType_any) (S fuel) pure_nil h st
      = Some (Panic "interface conversion").
Proof.
  intros H h st fuel. repeat split.
Qed.

(* ================================================================== *)
(** * The frame form: what [evalFrames] computes *)

Arguments ExprReturn {Val Operation A} a.

Section FrameSemantics.
Variables Val Operation R H : Type.
Context {GR : GoType Val R}.
Variable h : Handler Val Operation H.

Implicit Types (c : Erased Val Operation) (st : H).
Implicit Types (frame K a b : Frame Val Operation).
Implicit Types (o : flow Val Operation R H).

(** Induction on a frame: a frame is larger than the frames it holds
    and than the frames its closures return. *)
Lemma Frame_induction :
  forall P : Frame Val Operation -> Prop,
    P ReturnFrame ->
    (forall f fNext pooled,
        (forall c v fr, f c = Ok (v, fr) -> P fr) -> P fNext ->
        P (BindFrame (Closure f) fNext pooled)) ->
    (forall A (GA : GoType Val A) fNext pooled,
        P fNext -> P (BindFrame (reifyNext Operation GA) fNext pooled)) ->
    (forall F fNext, P fNext -> P (MapFrame F fNext)) ->
    (forall sv sf fNext pooled,
        P sf -> P fNext -> P (ThenFrame sv sf fNext pooled)) ->
    (forall op0 resume fNext pooled,
        P fNext -> P (EffectFrame op0 resume fNext pooled)) ->
    (forall a b pooled, P a -> P b -> P (chainedFrame a b pooled)) ->
    (forall unwind,
        (forall c v fr, unwind c = Ok (v, fr) -> P fr) ->
        P (UserFrame (Some unwind))) ->
    P (UserFrame None) ->
    forall frame, P frame.
Proof.
  intros P HR HB HRe HM HT HE HC HU HN. fix IH 1.
  intros [|F fNext pooled|F fNext|sv sf fNext pooled|op0 resume fNext pooled
          |a b pooled|[unwind|]].
  - exact HR.
  - destruct F as [f|A GA].
    + apply HB; [|apply IH].
      intros c v fr. destruct (f c) as [[v' fr']|msg]; intros Hf.
      * assert (He : fr' = fr) by congruence. rewrite <- He. apply IH.
      * discriminate.
    + apply HRe. apply IH.
  - apply HM. apply IH.
  - apply HT; apply IH.
  - apply HE. apply IH.
  - apply HC; apply IH.
  - apply HU. intros c v fr. destruct (unwind c) as [[v' fr']|msg]; intros Hf.
    + assert (He : fr' = fr) by congruence. rewrite <- He. apply IH.
    + discriminate.
  - exact HN.
Qed.

Lemma Frame_eq_ReturnFrame_dec :
  forall frame, {frame = ReturnFrame} + {frame <> ReturnFrame}.
Proof. intros []; first [left; reflexivity | right; discriminate]. Qed.

Lemma andThen_Next :
  forall o, andThen o (fun c st => Next c st) = o.
Proof. intros [c st|r st]; reflexivity. Qed.

Lemma andThen_Return :
  forall o, andThen o (denote h ReturnFrame) = o.
Proof. intros [c st|r st]; reflexivity. Qed.

Lemma denote_ReturnFrame :
  forall c st, denote (R := R) h ReturnFrame c st = Next c st.
Proof. reflexivity. Qed.

Lemma andThen_assoc :
  forall o f g,
    andThen (andThen o f) g = andThen o (fun c st => andThen (f c st) g).
Proof. intros [c st|r st] f g; reflexivity. Qed.

Lemma andThen_ext :
  forall o f g,
    (forall c st, f c st = g c st) -> andThen o f = andThen o g.
Proof. intros [c st|r st] f g Hfg; simpl; [apply Hfg|reflexivity]. Qed.

(** ** Steps of the loop *)

Lemma reaches_refl :
  forall c K st, reaches h c K st (Next c st) K.
Proof. intros c K st. exists 0%nat. intros fuel out Hc. exact Hc. Qed.

Lemma reaches_stop :
  forall c frame st r st' K,
    (forall fuel,
        evalFrames (handlerProcessor h) (S fuel) c frame st = Some (r, st')) ->
    reaches h c frame st (Stop r st') K.
Proof.
  intros c frame st r st' K Hs. exists 1%nat. intros fuel out Hc.
  simpl in Hc. subst out. apply Hs.
Qed.

Lemma reaches_step :
  forall c frame st c' frame' st' o K,
    (forall fuel,
        evalFrames (handlerProcessor h) (S fuel) c frame st
        = evalFrames (handlerProcessor h) fuel c' frame' st') ->
    reaches h c' frame' st' o K ->
    reaches h c frame st o K.
Proof.
  intros c frame st c' frame' st' o K Hs [n Hn]. exists (S n).
  intros fuel out Hc. change (S n + fuel)%nat with (S (n + fuel)).
  rewrite Hs. apply Hn. exact Hc.
Qed.

Lemma reaches_seq :
  forall c frame st o1 K1 o2 K2,
    reaches h c frame st o1 K1 ->
    (forall c' st', o1 = Next c' st' -> reaches h c' K1 st' o2 K2) ->
    (forall r st', o1 = Stop r st' -> o2 = Stop r st') ->
    reaches h c frame st o2 K2.
Proof.
  intros c frame st o1 K1 o2 K2 [n1 Hn1] Hnext Hstop.
  destruct o1 as [c' st'|r st'].
  - destruct (Hnext c' st' eq_refl) as [n2 Hn2].
    exists (n1 + n2)%nat. intros fuel out Hc.
    rewrite <- Nat.add_assoc. apply Hn1. simpl. apply Hn2. exact Hc.
  - rewrite (Hstop r st' eq_refl). exists n1. intros fuel out Hc.
    apply Hn1. exact Hc.
Qed.

(** A chain made by [chainFromPool] runs its first frame, then the
    second. *)
Lemma sound_chain :
  forall frame, sound h frame ->
  forall c st K, reaches h c (chainFromPool frame K) st (denote h frame c st) K.
Proof.
  intros frame [HQ HD] c st K.
  destruct frame; try (destruct K; first [apply HD | apply HQ]).
  apply reaches_refl.
Qed.

Lemma sound_seq :
  forall a b, sound h a -> sound h b ->
  forall c st K,
    reaches h c (chainFromPool a (chainFromPool b K)) st
      (andThen (denote h a c st) (denote h b)) K.
Proof.
  intros a b Ha Hb c st K.
  apply reaches_seq with (o1 := denote h a c st) (K1 := chainFromPool b K).
  - apply sound_chain. exact Ha.
  - intros c' st' He. rewrite He. simpl. apply sound_chain. exact Hb.
  - intros r st' He. rewrite He. reflexivity.
Qed.

(** The rotation of a nested chain takes one pass of the loop. *)
Lemma chain_rotate :
  forall a b K,
    chainFromPool (chainFromPool a b) K = chainFromPool a (chainFromPool b K) \/
    forall c st fuel,
      evalFrames (handlerProcessor h) (S fuel) c
        (chainFromPool (chainFromPool a b) K) st
      = evalFrames (handlerProcessor h) fuel c
          (chainFromPool a (chainFromPool b K)) st.
Proof.
  intros a b K.
  destruct a; try (left; reflexivity);
    destruct b; try (left; reflexivity);
    destruct K; try (left; reflexivity);
    right; reflexivity.
Qed.

Lemma sound_chain2 :
  forall a b, sound h a -> sound h b ->
  forall c st K,
    reaches h c (chainFromPool (chainFromPool a b) K) st
      (andThen (denote h a c st) (denote h b)) K.
Proof.
  intros a b Ha Hb c st K.
  destruct (chain_rotate a b K) as [He|Hs].
  - rewrite He. apply sound_seq; assumption.
  - eapply reaches_step; [intros fuel; apply Hs|].
    apply sound_seq; assumption.
Qed.

(** ** Every frame runs as [denote] says *)

Lemma sound_return : sound h ReturnFrame.
Proof.
  split.
  - intros c st K p. eapply reaches_step; [intros fuel; reflexivity|].
    apply reaches_refl.
  - intros c st. apply reaches_refl.
Qed.

Lemma sound_map :
  forall F fNext, sound h fNext -> sound h (MapFrame F fNext).
Proof.
  intros F fNext Hn. split.
  - intros c st K p. cbn [denote]. destruct (F c) as [v|msg] eqn:HF.
    + eapply reaches_step;
        [intros fuel; cbn [evalFrames]; rewrite HF; reflexivity|].
      apply sound_chain. exact Hn.
    + apply reaches_stop. intros fuel. cbn [evalFrames]. rewrite HF.
      reflexivity.
  - intros c st. cbn [denote]. destruct (F c) as [v|msg] eqn:HF.
    + eapply reaches_step;
        [intros fuel; cbn [evalFrames]; rewrite HF; reflexivity|].
      apply Hn.
    + apply reaches_stop. intros fuel. cbn [evalFrames]. rewrite HF.
      reflexivity.
Qed.

Lemma sound_then :
  forall sv sf fNext pooled,
    sound h sf -> sound h fNext -> sound h (ThenFrame sv sf fNext pooled).
Proof.
  intros sv sf fNext pooled Hs Hn. split.
  - intros c st K p. cbn [denote].
    eapply reaches_step; [intros fuel; cbn [evalFrames]; reflexivity|].
    apply sound_chain2; assumption.
  - intros c st. cbn [denote].
    eapply reaches_step; [intros fuel; cbn [evalFrames]; reflexivity|].
    rewrite <- (chainFromPool_return_right (chainFromPool sf fNext)).
    apply sound_chain2; assumption.
Qed.

(** What [processEffect] of the handler's processor returns, through
    [dispatchEffect]. *)
Lemma processEffect_dispatchEffect :
  forall f rest st,
    processEffect (handlerProcessor h) f rest st
    = match dispatchEffect h (efOperation f) (efResume f) st with
      | Next resumed st' => (Ok (Continue resumed rest), st')
      | Stop (Ok r) st' => (Ok (Exit r), st')
      | Stop (Panic msg) st' => (Panic msg, st')
      end.
Proof.
  intros f rest st. unfold dispatchEffect. cbn [processEffect handlerProcessor].
  destruct (Dispatch h st (efOperation f)) as [[[v shouldResume] st']|msg];
    [|reflexivity].
  destruct shouldResume.
  - destruct (efResume f (Plain v)); reflexivity.
  - destruct (assert v); reflexivity.
Qed.

Lemma sound_effect :
  forall op0 resume fNext pooled,
    sound h fNext -> sound h (EffectFrame op0 resume fNext pooled).
Proof.
  intros op0 resume fNext pooled Hn. split.
  - intros c st K p. cbn [denote].
    destruct (dispatchEffect h op0 resume st) as [c' st'|[r|msg] st'] eqn:Hd.
    + eapply reaches_step.
      * intros fuel. cbn [evalFrames].
        rewrite processEffect_dispatchEffect. cbn [efOperation efResume].
        rewrite Hd. reflexivity.
      * apply sound_chain. exact Hn.
    + apply reaches_stop. intros fuel. cbn [evalFrames].
      rewrite processEffect_dispatchEffect. cbn [efOperation efResume].
      rewrite Hd. reflexivity.
    + apply reaches_stop. intros fuel. cbn [evalFrames].
      rewrite processEffect_dispatchEffect. cbn [efOperation efResume].
      rewrite Hd. reflexivity.
  - intros c st. cbn [denote].
    destruct (dispatchEffect h op0 resume st) as [c' st'|[r|msg] st'] eqn:Hd.
    + eapply reaches_step.
      * intros fuel. cbn [evalFrames].
        rewrite processEffect_dispatchEffect. cbn [efOperation efResume].
        rewrite Hd. reflexivity.
      * apply Hn.
    + apply reaches_stop. intros fuel. cbn [evalFrames].
      rewrite processEffect_dispatchEffect. cbn [efOperation efResume].
      rewrite Hd. reflexivity.
    + apply reaches_stop. intros fuel. cbn [evalFrames].
      rewrite processEffect_dispatchEffect. cbn [efOperation efResume].
      rewrite Hd. reflexivity.
Qed.

Lemma sound_chained :
  forall a b pooled, sound h a -> sound h b -> sound h (chainedFrame a b pooled).
Proof.
  intros a b pooled Ha Hb. split.
  - intros c st K p. cbn [denote].
    eapply reaches_step; [intros fuel; cbn [evalFrames]; reflexivity|].
    apply sound_seq; assumption.
  - intros c st. cbn [denote].
    apply reaches_seq with (o1 := denote h a c st) (K1 := b).
    + apply Ha.
    + intros c' st' He. rewrite He. apply Hb.
    + intros r st' He. rewrite He. reflexivity.
Qed.

Lemma sound_user :
  forall unwind,
    (forall c v fr, unwind c = Ok (v, fr) -> sound h fr) ->
    sound h (UserFrame (Some unwind)).
Proof.
  intros unwind Hu. split.
  - intros c st K p. cbn [denote].
    destruct (unwind c) as [[v fr]|msg] eqn:He.
    + eapply reaches_step;
        [intros fuel; cbn [evalFrames]; rewrite He; reflexivity|].
      apply sound_chain. exact (Hu _ _ _ He).
    + apply reaches_stop. intros fuel. cbn [evalFrames]. rewrite He.
      reflexivity.
  - intros c st. cbn [denote].
    destruct (unwind c) as [[v fr]|msg] eqn:He.
    + eapply reaches_step;
        [intros fuel; cbn [evalFrames]; rewrite He; reflexivity|].
      apply (Hu _ _ _ He).
    + apply reaches_stop. intros fuel. cbn [evalFrames]. rewrite He.
      reflexivity.
Qed.

Lemma sound_user_none : sound h (UserFrame None).
Proof.
  split.
  - intros c st K p. apply reaches_stop. intros fuel. reflexivity.
  - intros c st. apply reaches_stop. intros fuel. reflexivity.
Qed.

(** A [BindFrame] whose function returns frames that run as [denote]
    says. *)
Lemma sound_bind :
  forall F fNext pooled,
    (forall c v fr, applyBind F c = Ok (v, fr) -> sound h fr) ->
    (forall c st,
        denote h (BindFrame F fNext pooled) c st
        = andThen
            match applyBind F c with
            | Panic msg => Stop (Panic msg) st
            | Ok (v, fr) => denote h fr v st
            end
            (denote h fNext)) ->
    sound h fNext ->
    sound h (BindFrame F fNext pooled).
Proof.
  intros F fNext pooled HF Hden Hn. split.
  - intros c st K p. rewrite Hden.
    destruct (applyBind F c) as [[v fr]|msg] eqn:He.
    + eapply reaches_step;
        [intros fuel; cbn [evalFrames]; rewrite He; reflexivity|].
      apply sound_chain2; [exact (HF _ _ _ He)|exact Hn].
    + apply reaches_stop. intros fuel. cbn [evalFrames]. rewrite He.
      reflexivity.
  - intros c st. rewrite Hden.
    destruct (applyBind F c) as [[v fr]|msg] eqn:He.
    + eapply reaches_step;
        [intros fuel; cbn [evalFrames]; rewrite He; reflexivity|].
      rewrite <- (chainFromPool_return_right (chainFromPool fr fNext)).
      apply sound_chain2; [exact (HF _ _ _ He)|exact Hn].
    + apply reaches_stop. intros fuel. cbn [evalFrames]. rewrite He.
      reflexivity.
Qed.

(** One pass of the loop on an effect frame at the head of a chain. *)
Lemma effect_chain_step :
  forall op0 resume fNext pooled K c st fuel,
    evalFrames (handlerProcessor h) (S fuel) c
      (chainFromPool (EffectFrame op0 resume fNext pooled) K) st
    = match dispatchEffect h op0 resume st with
      | Next c' st' =>
          evalFrames (handlerProcessor h) fuel c' (chainFromPool fNext K) st'
      | Stop r st' => Some (r, st')
      end.
Proof.
  intros op0 resume fNext pooled K c st fuel.
  destruct K; cbn [chainFromPool evalFrames];
    rewrite processEffect_dispatchEffect; cbn [efOperation efResume];
    rewrite ?chainFromPool_return_right;
    destruct (dispatchEffect h op0 resume st) as [c' st'|[r|msg] st'];
    reflexivity.
Qed.

(** The frames of [fromResumed]: the conversion frame alone. *)
Lemma sound_reify0 :
  forall A (GA : GoType Val A),
    sound (R := R) h (BindFrame (reifyNext Operation GA) ReturnFrame false).
Proof.
  intros A GA.
  set (B0 := BindFrame (reifyNext Operation GA) ReturnFrame false).
  assert (Hden : forall c st, denote (R := R) h B0 c st = denoteResumed (R := R) h GA c st).
  { intros c st. unfold B0. cbn [denote]. apply andThen_Next. }
  assert (Hall : forall c,
             (forall st K p,
                 reaches (R := R) h c (chainedFrame B0 K p) st (denoteResumed (R := R) h GA c st) K) /\
             (forall st,
                 reaches (R := R) h c B0 st (denoteResumed (R := R) h GA c st) ReturnFrame)).
  { intros c. induction c as [x|o resume IH] using Resumed_induction.
    - split.
      + intros st K p. destruct x as [|v].
        * eapply reaches_step; [intros fuel; reflexivity|]. apply reaches_refl.
        * cbn [denoteResumed].
          destruct (assert (dbox v)) as [a|msg] eqn:Ha.
          -- eapply reaches_step;
               [intros fuel; unfold B0;
                cbn [evalFrames applyBind fromResumed]; rewrite Ha;
                reflexivity|].
             apply reaches_refl.
          -- apply reaches_stop. intros fuel. unfold B0.
             cbn [evalFrames applyBind fromResumed]. rewrite Ha. reflexivity.
      + intros st. destruct x as [|v].
        * eapply reaches_step; [intros fuel; reflexivity|]. apply reaches_refl.
        * cbn [denoteResumed].
          destruct (assert (dbox v)) as [a|msg] eqn:Ha.
          -- eapply reaches_step;
               [intros fuel; unfold B0;
                cbn [evalFrames applyBind fromResumed]; rewrite Ha;
                reflexivity|].
             apply reaches_refl.
          -- apply reaches_stop. intros fuel. unfold B0.
             cbn [evalFrames applyBind fromResumed]. rewrite Ha. reflexivity.
    - assert (Hch : forall v next, resume v = Ok next ->
                forall st K,
                  reaches (R := R) h next (chainFromPool B0 K) st
                    (denoteResumed (R := R) h GA next st) K).
      { intros v next Hr st K. destruct (IH v next Hr) as [HQ HD].
        destruct K; first [apply HD | apply HQ]. }
      assert (Hgo : forall st K,
                 reaches (R := R) h (Plain (box (zero (T := A))))
                   (chainFromPool
                      (EffectFrame o (reifyResume resume) B0 false) K) st
                   (denoteResumed (R := R) h GA (Marker o resume) st) K).
      { intros st K. cbn [denoteResumed].
        destruct (Dispatch h st o) as [[[v shouldResume] st']|msg] eqn:Hd.
        - destruct shouldResume.
          + destruct (resume v) as [next|msg] eqn:Hr.
            * eapply reaches_step.
              -- intros fuel. rewrite effect_chain_step. unfold dispatchEffect.
                 rewrite Hd. cbn [reifyResume]. rewrite Hr. reflexivity.
              -- apply (Hch v next Hr).
            * apply reaches_stop. intros fuel. rewrite effect_chain_step.
              unfold dispatchEffect. rewrite Hd. cbn [reifyResume].
              rewrite Hr. reflexivity.
          + destruct (assert v) as [r|msg] eqn:Ha.
            * apply reaches_stop. intros fuel. rewrite effect_chain_step.
              unfold dispatchEffect. rewrite Hd, Ha. reflexivity.
            * apply reaches_stop. intros fuel. rewrite effect_chain_step.
              unfold dispatchEffect. rewrite Hd, Ha. reflexivity.
        - apply reaches_stop. intros fuel. rewrite effect_chain_step.
          unfold dispatchEffect. rewrite Hd. reflexivity. }
      split.
      + intros st K p.
        eapply reaches_step; [intros fuel; reflexivity|]. apply Hgo.
      + intros st.
        eapply reaches_step; [intros fuel; reflexivity|].
        apply (Hgo st ReturnFrame). }
  split.
  - intros c st K p. rewrite Hden. apply Hall.
  - intros c st. rewrite Hden. apply Hall.
Qed.

(** The frame chain that [fromResumed] builds runs as [denoteResumed]
    says. *)
Lemma fromResumed_sound :
  forall A (GA : GoType Val A) (r : Resumed Val Operation),
    match fromResumed (GA := GA) r with
    | Ok e =>
        sound (R := R) h (ExprFrame e) /\
        forall st,
          denote (R := R) h (ExprFrame e) (Plain (box (Value e))) st
          = denoteResumed (R := R) h GA r st
    | Panic msg => forall st, denoteResumed (R := R) h GA r st = Stop (Panic msg) st
    end.
Proof.
  intros A GA [[|v]|o resume].
  - split; [apply sound_return|reflexivity].
  - cbn [fromResumed denoteResumed].
    destruct (assert (dbox v)) as [a|msg].
    + split; [apply sound_return|reflexivity].
    + reflexivity.
  - cbn [fromResumed ExprFrame Value]. split.
    + apply sound_effect. apply sound_reify0.
    + intros st. cbn [denote denoteResumed]. unfold dispatchEffect.
      destruct (Dispatch h st o) as [[[v shouldResume] st']|msg]; [|reflexivity].
      destruct shouldResume.
      * cbn [reifyResume]. destruct (resume v) as [next|msg]; [|reflexivity].
        cbn [andThen]. apply andThen_Next.
      * destruct (assert v); reflexivity.
Qed.

(** Every frame runs as [denote] says. *)
Lemma sound_all : forall frame, sound h frame.
Proof.
  induction frame as [|f fNext pooled IHf IHn|A GA fNext pooled IHn
                      |F fNext IHn|sv sf fNext pooled IHs IHn
                      |op0 resume fNext pooled IHn|a b pooled IHa IHb
                      |unwind IHu|] using Frame_induction.
  - apply sound_return.
  - apply sound_bind; [exact IHf|reflexivity|exact IHn].
  - apply sound_bind; [| |exact IHn].
    + intros c v fr. cbn [applyBind].
      pose proof (fromResumed_sound GA c) as Hs.
      destruct (fromResumed c) as [e|msg]; [|discriminate].
      intros He. inversion He; subst. apply Hs.
    + intros c st. cbn [denote applyBind].
      pose proof (fromResumed_sound GA c) as Hs.
      destruct (fromResumed c) as [e|msg].
      * destruct Hs as [_ Hs]. rewrite Hs. reflexivity.
      * rewrite Hs. reflexivity.
  - apply sound_map. exact IHn.
  - apply sound_then; assumption.
  - apply sound_effect. exact IHn.
  - apply sound_chained; assumption.
  - apply sound_user. exact IHu.
  - apply sound_user_none.
Qed.

(** The loop of [evalFrames] with the processor of [HandleExpr] returns
    on every frame, and returns the end of the frame-by-frame run. *)
Lemma evalFrames_denote :
  forall frame c st,
  exists n : nat, forall fuel : nat, (n <= fuel)%nat ->
    evalFrames (handlerProcessor h) fuel c frame st
    = Some (finish h (denote h frame c st)).
Proof.
  intros frame c st.
  destruct (sound_all frame) as [_ HD]. destruct (HD c st) as [n Hn].
  exists (S n). intros fuel Hf.
  replace fuel with (n + S (fuel - S n))%nat by lia.
  apply Hn. destruct (denote h frame c st) as [c' st'|r st']; reflexivity.
Qed.

Lemma HandleExpr_denote :
  forall (m : Expr Val Operation R) st,
  exists n : nat, forall fuel : nat, (n <= fuel)%nat ->
    HandleExpr fuel m h st
    = Some (withState
              (finish h (denote h (ExprFrame m) (Plain (box (Value m))) st))).
Proof.
  intros m st.
  destruct (evalFrames_denote (ExprFrame m) (Plain (box (Value m))) st)
    as [n Hn].
  exists n. intros fuel Hf. unfold HandleExpr. rewrite (Hn fuel Hf).
  reflexivity.
Qed.

(** [ChainFrames] is sequencing. *)
Lemma denote_ChainFrames :
  forall a b c st,
    denote h (ChainFrames a b) c st = andThen (denote h a c st) (denote h b).
Proof.
  intros a b c st.
  destruct a; try reflexivity;
    destruct b; try reflexivity;
    cbn [ChainFrames]; symmetry; apply andThen_Return.
Qed.

Lemma denote_ChainFrames_assoc :
  forall a b d c st,
    denote h (ChainFrames (ChainFrames a b) d) c st
    = denote h (ChainFrames a (ChainFrames b d)) c st.
Proof.
  intros a b d c st. rewrite !denote_ChainFrames, andThen_assoc.
  apply andThen_ext. intros c' st'. rewrite denote_ChainFrames. reflexivity.
Qed.

(** ** The smart constructors *)

Lemma assertErased_box :
  forall A (GA : GoType Val A) c (x : A),
    assertErased c = Ok x -> assertErased (Operation := Operation) (Plain (box x)) = Ok x.
Proof.
  intros A GA [d|o resume] x Hx; [|discriminate].
  simpl in *. rewrite (box_assert _ Hx). exact Hx.
Qed.

(** The run of an [Expr]: its frame, started on its value. *)
Lemma ExprBind_return :
  forall A {GA : GoType Val A} (m : Expr Val Operation A)
         (f : A -> Expr Val Operation R),
    ExprFrame m = ReturnFrame -> ExprBind m f = f (Value m).
Proof. intros A GA m f Hm. unfold ExprBind. rewrite Hm. reflexivity. Qed.

Lemma ExprBind_suspended :
  forall A B {GA : GoType Val A} {GB : GoType Val B}
         (m : Expr Val Operation A) (f : A -> Expr Val Operation B),
    ExprFrame m <> ReturnFrame ->
    ExprBind m f
    = {| Value := zero;
         ExprFrame :=
           ChainFrames (ExprFrame m)
             (BindFrame
                (Closure (fun v =>
                   match assertErased v with
                   | Panic msg => Panic msg
                   | Ok x => Ok (Plain (box (Value (f x))), ExprFrame (f x))
                   end))
                ReturnFrame false) |}.
Proof.
  intros A B GA GB m f Hm. unfold ExprBind.
  destruct (ExprFrame m); [contradiction Hm; reflexivity|reflexivity..].
Qed.

Lemma ChainFrames_suspended :
  forall a b, a <> ReturnFrame -> b <> ReturnFrame ->
              ChainFrames a b <> ReturnFrame.
Proof.
  intros a b Ha Hb. destruct a; [contradiction Ha; reflexivity|..];
    (destruct b; [contradiction Hb; reflexivity|..]); discriminate.
Qed.

Lemma denote_bindFrame :
  forall A B {GA : GoType Val A} {GB : GoType Val B}
         (f : A -> Expr Val Operation B) c st,
    denote (R := R) h
      (BindFrame
         (Closure (fun v =>
            match assertErased v with
            | Panic msg => Panic msg
            | Ok x => Ok (Plain (box (Value (f x))), ExprFrame (f x))
            end))
         ReturnFrame false) c st
    = match assertErased c with
      | Panic msg => Stop (Panic msg) st
      | Ok x => denote (R := R) h (ExprFrame (f x)) (Plain (box (Value (f x)))) st
      end.
Proof.
  intros A B GA GB f c st. cbn [denote].
  destruct (assertErased c) as [x|msg]; [|reflexivity].
  apply andThen_Return.
Qed.

Lemma denote_effectFirst :
  forall frame, effectFirst frame = true ->
  forall c c' st, denote (R := R) h frame c st = denote h frame c' st.
Proof.
  induction frame as [|F fNext pooled IHn|F fNext IHn|sv sf fNext pooled IHs IHn
                      |op0 resume fNext pooled IHn|a IHa b IHb pooled|u];
    intros He c c' st; try discriminate.
  - reflexivity.
  - cbn [denote]. cbn [effectFirst] in He. rewrite (IHa He c c' st).
    reflexivity.
Qed.

Lemma HandleExpr_ExprBind_ExprReturn :
  forall (m : Expr Val Operation R) st,
    (ExprFrame m <> ReturnFrame -> Value m = zero) ->
    exists (n : nat) (out : result (R * H)),
      forall fuel : nat, (n <= fuel)%nat ->
        HandleExpr fuel (ExprBind m (fun x => ExprReturn x)) h st = Some out /\
        HandleExpr fuel m h st = Some out.
Proof.
  intros [v fr] st Hwf. set (m := {| Value := v; ExprFrame := fr |}).
  cbn [Value ExprFrame] in Hwf.
  destruct (HandleExpr_denote m st) as [n2 H2].
  destruct (HandleExpr_denote (ExprBind m (fun x => ExprReturn x)) st)
    as [n1 H1].
  exists (n1 + n2)%nat. eexists. intros fuel Hf. split; [|apply H2; lia].
  rewrite H1 by lia. f_equal. f_equal. unfold m.
  destruct (Frame_eq_ReturnFrame_dec fr) as [Hr|Hr].
  - subst fr. reflexivity.
  - rewrite ExprBind_suspended by exact Hr. cbn [Value ExprFrame].
    rewrite (Hwf Hr), denote_ChainFrames.
    destruct (denote h fr (Plain (box zero)) st) as [c' st'|r st'];
      [|reflexivity].
    cbn [andThen]. rewrite denote_bindFrame.
    destruct (assertErased c') as [x|msg] eqn:Hx.
    + cbn [ExprReturn Value ExprFrame denote finish processReturn handlerProcessor].
      rewrite (assertErased_box _ _ Hx), Hx. reflexivity.
    + cbn [finish processReturn handlerProcessor]. rewrite Hx. reflexivity.
Qed.

Lemma HandleExpr_ExprBind_assoc :
  forall A B (GA : GoType Val A) (GB : GoType Val B)
         (m : Expr Val Operation A) (f : A -> Expr Val Operation B)
         (g : B -> Expr Val Operation R) st,
    (forall y : B, box y <> dnil) ->
    (forall x, standardExpr (f x)) ->
    exists (n : nat) (out : result (R * H)),
      forall fuel : nat, (n <= fuel)%nat ->
        HandleExpr fuel (ExprBind (ExprBind m f) g) h st = Some out /\
        HandleExpr fuel (ExprBind m (fun x => ExprBind (f x) g)) h st = Some out.
Proof.
  intros A B GA GB [v fr] f g st HB Hwf.
  set (m := {| Value := v; ExprFrame := fr |}).
  destruct (HandleExpr_denote (ExprBind (ExprBind m f) g) st) as [n1 H1].
  destruct (HandleExpr_denote (ExprBind m (fun x => ExprBind (f x) g)) st)
    as [n2 H2].
  exists (n1 + n2)%nat. eexists. intros fuel Hf. split; [apply H1; lia|].
  rewrite H2 by lia. f_equal. f_equal. f_equal. unfold m.
  destruct (Frame_eq_ReturnFrame_dec fr) as [Hr|Hr].
  - subst fr. reflexivity.
  - rewrite (ExprBind_suspended (GB := GB) {| Value := v; ExprFrame := fr |} f Hr).
    rewrite (ExprBind_suspended (GB := GR) _ g)
      by (cbn [ExprFrame]; apply ChainFrames_suspended;
          [exact Hr|discriminate]).
    rewrite (ExprBind_suspended (GB := GR) {| Value := v; ExprFrame := fr |}
               (fun x => ExprBind (f x) g) Hr).
    cbn [Value ExprFrame].
    rewrite !denote_ChainFrames, andThen_assoc. apply andThen_ext.
    intros c' st'. rewrite !denote_bindFrame.
    destruct (assertErased c') as [x|msg]; [|reflexivity].
    destruct (Frame_eq_ReturnFrame_dec (ExprFrame (f x))) as [Hx|Hx].
    + rewrite (ExprBind_return (f x) g Hx), Hx, denote_ReturnFrame.
      cbn [andThen]. rewrite denote_bindFrame. cbn [assertErased].
      rewrite (assert_box _ (HB _)). reflexivity.
    + rewrite (ExprBind_suspended (GB := GR) (f x) g Hx). cbn [Value ExprFrame].
      rewrite denote_ChainFrames.
      destruct (Hwf x) as [Hs|[_ Hs]]; [contradiction|].
      rewrite (denote_effectFirst _ Hs _ (Plain (box (Value (f x))))).
      reflexivity.
Qed.

Lemma ExprMap_suspended :
  forall A B {GA : GoType Val A} {GB : GoType Val B}
         (m : Expr Val Operation A) (f : A -> B),
    ExprFrame m <> ReturnFrame ->
    ExprMap m f
    = {| Value := zero;
         ExprFrame :=
           ChainFrames (ExprFrame m)
             (MapFrame
                (fun v =>
                   match assertErased v with
                   | Panic msg => Panic msg
                   | Ok x => Ok (Plain (box (f x)))
                   end)
                ReturnFrame) |}.
Proof.
  intros A B GA GB m f Hm. unfold ExprMap.
  destruct (ExprFrame m); [contradiction Hm; reflexivity|reflexivity..].
Qed.

Lemma HandleExpr_ExprMap :
  forall A (GA : GoType Val A) (m : Expr Val Operation A) (f : A -> R) st,
    exists (n : nat) (out : result (R * H)),
      forall fuel : nat, (n <= fuel)%nat ->
        HandleExpr fuel (ExprMap m f) h st = Some out /\
        HandleExpr fuel (ExprBind m (fun x => ExprReturn (f x))) h st = Some out.
Proof.
  intros A GA [v fr] f st. set (m := {| Value := v; ExprFrame := fr |}).
  destruct (HandleExpr_denote (ExprMap m f) st) as [n1 H1].
  destruct (HandleExpr_denote (ExprBind m (fun x => ExprReturn (f x))) st)
    as [n2 H2].
  exists (n1 + n2)%nat. eexists. intros fuel Hf. split; [apply H1; lia|].
  rewrite H2 by lia. f_equal. f_equal. f_equal. unfold m.
  destruct (Frame_eq_ReturnFrame_dec fr) as [Hr|Hr].
  - subst fr. reflexivity.
  - rewrite (ExprBind_suspended (GB := GR) {| Value := v; ExprFrame := fr |}
               (fun x => ExprReturn (f x)) Hr).
    rewrite (ExprMap_suspended (GB := GR) {| Value := v; ExprFrame := fr |} f Hr).
    cbn [Value ExprFrame]. rewrite !denote_ChainFrames.
    apply andThen_ext. intros c' st'. cbn [denote].
    destruct (assertErased c'); reflexivity.
Qed.

(** An operation that the handler answers and resumes: the answer goes
    to the function of [ExprBind], and the run goes on with the handler
    as the dispatch left it. *)
Lemma HandleExpr_ExprPerform_ExprBind :
  forall A (GA : GoType Val A) (o : Operation)
         (f : A -> Expr Val Operation R) st v st' (x : A),
    Dispatch h st o = Ok (v, true, st') ->
    assert v = Ok x ->
    exists (n : nat) (out : result (R * H)),
      forall fuel : nat, (n <= fuel)%nat ->
        HandleExpr fuel (ExprBind (ExprPerform (A := A) o) f) h st = Some out /\
        HandleExpr fuel (f x) h st' = Some out.
Proof.
  intros A GA o f st v st' x Hd Hv.
  destruct (HandleExpr_denote (ExprBind (ExprPerform (A := A) o) f) st)
    as [n1 H1].
  destruct (HandleExpr_denote (f x) st') as [n2 H2].
  exists (n1 + n2)%nat. eexists. intros fuel Hf. split; [apply H1; lia|].
  rewrite H2 by lia. f_equal. f_equal. f_equal.
  rewrite (ExprBind_suspended (GB := GR) (ExprPerform (A := A) o) f)
    by discriminate.
  cbn [Value ExprFrame ExprPerform]. rewrite denote_ChainFrames.
  cbn [denote]. unfold dispatchEffect. rewrite Hd. unfold identityResume.
  cbn [andThen assertErased]. rewrite Hv. symmetry. apply andThen_Next.
Qed.

(** An operation that the handler answers without resuming: the
    function of [ExprBind] is dropped. *)
Lemma HandleExpr_ExprPerform_stop :
  forall A (GA : GoType Val A) (o : Operation)
         (f : A -> Expr Val Operation R) st v st',
    Dispatch h st o = Ok (v, false, st') ->
    exists n : nat,
      forall fuel : nat, (n <= fuel)%nat ->
        HandleExpr fuel (ExprBind (ExprPerform (A := A) o) f) h st
        = Some match assert v with
               | Panic msg => Panic msg
               | Ok r => Ok (r, st')
               end.
Proof.
  intros A GA o f st v st' Hd.
  destruct (HandleExpr_denote (ExprBind (ExprPerform (A := A) o) f) st)
    as [n1 H1].
  exists n1. intros fuel Hf. rewrite H1 by exact Hf. f_equal.
  rewrite (ExprBind_suspended (GB := GR) (ExprPerform (A := A) o) f)
    by discriminate.
  cbn [Value ExprFrame ExprPerform]. rewrite denote_ChainFrames.
  cbn [denote]. unfold dispatchEffect. rewrite Hd.
  destruct (assert v); reflexivity.
Qed.

Lemma ExprThen_suspended :
  forall A (m : Expr Val Operation A) (n : Expr Val Operation R),
    ExprFrame m <> ReturnFrame ->
    ExprThen m n
    = {| Value := zero;
         ExprFrame :=
           ChainFrames (ExprFrame m)
             (ThenFrame (Plain (box (Value n))) (ExprFrame n) ReturnFrame
                false) |}.
Proof.
  intros A m n Hm. unfold ExprThen.
  destruct (ExprFrame m); [contradiction Hm; reflexivity|reflexivity..].
Qed.

Lemma HandleExpr_ExprThen :
  forall A (GA : GoType Val A) (m : Expr Val Operation A)
         (n : Expr Val Operation R) st,
    exists (k : nat) (out1 out2 : result (R * H)),
      (out1 = out2 \/ exists msg, out1 = Panic msg) /\
      forall fuel : nat, (k <= fuel)%nat ->
        HandleExpr fuel (ExprBind m (fun _ => n)) h st = Some out1 /\
        HandleExpr fuel (ExprThen m n) h st = Some out2.
Proof.
  intros A GA [v fr] n st. set (m := {| Value := v; ExprFrame := fr |}).
  destruct (HandleExpr_denote (ExprBind m (fun _ => n)) st) as [n1 H1].
  destruct (HandleExpr_denote (ExprThen m n) st) as [n2 H2].
  exists (n1 + n2)%nat. do 2 eexists. split;
    [|intros fuel Hf; split; [apply H1; lia|apply H2; lia]].
  unfold m. destruct (Frame_eq_ReturnFrame_dec fr) as [Hr|Hr].
  - subst fr. left. reflexivity.
  - rewrite (ExprBind_suspended (GB := GR) {| Value := v; ExprFrame := fr |}
               (fun _ => n) Hr).
    rewrite (ExprThen_suspended {| Value := v; ExprFrame := fr |} n Hr).
    cbn [Value ExprFrame]. rewrite !denote_ChainFrames.
    destruct (denote h fr (Plain (box zero)) st) as [c' st'|r st'];
      [|left; reflexivity].
    cbn [andThen]. rewrite denote_bindFrame.
    destruct (assertErased c') as [x|msg].
    + left. cbn [denote]. rewrite andThen_Return. reflexivity.
    + right. exists msg. reflexivity.
Qed.

End FrameSemantics.

(** X3. Chain composition is associative as far as a run
    can tell: [ChainFrames(ChainFrames(a, b), d)] and
    [ChainFrames(a, ChainFrames(b, d))] give the same result and the
    same handler from every current value, although the loop rebalances
    the first on its way. *)
Theorem ChainFrames_associative :
  forall (Val Operation R H : Type) (GR : GoType Val R)
         (h : Handler Val Operation H)
         (a b d : Frame Val Operation) (c : Erased Val Operation) (st : H),
    exists (n : nat) (out : result R * H),
      forall fuel : nat, (n <= fuel)%nat ->
        evalFrames (handlerProcessor h) fuel c
          (ChainFrames (ChainFrames a b) d) st = Some out /\
        evalFrames (handlerProcessor h) fuel c
          (ChainFrames a (ChainFrames b d)) st = Some out.
Proof.
  intros Val Operation R H GR h a b d c st.
  destruct (evalFrames_denote h (ChainFrames (ChainFrames a b) d) c st)
    as [n1 H1].
  destruct (evalFrames_denote h (ChainFrames a (ChainFrames b d)) c st)
    as [n2 H2].
  exists (n1 + n2)%nat. eexists. intros fuel Hf. split.
  - apply H1. lia.
  - rewrite H2 by lia. rewrite denote_ChainFrames_assoc. reflexivity.
Qed.

(** ** The constructors of the frame form *)

(** X4. What the constructors build.  [ExprReturn] builds a
    completed computation; [ExprPerform] and [Reify] build a completed
    computation or one whose frames start with an [EffectFrame] and
    whose [Value] is the zero value; [ExprBind], [ExprMap] and
    [ExprThen] keep this shape. *)
Theorem standardExpr_constructors :
  forall (Val Operation A B : Type) (GA : GoType Val A) (GB : GoType Val B),
    (forall a : A, standardExpr (ExprReturn (Operation := Operation) a)) /\
    (forall o : Operation, standardExpr (ExprPerform (A := A) o)) /\
    (forall (m : Eff Val Operation A) e, Reify m = Ok e -> standardExpr e) /\
    (forall (m : Expr Val Operation A) (f : A -> Expr Val Operation B),
        standardExpr m -> (forall x, standardExpr (f x)) ->
        standardExpr (ExprBind m f)) /\
    (forall (m : Expr Val Operation A) (f : A -> B),
        standardExpr m -> standardExpr (ExprMap m f)) /\
    (forall (m : Expr Val Operation A) (n : Expr Val Operation B),
        standardExpr m -> standardExpr n -> standardExpr (ExprThen m n)).
Proof.
  intros Val Operation A B GA GB.
  assert (Hchain : forall (fr : Frame Val Operation) g,
             effectFirst fr = true -> g <> ReturnFrame ->
             effectFirst (ChainFrames fr g) = true).
  { intros fr g Hfr Hg. destruct fr; try discriminate;
      (destruct g; [contradiction Hg; reflexivity|exact Hfr..]). }
  repeat split.
  - intros a. left. reflexivity.
  - intros o. right. split; reflexivity.
  - intros m e. unfold Reify. destruct (m toResumed) as [[[|v]|o resume]|msg];
      cbn [fromResumed]; try discriminate.
    + intros He. inversion He. left. reflexivity.
    + destruct (assert (dbox v)); [|discriminate].
      intros He. inversion He. left. reflexivity.
    + intros He. inversion He. right. split; reflexivity.
  - intros [v fr] f [Hm|[_ Hm]] Hf; cbn [ExprFrame] in Hm.
    + subst fr. apply Hf.
    + right. unfold ExprBind. cbn [ExprFrame].
      destruct fr; try discriminate; (split; [reflexivity|]);
        cbn [ExprFrame]; apply Hchain; solve [exact Hm | discriminate].
  - intros [v fr] f [Hm|[_ Hm]]; cbn [ExprFrame] in Hm.
    + subst fr. left. reflexivity.
    + right. unfold ExprMap. cbn [ExprFrame].
      destruct fr; try discriminate; (split; [reflexivity|]);
        cbn [ExprFrame]; apply Hchain; solve [exact Hm | discriminate].
  - intros [v fr] n [Hm|[_ Hm]] Hn; cbn [ExprFrame] in Hm.
    + subst fr. exact Hn.
    + right. unfold ExprThen. cbn [ExprFrame].
      destruct fr; try discriminate; (split; [reflexivity|]);
        cbn [ExprFrame]; apply Hchain; solve [exact Hm | discriminate].
Qed.

Lemma standardExpr_constructors_witness :
  standardExpr
    (ExprBind (ExprPerform (Val := GoValue) (Operation := Op0) (A := Z) Get)
              (fun s => ExprReturn (GoInt.add s 1))).
Proof.
  destruct (@standardExpr_constructors GoValue Op0 Z Z _ _)
    as [Hret [Hperf [_ [Hbind _]]]].
  apply Hbind; [apply Hperf|intros x; apply Hret].
Defined.

(** X5. The monad laws of the frame form, as seen by
    [HandleExpr] with any handler.  Left identity is an equality of
    computations.  Right identity holds for a computation that is
    completed or starts with an [EffectFrame].  Associativity holds
    when the computations returned by [f] have that shape and the
    intermediate type [B] is not an interface type (no [B] converts to
    the nil interface): the bind frame asserts the current value to
    [B], which fails on nil, where the short cut of [ExprBind] on a
    completed computation asserts nothing. *)
Theorem ExprBind_monad_laws :
  forall (Val Operation A B R H : Type)
         (GA : GoType Val A) (GB : GoType Val B) (GR : GoType Val R)
         (h : Handler Val Operation H)
         (m : Expr Val Operation A) (f : A -> Expr Val Operation B)
         (g : B -> Expr Val Operation R) (a : A) (st : H),
    ExprBind (ExprReturn a) f = f a /\
    (standardExpr m ->
     exists (n : nat) (out : result (A * H)),
      forall fuel : nat, (n <= fuel)%nat ->
        HandleExpr fuel (ExprBind m (fun x => ExprReturn x)) h st = Some out /\
        HandleExpr fuel m h st = Some out) /\
    ((forall x, standardExpr (f x)) ->
     (forall y : B, box y <> dnil) ->
     exists (n : nat) (out : result (R * H)),
      forall fuel : nat, (n <= fuel)%nat ->
        HandleExpr fuel (ExprBind (ExprBind m f) g) h st = Some out /\
        HandleExpr fuel (ExprBind m (fun x => ExprBind (f x) g)) h st
          = Some out).
Proof.
  intros Val Operation A B R H GA GB GR h m f g a st.
  split; [reflexivity|]. split.
  - intros Hm. apply HandleExpr_ExprBind_ExprReturn.
    intros Hr. destruct Hm as [Hm|[Hm _]]; [contradiction|exact Hm].
  - intros Hf HB. apply HandleExpr_ExprBind_assoc; assumption.
Qed.

Lemma ExprBind_monad_laws_witness :
  ExprBind (ExprReturn (Operation := Op0) 7)
           (fun s => ExprPerform (A := unit) (Put (GoInt.add s 10)))
    = ExprPerform (A := unit) (Put (GoInt.add 7 10)) /\
  (exists (n : nat) (out : result (Z * Z)),
    forall fuel : nat, (n <= fuel)%nat ->
      HandleExpr fuel
        (ExprBind (ExprPerform (A := Z) Get) (fun x => ExprReturn x))
        stateHandler0 5 = Some out /\
      HandleExpr fuel (ExprPerform (A := Z) Get) stateHandler0 5 = Some out) /\
  (exists (n : nat) (out : result (Z * Z)),
    forall fuel : nat, (n <= fuel)%nat ->
      HandleExpr fuel
        (ExprBind
           (ExprBind (ExprPerform (A := Z) Get)
                     (fun s => ExprPerform (A := unit) (Put (GoInt.add s 10))))
           (fun _ => ExprPerform (A := Z) Get))
        stateHandler0 5 = Some out /\
      HandleExpr fuel
        (ExprBind (ExprPerform (A := Z) Get)
           (fun s =>
              ExprBind (ExprPerform (A := unit) (Put (GoInt.add s 10)))
                       (fun _ => ExprPerform (A := Z) Get)))
        stateHandler0 5 = Some out).
Proof.
  destruct (@ExprBind_monad_laws GoValue Op0 Z unit Z Z _ _ _ stateHandler0
              (ExprPerform (A := Z) Get)
              (fun s => ExprPerform (A := unit) (Put (GoInt.add s 10)))
              (fun _ => ExprPerform (A := Z) Get) 7 5)
    as [Hleft [Hright Hassoc]].
  split; [exact Hleft|]. split.
  - apply Hright. right. split; reflexivity.
  - apply Hassoc.
    + intros x. right. split; reflexivity.
    + intros []. discriminate.
Defined.

(** X6. [ExprMap(m, f)] runs as [ExprBind(m, x => ExprReturn(f(x)))]
    under every handler, for every computation [m]. *)
Theorem ExprMap_as_ExprBind :
  forall (Val Operation A R H : Type) (GA : GoType Val A) (GR : GoType Val R)
         (h : Handler Val Operation H)
         (m : Expr Val Operation A) (f : A -> R) (st : H),
    exists (n : nat) (out : result (R * H)),
      forall fuel : nat, (n <= fuel)%nat ->
        HandleExpr fuel (ExprMap m f) h st = Some out /\
        HandleExpr fuel (ExprBind m (fun x => ExprReturn (f x))) h st
          = Some out.
Proof.
  intros Val Operation A R H GA GR h m f st. apply HandleExpr_ExprMap.
Qed.

(** X24. [ExprThen(m, n)] against [ExprBind(m, _ => n)].  In
    the frame form the two are not the same computation: the bind frame
    asserts the value that [m] leaves to the type of [m], the then
    frame does not look at it.  Under every handler they give the same
    outcome, unless the run with [ExprBind] panics. *)
Theorem ExprThen_against_ExprBind :
  forall (Val Operation A R H : Type) (GA : GoType Val A) (GR : GoType Val R)
         (h : Handler Val Operation H)
         (m : Expr Val Operation A) (n : Expr Val Operation R) (st : H),
    exists (k : nat) (out1 out2 : result (R * H)),
      (out1 = out2 \/ exists msg, out1 = Panic msg) /\
      forall fuel : nat, (k <= fuel)%nat ->
        HandleExpr fuel (ExprBind m (fun _ => n)) h st = Some out1 /\
        HandleExpr fuel (ExprThen m n) h st = Some out2.
Proof.
  intros Val Operation A R H GA GR h m n st. apply HandleExpr_ExprThen.
Qed.

(** X7. What a handler's answer does to [Perform] under [Bind],
    in both forms.  When [Dispatch] answers [v] and asks to resume, and
    [v] is of the result type of the operation, the run goes on as the
    run of the continuation on [v], with the handler as [Dispatch] left
    it.  When [Dispatch] asks not to resume, the continuation is
    dropped and [v], asserted to the answer type, is the result. *)
Theorem handler_answer :
  forall (Val Operation A R H : Type) (GA : GoType Val A) (GR : GoType Val R)
         (h : Handler Val Operation H) (o : Operation)
         (f : A -> Eff Val Operation R) (fe : A -> Expr Val Operation R)
         (st st' : H) (v : dynval Val) (shouldResume : bool),
    Dispatch h st o = Ok (v, shouldResume, st') ->
    if shouldResume then
      forall x : A, assert v = Ok x ->
        Handle h (Bind (Perform o) f) st = Handle h (f x) st' /\
        exists (n : nat) (out : result (R * H)),
          forall fuel : nat, (n <= fuel)%nat ->
            HandleExpr fuel (ExprBind (ExprPerform (A := A) o) fe) h st
              = Some out /\
            HandleExpr fuel (fe x) h st' = Some out
    else
      Handle h (Bind (Perform o) f) st
        = match assert v with
          | Panic msg => Panic msg
          | Ok r => Ok (r, st')
          end /\
      exists n : nat,
        forall fuel : nat, (n <= fuel)%nat ->
          HandleExpr fuel (ExprBind (ExprPerform (A := A) o) fe) h st
          = Some match assert v with
                 | Panic msg => Panic msg
                 | Ok r => Ok (r, st')
                 end.
Proof.
  intros Val Operation A R H GA GR h o f fe st st' v shouldResume Hd.
  destruct shouldResume.
  - intros x Hx. split.
    + unfold Handle, Bind, Perform, effectMarker. cbn [handleDispatch].
      rewrite Hd, Hx. reflexivity.
    + eapply HandleExpr_ExprPerform_ExprBind; eassumption.
  - split.
    + unfold Handle, Bind, Perform, effectMarker. cbn [handleDispatch].
      rewrite Hd. destruct (assert v); reflexivity.
    + eapply HandleExpr_ExprPerform_stop; eassumption.
Qed.

Lemma handler_answer_witness :
  Handle stateHandler0
    (Bind (Perform (A := Z) Get)
          (fun s => Perform (A := unit) (Put (GoInt.add s 10)))) 5
    = Handle stateHandler0 (Perform (A := unit) (Put (GoInt.add 5 10))) 5 /\
  exists (n : nat) (out : result (unit * Z)),
    forall fuel : nat, (n <= fuel)%nat ->
      HandleExpr fuel
        (ExprBind (ExprPerform (A := Z) Get)
                  (fun s => ExprPerform (A := unit) (Put (GoInt.add s 10))))
        stateHandler0 5 = Some out /\
      HandleExpr fuel (ExprPerform (A := unit) (Put (GoInt.add 5 10)))
        stateHandler0 5 = Some out.
Proof.
  pose proof (@handler_answer GoValue Op0 Z unit Z _ _ stateHandler0 Get
                (fun s => Perform (A := unit) (Put (GoInt.add s 10)))
                (fun s => ExprPerform (A := unit) (Put (GoInt.add s 10)))
                5 5 (dbox (GInt 5)) true eq_refl) as Hw.
  cbv beta iota in Hw. exact (Hw 5 eq_refl).
Defined.

(* ================================================================== *)
(** * Stepping a frame-form computation *)

Section StepExprDrive.
Variables Val Operation R H : Type.
Context {GR : GoType Val R}.
Variable h : Handler Val Operation H.

Implicit Types (hp : heap Val Operation) (st : H).

(** [processEffect] of the stepping processor stores a fresh
    suspension and leaves the loop with it. *)
Lemma stepProcessor_processEffect :
  forall reuse f rest hp,
    (forall s, reuse = Some s -> load s hp <> None) ->
    exists s hp1,
      processEffect (stepProcessor reuse) f rest hp
        = (Ok (Exit (StepSuspended s)), hp1) /\
      load s hp1 = Some (mkSusp 0 (efOperation f) None (Some f) (Some rest)).
Proof.
  intros [s|] f rest hp Hv; cbn [processEffect stepProcessor].
  - destruct (load s hp) as [x|] eqn:Hl; [|exfalso; exact (Hv s eq_refl Hl)].
    do 2 eexists. split; [reflexivity|].
    eapply load_store_same. exact Hl.
  - do 2 eexists. split; [reflexivity|]. apply load_alloc_new.
Qed.

Lemma stepsThenDrive_simulates :
  forall n c frame st out,
    evalFrames (handlerProcessor h) n c frame st = Some out ->
    forall f1 f2 reuse hp,
      (n <= f1)%nat -> (n <= f2)%nat ->
      (forall s, reuse = Some s -> load s hp <> None) ->
      exists hp',
        stepsThenDrive h f1 f2 reuse c frame st hp = Some (withState out, hp').
Proof.
  unfold stepsThenDrive.
  induction n as [|n IHn]; intros c frame st out Hev f1 f2 reuse hp Hf1 Hf2 Hv;
    [discriminate|].
  destruct f1 as [|f1]; [lia|].
  assert (Heff : forall f frest,
             match processEffect (handlerProcessor h) f frest st with
             | (Panic msg, st') => Some (Panic msg, st')
             | (Ok (Exit r), st') => Some (Ok r, st')
             | (Ok (Continue newCurrent newFrame), st') =>
                 evalFrames (handlerProcessor h) n newCurrent newFrame st'
             end = Some out ->
             exists hp',
               match
                 match processEffect (stepProcessor reuse) f frest hp with
                 | (Panic msg, hp1) => Some (Panic msg, hp1)
                 | (Ok (Exit r), hp1) => Some (Ok r, hp1)
                 | (Ok (Continue newCurrent newFrame), hp1) =>
                     evalFrames (stepProcessor reuse) f1 newCurrent newFrame hp1
                 end
               with
               | None => None
               | Some (Panic msg, hp1) => Some (Panic msg, hp1)
               | Some (Ok o, hp1) =>
                   match classifyStepResult (A := R) o with
                   | Panic msg => Some (Panic msg, hp1)
                   | Ok cur => driveLoop h f2 cur st hp1
                   end
               end = Some (withState out, hp')).
  { intros f frest He.
    destruct (stepProcessor_processEffect f frest hp Hv)
      as [s [hp1 [Hp Hl]]].
    rewrite Hp. cbn [classifyStepResult].
    destruct f2 as [|f2]; [lia|]. cbn [driveLoop].
    unfold SuspensionOp. rewrite Hl. cbn [op].
    cbn [processEffect handlerProcessor] in He.
    destruct (Dispatch h st (efOperation f)) as [[[v shouldResume] st']|msg];
      [|inversion He; eexists; reflexivity].
    destruct shouldResume.
    - rewrite (Resume_fresh (A := R) f2 s v hp1 Hl eq_refl).
      unfold advance. cbn [cont ef rest setUsed].
      destruct (efResume f (Plain v)) as [current|msg];
        [|inversion He; eexists; reflexivity].
      destruct (IHn current frest st' out He f2 f2 (Some s)
                  (store s (setUsed 1 (mkSusp 0 (efOperation f) None (Some f)
                                         (Some frest))) hp1))
        as [hp' Hih]; [lia|lia| |].
      + intros s0 Hs0. inversion Hs0; subst s0.
        rewrite (load_store_same _ _ _ Hl). discriminate.
      + exists hp'. rewrite <- Hih.
        destruct (evalFrames (stepProcessor (Some s)) f2 current frest _)
          as [[[o|msg] hp3]|]; reflexivity.
    - destruct (assert v); inversion He; eexists; reflexivity. }
  destruct frame as [|F fNext pooled|F fNext|sv sf fNext pooled
                     |o resume fNext pooled|cfirst crest pooled|[unwind|]];
    cbn [evalFrames] in Hev |- *.
  - inversion Hev; subst out.
    cbn [processReturn handlerProcessor stepProcessor classifyStepResult].
    destruct f2 as [|f2]; [lia|].
    destruct (assertErased c); eexists; reflexivity.
  - destruct (applyBind F c) as [[v fr]|msg];
      [eapply IHn; [exact Hev|lia|lia|exact Hv]
      |inversion Hev; eexists; reflexivity].
  - destruct (F c) as [v|msg];
      [eapply IHn; [exact Hev|lia|lia|exact Hv]
      |inversion Hev; eexists; reflexivity].
  - eapply IHn; [exact Hev|lia|lia|exact Hv].
  - apply Heff. exact Hev.
  - destruct cfirst as [|F fNext pooled'|F fNext|sv sf fNext pooled'
                        |o resume fNext pooled'|nfirst nrest pooled'|[unwind|]].
    + eapply IHn; [exact Hev|lia|lia|exact Hv].
    + destruct (applyBind F c) as [[v fr]|msg];
        [eapply IHn; [exact Hev|lia|lia|exact Hv]
        |inversion Hev; eexists; reflexivity].
    + destruct (F c) as [v|msg];
        [eapply IHn; [exact Hev|lia|lia|exact Hv]
        |inversion Hev; eexists; reflexivity].
    + eapply IHn; [exact Hev|lia|lia|exact Hv].
    + apply Heff. exact Hev.
    + eapply IHn; [exact Hev|lia|lia|exact Hv].
    + destruct (unwind c) as [[v fr]|msg];
        [eapply IHn; [exact Hev|lia|lia|exact Hv]
        |inversion Hev; eexists; reflexivity].
    + inversion Hev; eexists; reflexivity.
  - destruct (unwind c) as [[v fr]|msg];
      [eapply IHn; [exact Hev|lia|lia|exact Hv]
      |inversion Hev; eexists; reflexivity].
  - inversion Hev; eexists; reflexivity.
Qed.

Lemma driveStepsExpr_stepsThenDrive :
  forall fuel (m : Expr Val Operation R) st hp,
    driveStepsExpr h fuel m st hp
    = stepsThenDrive h fuel fuel None (Plain (box (Value m))) (ExprFrame m) st hp.
Proof.
  intros fuel m st hp. unfold driveStepsExpr, StepExpr, stepsThenDrive.
  destruct (evalFrames (stepProcessor None) fuel (Plain (box (Value m)))
              (ExprFrame m) hp) as [[[o|msg] hp1]|]; reflexivity.
Qed.

End StepExprDrive.

(** X8. Driving a frame-form computation through the
    stepping boundary ([StepExpr], then [Op], the handler's [Dispatch]
    and [Resume] on each suspension) gives what [HandleExpr] gives with
    the same handler: the same value and handler, or the same panic.
    This holds for every answer type, and although [Resume] reuses the
    suspension object on this path. *)
Theorem StepExpr_drive_is_HandleExpr :
  forall (Val Operation R H : Type) (GR : GoType Val R)
         (h : Handler Val Operation H) (m : Expr Val Operation R) (st : H)
         (hp : heap Val Operation),
    exists (n : nat) (out : result (R * H)),
      forall fuel : nat, (n <= fuel)%nat ->
        HandleExpr fuel m h st = Some out /\
        option_map fst (driveStepsExpr h fuel m st hp) = Some out.
Proof.
  intros Val Operation R H GR h m st hp.
  destruct (evalFrames_denote h (ExprFrame m) (Plain (box (Value m))) st)
    as [n Hn].
  exists n. eexists. intros fuel Hf. split.
  - unfold HandleExpr. rewrite (Hn fuel Hf). reflexivity.
  - rewrite driveStepsExpr_stepsThenDrive.
    assert (Hs : exists hp',
               stepsThenDrive h fuel fuel None (Plain (box (Value m)))
                 (ExprFrame m) st hp
               = Some (withState
                         (finish h (denote h (ExprFrame m)
                                      (Plain (box (Value m))) st)), hp')).
    { eapply stepsThenDrive_simulates;
        [exact (Hn n (Nat.le_refl n))|exact Hf|exact Hf|discriminate]. }
    destruct Hs as [hp' Hs]. rewrite Hs. reflexivity.
Qed.

(* ================================================================== *)
(** * Typed frames and their [Unwind] methods *)

(** X9. A frame of type [BindFrame[A, B]], [MapFrame[A, B]]
    or [ThenFrame[A, B]], which the loop runs through its [Unwind]
    method, runs as the frame over [Erased] that [ExprBind], [ExprMap]
    or [ExprThen] builds from the same function or computation and that
    the loop runs inline; this holds in front of any frame [K] and under
    any handler. *)
Theorem typed_frames_unwind :
  forall (Val Operation A B R H : Type)
         (GA : GoType Val A) (GB : GoType Val B) (GR : GoType Val R)
         (h : Handler Val Operation H)
         (F : A -> Expr Val Operation B) (f : A -> B)
         (second : Expr Val Operation B)
         (fNext K : Frame Val Operation) (c : Erased Val Operation) (st : H),
    (exists (n : nat) (out : result R * H),
      forall fuel : nat, (n <= fuel)%nat ->
        evalFrames (handlerProcessor h) fuel c
          (ChainFrames (UserFrame (Some (BindFrameUnwind F fNext))) K) st
          = Some out /\
        evalFrames (handlerProcessor h) fuel c
          (ChainFrames
             (BindFrame
                (Closure (fun v =>
                   match assertErased v with
                   | Panic msg => Panic msg
                   | Ok x => Ok (Plain (box (Value (F x))), ExprFrame (F x))
                   end))
                fNext false) K) st
          = Some out) /\
    (exists (n : nat) (out : result R * H),
      forall fuel : nat, (n <= fuel)%nat ->
        evalFrames (handlerProcessor h) fuel c
          (ChainFrames (UserFrame (Some (MapFrameUnwind f fNext))) K) st
          = Some out /\
        evalFrames (handlerProcessor h) fuel c
          (ChainFrames
             (MapFrame
                (fun v =>
                   match assertErased v with
                   | Panic msg => Panic msg
                   | Ok x => Ok (Plain (box (f x)))
                   end)
                fNext) K) st
          = Some out) /\
    (exists (n : nat) (out : result R * H),
      forall fuel : nat, (n <= fuel)%nat ->
        evalFrames (handlerProcessor h) fuel c
          (ChainFrames (UserFrame (Some (ThenFrameUnwind second fNext))) K) st
          = Some out /\
        evalFrames (handlerProcessor h) fuel c
          (ChainFrames
             (ThenFrame (Plain (box (Value second))) (ExprFrame second)
                fNext false) K) st
          = Some out).
Proof.
  intros Val Operation A B R H GA GB GR h F f second fNext K c st.
  assert (Hboth : forall fr1 fr2 : Frame Val Operation,
             denote (R := R) h fr1 c st = denote h fr2 c st ->
             exists (n : nat) (out : result R * H),
               forall fuel : nat, (n <= fuel)%nat ->
                 evalFrames (handlerProcessor h) fuel c (ChainFrames fr1 K) st
                   = Some out /\
                 evalFrames (handlerProcessor h) fuel c (ChainFrames fr2 K) st
                   = Some out).
  { intros fr1 fr2 Hd.
    destruct (evalFrames_denote h (ChainFrames fr1 K) c st) as [n1 H1].
    destruct (evalFrames_denote h (ChainFrames fr2 K) c st) as [n2 H2].
    exists (n1 + n2)%nat. eexists. intros fuel Hf. split; [apply H1; lia|].
    rewrite H2 by lia. rewrite !denote_ChainFrames, Hd. reflexivity. }
  repeat split; apply Hboth; cbn [denote].
  - unfold BindFrameUnwind. destruct (assertErased c) as [x|msg];
      [|reflexivity].
    cbn zeta. rewrite denote_ChainFrames. reflexivity.
  - unfold MapFrameUnwind. destruct (assertErased c); reflexivity.
  - unfold ThenFrameUnwind. rewrite denote_ChainFrames. reflexivity.
Qed.

(* ================================================================== *)
(** * The closure form: derived combinators and fused markers *)

(** X10. [Map] and [Then] are [Bind] in disguise, and [Map] is a
    functor: under every final continuation, [Map(m, f)] is
    [Bind(m, a => Return(f(a)))], [Then(m, n)] is [Bind(m, _ => n)],
    [Map] with the identity is [m], two [Map]s compose, [Map] on
    [Return(a)] is [Return(f(a))], and [Then] is associative. *)
Theorem Map_Then_laws :
  forall (R A B C : Type) (m : Cont R A) (n : Cont R B) (p : Cont R C)
         (f : A -> B) (g : B -> C) (a : A),
    (forall k, Map m f k = Bind m (fun x => Return (f x)) k) /\
    (forall k, Then m n k = Bind m (fun _ => n) k) /\
    (forall k, Map m (fun x => x) k = m k) /\
    (forall k, Map (Map m f) g k = Map m (fun x => g (f x)) k) /\
    (forall k, Map (Return a) f k = Return (R := R) (f a) k) /\
    (forall k, Then (Then m n) p k = Then m (Then n p) k).
Proof.
  intros R A B C m n p f g a. repeat split.
Qed.

Section Fused.
Variables Val Operation A B : Type.
Context {GA : GoType Val A}.

(** X11. The fused suspensions.  [bindMarker] and [mapMarker]
    are what [Bind] and [Map] make of [Perform]: the same operation and
    the same [Resume].  [thenMarker] carries the operation of
    [Then(Perform(op), next)] and resumes as it does on every answer of
    the result type of the operation; on any other answer the unfused
    form panics in its type assertion, and [thenMarker], which asserts
    nothing, goes on with [next]. *)
Theorem fused_markers :
  forall (o : Operation) (f : A -> Eff Val Operation B) (g : A -> B)
         (next : Eff Val Operation B)
         (k : B -> result (Resumed Val Operation)),
    Bind (Perform o) f k = Ok (bindMarker o f k) /\
    Map (Perform o) g k = Ok (mapMarker o g k) /\
    exists resume,
      Then (Perform (A := A) o) next k = Ok (Marker o resume) /\
      forall v : dynval Val,
        match assert (T := A) v with
        | Ok _ => resume v = next k
        | Panic msg => resume v = Panic msg
        end /\
        thenMarker o next k = Marker o (fun _ => next k).
Proof.
  intros o f g next k. split; [reflexivity|]. split; [reflexivity|].
  eexists. split; [reflexivity|]. intros v. split; [|reflexivity].
  cbn beta. destruct (assert v); reflexivity.
Qed.

End Fused.

(* ================================================================== *)
(** * [Either] *)

Section EitherLaws.
Variables Val E A B C : Type.
Context {GE : GoType Val E} {GA : GoType Val A} {GB : GoType Val B}
        {GC : GoType Val C}.

(** X12. [Either] and its combinators.  [Left] and [Right] are
    told apart by [IsLeft], [IsRight], [GetLeft], [GetRight] and
    [MatchEither], and exactly one of [GetLeft], [GetRight] succeeds on
    any value.  [FlatMapEither] with [Right] is a monad on the values
    made by [Left] and [Right]: left identity, right identity,
    associativity, and a [Left] passes through unchanged without
    calling the function.  [MapEither] is [FlatMapEither] followed by
    [Right]. *)
Theorem Either_laws :
  forall (e : Either E A) (x : E) (a : A)
         (f : A -> result (Either E B)) (g : B -> result (Either E C))
         (m : A -> result B)
         (T : Type) (onLeft : E -> result T) (onRight : A -> result T),
    (IsLeft (Left (A := A) x) = true /\ IsRight (Left (A := A) x) = false /\
     IsLeft (Right (E := E) a) = false /\ IsRight (Right (E := E) a) = true) /\
    (GetLeft (Left (A := A) x) = (x, true) /\
     GetRight (Right (E := E) a) = (a, true) /\
     GetRight (Left (A := A) x) = (zero, false) /\
     GetLeft (Right (E := E) a) = (zero, false) /\
     snd (GetLeft e) = negb (snd (GetRight e))) /\
    (MatchEither (Left x) onLeft onRight = onLeft x /\
     MatchEither (Right (E := E) a) onLeft onRight = onRight a) /\
    FlatMapEither (Right (E := E) a) f = f a /\
    FlatMapEither (Left (A := A) x) f = Ok (Left x) /\
    FlatMapEither (Right (E := E) a) (fun y => Ok (Right y)) = Ok (Right a) /\
    FlatMapEither (Left (A := A) x) (fun y => Ok (Right (E := E) y))
      = Ok (Left x) /\
    rbind (FlatMapEither e f) (fun e' => FlatMapEither e' g)
      = FlatMapEither e (fun y => rbind (f y) (fun e' => FlatMapEither e' g)) /\
    MapEither e m
      = FlatMapEither e (fun y => rbind (m y) (fun b => Ok (Right b))).
Proof.
  intros [r l v] x a f g m T onLeft onRight.
  repeat split; destruct r; reflexivity.
Qed.

End EitherLaws.

(* ================================================================== *)
(** * The State and Error runners *)

Section RunnerLaws.
Variables Val S E B CatchBody : Type.
Context {GS : GoType Val S} {GE : GoType Val E} {GB : GoType Val B}.
Context {GU : GoType Val unit}.
Context {GEB : GoType Val (Either E B)}.
Variable runBody : CatchBody -> result (Either E B).

(** X13. [RunError] on the three ways a computation ends.  A
    pure result [a] gives [Right(a)].  [Throw(e)] gives [Left(e)], and
    the continuation bound after it is never called.
    [Catch(body, handler)] gives [Right] of the body's result when the
    body succeeds; when the body throws [e] it gives what
    [handler(e)] gives: [Right] of its result, or [Left] of the error
    it throws.  ([B] and [Either[E, B]] are not interface types.) *)
Theorem RunError_laws :
  forall (A : Type) (GA : GoType Val A)
         (b : B) (e : E) (f : A -> Eff Val (Op S E CatchBody) B)
         (body : CatchBody) (handler : E -> CatchBody),
    (forall y : B, box y <> dnil) ->
    (forall x : Either E B, box x <> dnil) ->
    RunError (S := S) runBody (Pure b) = Ok (Right b) /\
    RunError runBody (Bind (ThrowError (A := A) e) f) = Ok (Left e) /\
    RunError (S := S) runBody (CatchError body handler)
      = match runBody body with
        | Panic msg => Panic msg
        | Ok r =>
            if isRight r then Ok (Right (right r))
            else
              match runBody (handler (left r)) with
              | Panic msg => Panic msg
              | Ok r2 =>
                  if isRight r2 then Ok (Right (right r2))
                  else Ok (Left (left r2))
              end
        end.
Proof.
  intros A GA b e f body handler HB HE.
  assert (Hplain : forall (x : Either E B) ctx,
             handleDispatch (errorHandler (S := S) runBody (A := B))
               (Plain (box x)) ctx = Ok (x, ctx)).
  { intros x ctx. cbn [handleDispatch].
    destruct (box x) as [|v] eqn:Hx; [exfalso; exact (HE x Hx)|].
    rewrite <- Hx, (assert_box _ (HE x)). reflexivity. }
  assert (Hright : forall y : B,
             RunError (S := S) runBody (Pure y) = Ok (Right y)).
  { intros y. unfold RunError, Pure, Return, rightCont.
    destruct (box (Right y)) as [|v] eqn:Hx; [exfalso; exact (HE _ Hx)|].
    rewrite <- Hx, Hplain. reflexivity. }
  split; [apply Hright|]. split.
  - unfold RunError, Bind, ThrowError, effectMarker.
    cbn [handleDispatch Dispatch errorHandler DispatchError HasErr Err].
    rewrite (assert_box _ (HE _)). reflexivity.
  - unfold RunError, CatchError, Perform, effectMarker.
    cbn [handleDispatch Dispatch errorHandler DispatchError].
    destruct (runBody body) as [r|msg]; [|reflexivity].
    unfold IsLeft, GetLeft, GetRight. destruct r as [[|] l v]; cbn [isRight left right negb fst HasErr].
    + cbn [rbind]. rewrite (assert_box _ (HB _)). cbn [rbind].
      unfold rightCont. rewrite Hplain. reflexivity.
    + destruct (runBody (handler l)) as [[[|] l2 v2]|msg];
        cbn [isRight left right negb fst HasErr Err]; [| |reflexivity].
      * rewrite (assert_box _ (HB _)). cbn [rbind].
        unfold rightCont. rewrite Hplain. reflexivity.
      * rewrite (assert_box _ (HE _)). reflexivity.
Qed.

(** X14. The laws of [RunState].  [Get] hands the state to its
    continuation; [Put(v)] replaces it; [Modify(f)] replaces it by
    [f(state)] and hands the new state on.  The fused constructors
    [GetState], [PutState] and [ModifyState] run as the unfused
    compositions.  ([S] is not an interface type.) *)
Theorem RunState_laws :
  forall (A : Type) (GA : GoType Val A) (s v : S) (g : S -> S)
         (f : S -> Eff Val (Op S E CatchBody) A)
         (n : Eff Val (Op S E CatchBody) A),
    (forall x : S, box x <> dnil) ->
    box tt <> dnil ->
    RunState s (Bind (Perform Get) f) = RunState s (f s) /\
    RunState s (GetState f) = RunState s (f s) /\
    RunState s (Then (Perform (A := unit) (Put v)) n) = RunState v n /\
    RunState s (PutState v n) = RunState v n /\
    RunState s (Bind (Perform (Modify g)) f) = RunState (g s) (f (g s)) /\
    RunState s (ModifyState g f) = RunState (g s) (f (g s)).
Proof.
  intros A GA s v g f n HS HU.
  unfold RunState, Handle, GetState, PutState, ModifyState, Bind, Then,
    Perform, effectMarker, bindMarker, thenMarker.
  cbn [handleDispatch Dispatch stateHandler DispatchState].
  rewrite !(assert_box _ (HS _)), (assert_box _ HU). cbn [rbind].
  repeat split.
Qed.

End RunnerLaws.

Lemma RunError_laws_witness :
  RunError (S := Z) (GEA := GoType_either) runBody1 (Pure 7) = Ok (Right 7) /\
  RunError (S := Z) (GEA := GoType_either) runBody1
    (Bind (ThrowError (A := unit) "boom") (fun _ => Pure 7))
    = Ok (Left "boom") /\
  RunError (S := Z) (GEA := GoType_either) runBody1
    (CatchError (ThrowError (A := Z) "boom") (fun _ => Pure 99))
    = Ok (Right 99).
Proof.
  pose proof (@RunError_laws GoValue Z string Z (Eff GoValue Op0 Z)
                _ _ _ GoType_either runBody1 unit _ 7 "boom"
                (fun _ => Pure 7)
                (ThrowError (A := Z) "boom") (fun _ => Pure 99)) as Hw.
  destruct Hw as [H1 [H2 H3]].
  - intros y. discriminate.
  - intros x. discriminate.
  - split; [exact H1|]. split; [exact H2|].
    refine (eq_trans H3 _). reflexivity.
Defined.

Lemma RunState_laws_witness :
  RunState (E := string) (CatchBody := Empty_set) 5
    (Bind (Perform (A := Z) Get) (fun s => Pure (GoInt.add s 1)))
    = RunState (E := string) (CatchBody := Empty_set) 5 (Pure (GoInt.add 5 1)) /\
  RunState (E := string) (CatchBody := Empty_set) 5
    (PutState 9 (Perform (A := Z) Get))
    = RunState (E := string) (CatchBody := Empty_set) 9 (Perform (A := Z) Get).
Proof.
  pose proof (@RunState_laws GoValue Z string Empty_set _ _ Z _ 5 9
                (fun s => s) (fun s => Pure (GoInt.add s 1))
                (Perform (A := Z) Get)) as Hw.
  destruct Hw as [H1 [_ [_ [H4 _]]]].
  - intros x. discriminate.
  - discriminate.
  - split; [exact H1|exact H4].
Defined.

(* ================================================================== *)
(** * [RunPure] and the frame-form runners of State and Error *)

Section PureRun.
Variables Val Operation A : Type.
Context {GA : GoType Val A}.

Lemma denote_pureEval_effectFirst :
  forall (frame : Frame Val Operation), effectFirst frame = true ->
  forall c st,
    denote (R := A) (pureEval Val Operation) frame c st
    = Stop (Panic "kont: unhandled effect frame in pure computation - use HandleExpr") st.
Proof.
  induction frame as [|F fNext pooled IHn|F fNext IHn|sv sf fNext pooled IHs IHn
                      |op0 resume fNext pooled IHn|a IHa b IHb pooled|u];
    intros He c st; try discriminate.
  - reflexivity.
  - cbn [denote]. cbn [effectFirst] in He. rewrite (IHa He c st).
    reflexivity.
Qed.

(** X15. [RunPure] runs completed computations only.  On
    [ExprReturn(a)], for a value [a] that does not convert to the nil
    interface, it returns [a]; on a computation whose frames start
    with an [EffectFrame] (every suspended computation that the
    constructors build) it panics with the message of [pureEval], and
    no frame after the [EffectFrame] is run. *)
Theorem RunPure_laws :
  forall (a : A) (c : Expr Val Operation A),
    box a <> dnil ->
    effectFirst (ExprFrame c) = true ->
    (forall fuel : nat,
        RunPure (S fuel) (ExprReturn (Operation := Operation) a) = Some (Ok a)) /\
    exists n : nat, forall fuel : nat, (n <= fuel)%nat ->
      RunPure fuel c
      = Some (Panic "kont: unhandled effect frame in pure computation - use HandleExpr").
Proof.
  intros a c Ha Hc. split.
  - intros fuel. unfold RunPure. cbn. rewrite (assert_box _ Ha). reflexivity.
  - destruct (evalFrames_denote (R := A) (pureEval Val Operation)
                (ExprFrame c) (Plain (box (Value c))) tt) as [n Hn].
    exists n. intros fuel Hf. unfold RunPure. rewrite (Hn fuel Hf).
    rewrite (denote_pureEval_effectFirst _ Hc). reflexivity.
Qed.

End PureRun.

Lemma RunPure_laws_witness :
  (forall fuel : nat,
      RunPure (S fuel) (ExprReturn (Operation := Op0) 42) = Some (Ok 42)) /\
  exists n : nat, forall fuel : nat, (n <= fuel)%nat ->
    RunPure fuel get_put_get_expr
    = Some (Panic "kont: unhandled effect frame in pure computation - use HandleExpr").
Proof.
  apply (@RunPure_laws GoValue Op0 Z _ 42 get_put_get_expr).
  - discriminate.
  - reflexivity.
Defined.

Section ExprRunnerLaws.
Variables Val S E B CatchBody : Type.
Context {GS : GoType Val S} {GE : GoType Val E} {GB : GoType Val B}.
Context {GU : GoType Val unit}.
Context {GEB : GoType Val (Either E B)}.
Variable runBody : CatchBody -> result (Either E B).

(** X16. The frame-form runners of Error and State+Error.  A
    completed computation gives [Right] of its value and the initial
    state.  [ExprThrowError(e)] gives [Left(e)]; the function bound
    after it by [ExprBind] is never called; and the state returned with
    [Left(e)] is the state when the error was thrown, here after a
    [Put(v)].  ([Either[E, A]] is not an interface type.) *)
Theorem RunStateErrorExpr_laws :
  forall (A A' : Type) (GA : GoType Val A) (GA' : GoType Val A')
         (GEA : GoType Val (Either E A))
         (a : A) (e : E) (f : A' -> Expr Val (Op S E CatchBody) A) (s v : S),
    (forall x : Either E A, box x <> dnil) ->
    exists n : nat, forall fuel : nat, (n <= fuel)%nat ->
      RunStateErrorExpr runBody fuel s (ExprReturn a) = Some (Ok (Right a, s)) /\
      RunErrorExpr (S := S) runBody fuel
        (ExprBind (ExprThrowError (A := A') e) f) = Some (Ok (Left e)) /\
      RunStateErrorExpr runBody fuel s
        (ExprBind (ExprThrowError (A := A') e) f) = Some (Ok (Left e, s)) /\
      RunStateErrorExpr runBody fuel s
        (ExprThen (ExprPerform (A := unit) (Put v))
                  (ExprBind (ExprThrowError (A := A') e) f))
        = Some (Ok (Left e, v)).
Proof.
  intros A A' GA GA' GEA a e f s v HE.
  exists 5%nat. intros fuel Hf.
  do 5 (destruct fuel as [|fuel]; [lia|]).
  unfold RunStateErrorExpr, RunErrorExpr, HandleExpr.
  repeat split; cbn; rewrite ?(assert_box _ (HE _)); reflexivity.
Qed.

End ExprRunnerLaws.

Lemma RunStateErrorExpr_laws_witness :
  exists n : nat, forall fuel : nat, (n <= fuel)%nat ->
    RunStateErrorExpr (GEA := GoType_either) runBody0 fuel 5 (ExprReturn 7)
      = Some (Ok (Right 7, 5)) /\
    RunErrorExpr (S := Z) (GEA := GoType_either) runBody0 fuel
      (ExprBind (ExprThrowError (A := Z) "boom") (fun x => ExprReturn x))
      = Some (Ok (Left "boom")) /\
    RunStateErrorExpr (GEA := GoType_either) runBody0 fuel 5
      (ExprBind (ExprThrowError (A := Z) "boom") (fun x => ExprReturn x))
      = Some (Ok (Left "boom", 5)) /\
    RunStateErrorExpr (GEA := GoType_either) runBody0 fuel 5
      (ExprThen (ExprPerform (A := unit) (Put 9))
                (ExprBind (ExprThrowError (A := Z) "boom")
                          (fun x => ExprReturn x)))
      = Some (Ok (Left "boom", 9)).
Proof.
  apply (@RunStateErrorExpr_laws GoValue Z string Z Empty_set _ _ _ _
           runBody0 Z Z _ _ GoType_either 7 "boom" (fun x => ExprReturn x) 5 9).
  intros x. discriminate.
Defined.

(* ================================================================== *)
(** * Delimited control *)

(** X17. [Reset] delimits.  What is bound after [Reset(m)] sees
    only the value [Run(m)]; a [Shift] whose function never calls the
    captured continuation aborts to the enclosing [Reset] with its own
    result; a [Shift] that calls it once with [a] is [Return(a)] inside
    its [Reset]; [Reset] on a completed computation, and on a [Reset],
    changes nothing. *)
Theorem Shift_Reset_laws :
  forall (R A B : Type) (m : Cont A A) (f : A -> Cont R B)
         (g : B -> Cont A A) (a : A) (b : B) (k : A -> R) (k' : B -> R),
    Bind (Reset m) f k' = f (Run m) k' /\
    Reset (Bind (Shift (fun _ : B -> A => a)) g) k = k a /\
    Reset (Bind (Shift (fun c : B -> A => c b)) g) k = Reset (g b) k /\
    Reset (Return a) k = Return a k /\
    Reset (Reset m) k = Reset m k.
Proof.
  intros R A B m f g a b k k'. repeat split.
Qed.

(* ================================================================== *)
(** * Stepping the closure form *)

(** X19. Driving a closure-form computation through [Step] and
    [Resume] with a handler gives what [Handle] gives, for every answer
    type, interface types included: [classifyResumed] makes the same
    nil check as [handleDispatch].  The handler is handed the same
    operations in the same order. *)
Theorem Step_drive_is_Handle :
  forall (Val Operation R H : Type) (GR : GoType Val R)
         (h : Handler Val Operation H) (m : Eff Val Operation R)
         (st : H) (hp : heap Val Operation),
    exists n : nat, forall fuel : nat, (n <= fuel)%nat ->
      option_map fst (driveSteps h fuel m st hp) = Some (Handle h m st) /\
      option_map fst (driveSteps (traced h) fuel m (st, []) hp)
        = Some (Handle (traced h) m (st, [])).
Proof.
  intros Val Operation R H GR h m st hp.
  destruct (Handle_driveSteps h m st hp) as [n1 H1].
  destruct (Handle_driveSteps (traced h) m (st, []) hp) as [n2 H2].
  exists (n1 + n2)%nat. intros fuel Hf. split; [apply H1|apply H2]; lia.
Qed.

(* ================================================================== *)
(** * Nil results in the Error runners *)

Section NilCompletion.
Variables Val S E B CatchBody : Type.
Context {GS : GoType Val S} {GE : GoType Val E} {GB : GoType Val B}.
Context {GU : GoType Val unit}.
Context {GEB : GoType Val (Either E B)}.
Variable runBody : CatchBody -> result (Either E B).

(** X20. A computation that returns nil without calling its
    continuation.  [RunStateError] turns the nil result into
    [Right(zero)] when it is what the computation returns at once.  When
    the nil result comes after an operation that was resumed, the loop
    of [handleDispatch] returns the zero value of its answer type, which
    here is [Either[E, A]]: the zero [Either], not [Right(zero)].
    [RunError] makes the same check at the same place. *)
Theorem nil_result_in_error_runners :
  forall (A : Type) (GA : GoType Val A) (GEA : GoType Val (Either E A))
         (m : Eff Val (Op S E CatchBody) A) (s v : S),
    m rightCont = Ok (Plain dnil) ->
    RunError runBody m = Ok (Right zero) /\
    RunStateError runBody s m = Ok (Right zero, s) /\
    RunStateError runBody s (PutState v m) = Ok (zero, v).
Proof.
  intros A GA GEA m s v Hm.
  unfold RunError, RunStateError, PutState, thenMarker. rewrite Hm.
  cbn [handleDispatch Dispatch stateErrorHandler DispatchState fst snd].
  repeat split.
Qed.

End NilCompletion.

Lemma nil_result_in_error_runners_witness :
  let m : Eff GoValue Op0 Z := Suspend (fun _ => Ok (Plain dnil)) in
  RunStateError (GEA := GoType_either) runBody0 5 m
    = Ok (mkEither true EmptyString 0, 5) /\
  RunStateError (GEA := GoType_either) runBody0 5 (PutState 9 m)
    = Ok (mkEither false EmptyString 0, 9).
Proof.
  intros m.
  destruct (@nil_result_in_error_runners GoValue Z string Z Empty_set
              _ _ _ _ runBody0 Z _ GoType_either m 5 9 eq_refl)
    as [_ [H2 H3]].
  split; [exact H2|exact H3].
Defined.

(* ================================================================== *)
(** * The Reader effect and the handlers composed with it *)

Section ReaderLaws.
Variables Val Env Operation : Type.
Context {GEnv : GoType Val Env}.

Lemma readerHandler_env :
  forall (R : Type) (GR : GoType Val R)
         (res : Resumed Val (ReaderOp Operation)) (env : Env) r env',
    handleDispatch (GR := GR) (readerHandler (Operation := Operation)) res env
      = Ok (r, env') ->
    env' = env.
Proof.
  intros R GR res.
  induction res as [x|o resume IH] using Resumed_induction;
    intros env r env' Hh.
  - destruct x as [|v]; cbn [handleDispatch] in Hh.
    + inversion Hh. reflexivity.
    + destruct (assert (dbox v)); inversion Hh. reflexivity.
  - cbn [handleDispatch Dispatch readerHandler] in Hh.
    destruct o as [|o]; cbn [DispatchReader] in Hh; [|discriminate].
    destruct (resume (box env)) as [next|msg] eqn:Hr; [|discriminate].
    exact (IH _ _ Hr _ _ _ Hh).
Qed.

(** X21. The Reader effect.  [Ask] is answered with the
    environment, in its plain form and fused as [AskReader] and
    [MapReader]; an operation without [DispatchReader] makes
    [RunReader] panic with the message of [ReaderHandler]; and no run
    changes the environment.  ([E] is not an interface type.) *)
Theorem Reader_laws :
  forall (A A' : Type) (GA : GoType Val A) (GA' : GoType Val A')
         (env : Env) (f : Env -> Eff Val (ReaderOp Operation) A)
         (g : Env -> A) (o : Operation)
         (f' : A' -> Eff Val (ReaderOp Operation) A),
    (forall x : Env, box x <> dnil) ->
    RunReader env (Bind (Perform Ask) f) = RunReader env (f env) /\
    RunReader env (AskReader f) = RunReader env (f env) /\
    RunReader (Operation := Operation) env (MapReader g)
      = RunReader (Operation := Operation) env (Pure (g env)) /\
    RunReader env (Bind (Perform (A := A') (NotReader o)) f')
      = Panic "kont: unhandled effect in ReaderHandler" /\
    (forall (m : Eff Val (ReaderOp Operation) A) a env',
        Handle readerHandler m env = Ok (a, env') -> env' = env).
Proof.
  intros A A' GA GA' env f g o f' HE.
  unfold RunReader, Handle, AskReader, MapReader, Bind, Perform, Pure, Return,
    effectMarker, bindMarker, mapMarker.
  cbn [handleDispatch Dispatch readerHandler DispatchReader].
  rewrite !(assert_box _ (HE _)). cbn [rbind].
  repeat split.
  intros m a env'. destruct (m toResumed) as [res|msg]; [|discriminate].
  apply readerHandler_env.
Qed.

End ReaderLaws.

Lemma Reader_laws_witness :
  RunReader (Operation := Op0) 7
    (Bind (Perform (A := Z) Ask) (fun e => Pure (GoInt.add e 1)))
    = RunReader (Operation := Op0) 7 (Pure (GoInt.add 7 1)) /\
  RunReader (Operation := Op0) 7
    (Bind (Perform (A := Z) (NotReader Get)) (fun e => Pure (GoInt.add e 1)))
    = Panic "kont: unhandled effect in ReaderHandler".
Proof.
  destruct (@Reader_laws GoValue Z Op0 _ Z Z _ _ 7
              (fun e => Pure (GoInt.add e 1)) (fun e => e) Get
              (fun e => Pure (GoInt.add e 1)))
    as [H1 [_ [_ [H4 _]]]].
  - intros x. discriminate.
  - split; [exact H1|exact H4].
Defined.

Section ComposedReaderLaws.
Variables Val Env S E B CatchBody : Type.
Context {GEnv : GoType Val Env}.
Context {GS : GoType Val S} {GE : GoType Val E} {GB : GoType Val B}.
Context {GU : GoType Val unit}.
Context {GEB : GoType Val (Either E B)}.
Variable runBody : CatchBody -> result (Either E B).

Lemma stateReaderHandler_env :
  forall (R : Type) (GR : GoType Val R)
         (res : Resumed Val (ReaderOp (Op S E CatchBody))) st r st',
    handleDispatch (GR := GR) (stateReaderHandler (Env := Env)) res st
      = Ok (r, st') ->
    snd st' = snd st.
Proof.
  intros R GR res.
  induction res as [x|o resume IH] using Resumed_induction;
    intros st r st' Hh.
  - destruct x as [|v]; cbn [handleDispatch] in Hh.
    + inversion Hh. reflexivity.
    + destruct (assert (dbox v)); inversion Hh. reflexivity.
  - cbn [handleDispatch Dispatch stateReaderHandler] in Hh.
    destruct o as [|[|v|g|e|body hd|name]];
      cbn [DispatchStateR DispatchState DispatchReader] in Hh;
      try discriminate;
      match type of Hh with
      | match resume ?a with _ => _ end = _ =>
          destruct (resume a) as [next|msg] eqn:Hr; [|discriminate];
          rewrite (IH _ _ Hr _ _ _ Hh); reflexivity
      end.
Qed.

Lemma readerStateErrorHandler_env :
  forall (A : Type) (GA : GoType Val A) (GEA : GoType Val (Either E A))
         (res : Resumed Val (ReaderOp (Op S E CatchBody))) st r st',
    handleDispatch (GR := GEA)
      (readerStateErrorHandler (Env := Env) runBody (A := A)) res st
      = Ok (r, st') ->
    fst (fst st') = fst (fst st).
Proof.
  intros A GA GEA res.
  induction res as [x|o resume IH] using Resumed_induction;
    intros [[env s] ctx] r st' Hh.
  - destruct x as [|v]; cbn [handleDispatch] in Hh.
    + inversion Hh. reflexivity.
    + destruct (assert (dbox v)); inversion Hh. reflexivity.
  - cbn [handleDispatch Dispatch readerStateErrorHandler] in Hh.
    destruct o as [|o]; cbn [DispatchReader DispatchStateR DispatchErrorR] in Hh.
    + destruct (resume (box env)) as [next|msg] eqn:Hr; [|discriminate].
      rewrite (IH _ _ Hr _ _ _ Hh). reflexivity.
    + destruct (DispatchState o) as [sop|].
      * destruct (sop s) as [[v shouldResume] s1].
        destruct shouldResume.
        -- destruct (resume v) as [next|msg] eqn:Hr; [|discriminate].
           rewrite (IH _ _ Hr _ _ _ Hh). reflexivity.
        -- destruct (assert v); inversion Hh. reflexivity.
      * destruct (DispatchError runBody o) as [eop|]; [|discriminate].
        destruct (eop ctx) as [[[v fl] ctx1]|msg]; [|discriminate].
        destruct (HasErr ctx1).
        -- destruct (assert (box (Left (Err ctx1)))); inversion Hh.
           reflexivity.
        -- destruct (resume v) as [next|msg] eqn:Hr; [|discriminate].
           rewrite (IH _ _ Hr _ _ _ Hh). reflexivity.
Qed.

(** X22. The handlers composed with Reader.  Under
    [RunStateReader], [Ask] is answered with the environment and leaves
    the state alone, [Get] and [Put] act on the state, and no run
    changes the environment.  Under [RunReaderStateError], [Throw(e)]
    ends the run with [Left(e)] and the state at that point, here after
    a [Put(v)], dropping the continuation; and no run changes the
    environment.  ([E], [S], [Env] and [Either[E, A]] are not interface
    types.) *)
Theorem composed_reader_laws :
  forall (A A' : Type) (GA : GoType Val A) (GA' : GoType Val A')
         (GEA : GoType Val (Either E A))
         (env : Env) (s v : S) (e : E)
         (f : Env -> Eff Val (ReaderOp (Op S E CatchBody)) A)
         (fs : S -> Eff Val (ReaderOp (Op S E CatchBody)) A)
         (f' : A' -> Eff Val (ReaderOp (Op S E CatchBody)) A)
         (n : Eff Val (ReaderOp (Op S E CatchBody)) A),
    (forall x : Env, box x <> dnil) ->
    (forall x : S, box x <> dnil) ->
    box tt <> dnil ->
    (forall x : Either E A, box x <> dnil) ->
    RunStateReader s env (Bind (Perform Ask) f) = RunStateReader s env (f env) /\
    RunStateReader s env (Bind (Perform (NotReader Get)) fs)
      = RunStateReader s env (fs s) /\
    RunStateReader s env (Then (Perform (A := unit) (NotReader (Put v))) n)
      = RunStateReader v env n /\
    (forall (m : Eff Val (ReaderOp (Op S E CatchBody)) A) a st',
        Handle stateReaderHandler m (s, env) = Ok (a, st') -> snd st' = env) /\
    RunReaderStateError runBody env s
      (Then (Perform (A := unit) (NotReader (Put v)))
            (Bind (Perform (A := A') (NotReader (Throw e))) f'))
      = Ok (Left e, v) /\
    (forall (res : Resumed Val (ReaderOp (Op S E CatchBody))) r st',
        handleDispatch (GR := GEA)
          (readerStateErrorHandler runBody (A := A)) res
          (env, s, mkErrorContext zero false) = Ok (r, st') ->
        fst (fst st') = env).
Proof.
  intros A A' GA GA' GEA env s v e f fs f' n HEnv HS HU HE.
  unfold RunStateReader, RunReaderStateError, Handle, Bind, Then, Perform,
    effectMarker.
  cbn [handleDispatch Dispatch stateReaderHandler readerStateErrorHandler
         DispatchStateR DispatchErrorR DispatchState DispatchError
         DispatchReader fst snd HasErr Err].
  rewrite !(assert_box _ (HEnv _)), !(assert_box _ (HS _)), !(assert_box _ HU).
  cbn [rbind handleDispatch Dispatch stateReaderHandler readerStateErrorHandler
         DispatchStateR DispatchErrorR DispatchState DispatchError
         DispatchReader fst snd HasErr Err].
  rewrite !(assert_box _ (HE _)).
  repeat split.
  - intros m a st'. destruct (m toResumed) as [res|msg]; [|discriminate].
    intros Hh.
    eapply eq_trans;
      [eapply (stateReaderHandler_env GA); exact Hh|reflexivity].
  - intros res r st' Hh.
    eapply eq_trans;
      [eapply readerStateErrorHandler_env; exact Hh|reflexivity].
Qed.

End ComposedReaderLaws.

Lemma composed_reader_laws_witness :
  RunStateReader (E := string) (CatchBody := Empty_set) 5 7
    (Bind (Perform (A := Z) Ask)
          (fun e => Perform (A := Z) (NotReader (Modify (fun s => GoInt.add s e)))))
    = Ok (12, 12) /\
  RunReaderStateError (GEA := GoType_either) runBody0 7 5
    (Then (Perform (A := unit) (NotReader (Put 9)))
          (Bind (Perform (A := Z) (NotReader (Throw "boom")))
                (fun x => Pure x)))
    = Ok (Left "boom", 9).
Proof.
  destruct (@composed_reader_laws GoValue Z Z string Z Empty_set _ _ _ _ _
              runBody0 Z Z _ _ GoType_either 7 5 9 "boom"
              (fun e => Perform (A := Z) (NotReader (Modify (fun s => GoInt.add s e))))
              (fun s => Pure s) (fun x => Pure x) (Pure 0))
    as [H1 [_ [_ [_ [H5 _]]]]].
  - intros x. discriminate.
  - intros x. discriminate.
  - discriminate.
  - intros x. discriminate.
  - split; [exact (eq_trans H1 eq_refl)|exact H5].
Defined.

(* ================================================================== *)
(** * The Writer effect *)

Section WriterLaws.
Variables Val W B Operation : Type.
Variable WriterBody : Type.
Context {GB : GoType Val B} {GU : GoType Val unit}.
Context {GP : GoType Val (B * list W)}.
Variable runBody : WriterBody -> list W -> result (B * list W).

(** The bodies only add to the log they are started on. *)
Hypothesis runBody_extends :
  forall body output r output',
    runBody body output = Ok (r, output') ->
    exists suffix, output' = (output ++ suffix)%list.

Lemma firstn_length_app :
  forall (l l' : list W), firstn (List.length l) (l ++ l') = l.
Proof.
  intros l l'. rewrite firstn_app, firstn_all, Nat.sub_diag. simpl.
  apply app_nil_r.
Qed.

Lemma skipn_length_app :
  forall (l l' : list W), skipn (List.length l) (l ++ l') = l'.
Proof.
  intros l l'. rewrite skipn_app, skipn_all, Nat.sub_diag. reflexivity.
Qed.

Lemma length_app_ltb :
  forall (l l' : list W),
    (List.length (l ++ l') <? List.length l)%nat = false.
Proof.
  intros l l'. apply Nat.ltb_ge. rewrite length_app. lia.
Qed.

Lemma writerHandler_Dispatch_extends :
  forall output (o : WriterOp W Operation WriterBody) v fl output',
    Dispatch (writerHandler runBody) output o = Ok (v, fl, output') ->
    exists suffix, output' = (output ++ suffix)%list.
Proof.
  intros output [w|body|f body|o] v fl output' Hd;
    cbn [Dispatch writerHandler DispatchWriter] in Hd.
  - inversion Hd. eexists. reflexivity.
  - destruct (runBody body output) as [[r out1]|msg] eqn:Hb; [|discriminate].
    destruct (runBody_extends Hb) as [suffix Hs]. subst out1.
    rewrite length_app_ltb in Hd. inversion Hd. eexists. reflexivity.
  - destruct (runBody body output) as [[r out1]|msg] eqn:Hb; [|discriminate].
    destruct (runBody_extends Hb) as [suffix Hs]. subst out1.
    rewrite length_app_ltb, skipn_length_app, firstn_length_app in Hd.
    destruct (f suffix) as [newOutput|msg]; inversion Hd.
    eexists. reflexivity.
  - discriminate.
Qed.

Lemma writerHandler_extends :
  forall (R : Type) (GR : GoType Val R)
         (res : Resumed Val (WriterOp W Operation WriterBody)) output r output',
    handleDispatch (GR := GR) (writerHandler runBody) res output
      = Ok (r, output') ->
    exists suffix, output' = (output ++ suffix)%list.
Proof.
  intros R GR res.
  induction res as [x|o resume IH] using Resumed_induction;
    intros output r output' Hh.
  - exists []. rewrite app_nil_r.
    destruct x as [|v]; cbn [handleDispatch] in Hh.
    + inversion Hh. reflexivity.
    + destruct (assert (dbox v)); inversion Hh. reflexivity.
  - cbn [handleDispatch] in Hh.
    destruct (Dispatch (writerHandler runBody) output o)
      as [[[v fl] out1]|msg] eqn:Hd; [|discriminate].
    destruct (writerHandler_Dispatch_extends _ _ Hd) as [s1 Hs1]. subst out1.
    destruct fl.
    + destruct (resume v) as [next|msg] eqn:Hr; [|discriminate].
      destruct (IH _ _ Hr _ _ _ Hh) as [s2 Hs2]. subst output'.
      exists (s1 ++ s2)%list. rewrite app_assoc. reflexivity.
    + destruct (assert v); inversion Hh. exists s1. reflexivity.
Qed.

(** X23. The Writer effect, when the bodies of [Listen] and
    [Censor] only add to the log.  Every run only adds to the log it is
    started on, so the slice expressions of [Listen] and [Censor] stay
    in range.  [Tell(w)] appends [w].  [Listen(body)] hands on the
    result of the body with what the body wrote, and what the body
    wrote stays in the log.  [Censor(f, body)] hands on the result of
    the body and replaces what the body wrote by [f] of it.  An
    operation without [DispatchWriter] makes the run panic with the
    message of [WriterHandler].  ([struct{}], the result type of the
    bodies and its pair with the log are not interface types.) *)
Theorem Writer_laws :
  forall (A A' : Type) (GA : GoType Val A) (GA' : GoType Val A')
         (output : list W) (w : W)
         (next : Eff Val (WriterOp W Operation WriterBody) A)
         (body : WriterBody) (F : list W -> result (list W))
         (fl : B * list W -> Eff Val (WriterOp W Operation WriterBody) A)
         (fc : B -> Eff Val (WriterOp W Operation WriterBody) A)
         (fo : A' -> Eff Val (WriterOp W Operation WriterBody) A)
         (o : Operation),
    box tt <> dnil ->
    (forall b : B, box b <> dnil) ->
    (forall p : B * list W, box p <> dnil) ->
    (forall (m : Eff Val (WriterOp W Operation WriterBody) A) a output',
        Handle (writerHandler runBody) m output = Ok (a, output') ->
        exists suffix, output' = (output ++ suffix)%list) /\
    Handle (writerHandler runBody) (TellWriter w next) output
      = Handle (writerHandler runBody) next (output ++ [w])%list /\
    Handle (writerHandler runBody) (Then (Perform (A := unit) (Tell w)) next)
      output
      = Handle (writerHandler runBody) next (output ++ [w])%list /\
    (forall r written,
        runBody body output = Ok (r, (output ++ written)%list) ->
        Handle (writerHandler runBody) (Bind (ListenWriter body) fl) output
          = Handle (writerHandler runBody) (fl (r, written))
              (output ++ written)%list) /\
    (forall r written newOutput,
        runBody body output = Ok (r, (output ++ written)%list) ->
        F written = Ok newOutput ->
        Handle (writerHandler runBody) (Bind (CensorWriter F body) fc) output
          = Handle (writerHandler runBody) (fc r) (output ++ newOutput)%list) /\
    Handle (writerHandler runBody)
      (Bind (Perform (A := A') (NotWriter o)) fo) output
      = Panic "kont: unhandled effect in WriterHandler".
Proof.
  intros A A' GA GA' output w next body F fl fc fo o HU HB HP.
  repeat split.
  - intros m a output'. unfold Handle.
    destruct (m toResumed) as [res|msg]; [|discriminate].
    apply writerHandler_extends.
  - unfold Handle, Then, Perform, effectMarker.
    cbn [handleDispatch Dispatch writerHandler DispatchWriter].
    rewrite (assert_box _ HU). reflexivity.
  - intros r written Hb.
    unfold Handle, Bind, ListenWriter, Perform, effectMarker.
    cbn [handleDispatch Dispatch writerHandler DispatchWriter].
    rewrite Hb, length_app_ltb, skipn_length_app, (assert_box _ (HP _)).
    reflexivity.
  - intros r written newOutput Hb HF.
    unfold Handle, Bind, CensorWriter, Perform, effectMarker.
    cbn [handleDispatch Dispatch writerHandler DispatchWriter].
    rewrite Hb, length_app_ltb, skipn_length_app, firstn_length_app, HF,
      (assert_box _ (HB _)).
    reflexivity.
Qed.

End WriterLaws.

Lemma Writer_laws_witness :
  let wh := writerHandler (Val := WriterValue) (Operation := unit)
              (GB := WriterType_int) (GU := WriterType_unit)
              (GP := WriterType_pair)
              (bodyRun (GB := WriterType_int) (GU := WriterType_unit)
                       (GP := WriterType_pair)) in
  let inner : Eff WriterValue (WriterOp Z unit Empty_set) Z :=
    TellWriter 1 (Pure 7) in
  Handle (GR := WriterType_int) wh
    (TellWriter 2
       (Bind (ListenWriter (GP := WriterType_pair) inner)
             (fun p => TellWriter 3 (Pure (fst p))))) []
    = Handle (GR := WriterType_int) wh
        (Bind (ListenWriter (GP := WriterType_pair) inner)
              (fun p => TellWriter 3 (Pure (fst p)))) [2] /\
  Handle (GR := WriterType_int) wh
    (Bind (ListenWriter (GP := WriterType_pair) inner)
          (fun p => TellWriter 3 (Pure (fst p)))) [2]
    = Ok (7, [2; 1; 3]) /\
  Handle (GR := WriterType_int) wh
    (Bind (CensorWriter (GB := WriterType_int)
             (fun ws => Ok (List.map (fun x => x * 10) ws)) inner)
          (fun r => TellWriter 3 (Pure r))) [2]
    = Ok (7, [2; 10; 3]).
Proof.
  intros wh inner.
  assert (Hext : forall (body : Eff WriterValue (WriterOp Z unit Empty_set) Z)
                        output r output',
             bodyRun (GB := WriterType_int) (GU := WriterType_unit)
                     (GP := WriterType_pair) body output = Ok (r, output') ->
             exists suffix, output' = (output ++ suffix)%list).
  { intros body output r output'. unfold bodyRun, Handle.
    destruct (body toResumed) as [res|msg]; [|discriminate].
    intros Hh. eapply writerHandler_extends in Hh; [exact Hh|].
    intros []. }
  destruct (@Writer_laws WriterValue Z Z unit
              (Eff WriterValue (WriterOp Z unit Empty_set) Z)
              WriterType_int WriterType_unit WriterType_pair
              (bodyRun (GB := WriterType_int) (GU := WriterType_unit)
                       (GP := WriterType_pair))
              Hext Z Z WriterType_int WriterType_int [2] 2
              (Bind (ListenWriter (GP := WriterType_pair) inner)
                    (fun p => TellWriter 3 (Pure (fst p))))
              inner (fun ws => Ok (List.map (fun x => x * 10) ws))
              (fun p => TellWriter 3 (Pure (fst p)))
              (fun r => TellWriter 3 (Pure r))
              (fun r => Pure r) tt)
    as [_ [_ [_ [Hl [Hc _]]]]].
  - discriminate.
  - intros b. discriminate.
  - intros p. discriminate.
  - split; [reflexivity|]. split.
    + exact (eq_trans (Hl 7 [1] eq_refl) eq_refl).
    + exact (eq_trans (Hc 7 [1] [10] eq_refl eq_refl) eq_refl).
Defined.

(* ================================================================== *)
(** * Entry points on the simplest computations *)

Section Simplest.
Variables Val Operation A B H : Type.
Context {GA : GoType Val A} {GB : GoType Val B}.
Variable h : Handler Val Operation H.

(** X26. A pure computation never reaches the handler.  For a
    value [a] that does not convert to the nil interface, every entry
    point returns [a] and leaves the handler and the suspensions as
    they were, whatever the handler: [Handle] on [Pure(a)],
    [HandleExpr] on [ExprReturn(a)], [Step], [StepExpr]; and [Reify]
    turns [Pure(a)] into [ExprReturn(a)]. *)
Theorem pure_computations :
  forall (a : A) (st : H) (hp : heap Val Operation),
    box a <> dnil ->
    Handle h (Pure a) st = Ok (a, st) /\
    (forall fuel : nat,
        HandleExpr (S fuel) (ExprReturn a) h st = Some (Ok (a, st))) /\
    Step (Pure a) hp = (Ok (a, None), hp) /\
    (forall fuel : nat,
        StepExpr (S fuel) (ExprReturn a) hp = Some (Ok (a, None), hp)) /\
    Reify (Operation := Operation) (Pure a) = Ok (ExprReturn a).
Proof.
  intros a st hp Ha.
  pose proof (assert_box _ Ha) as Hb.
  unfold Handle, HandleExpr, Step, StepExpr, Reify, Pure, Return, toResumed,
    classifyResumed.
  cbn [evalFrames ExprReturn Value ExprFrame option_map processReturn
         handlerProcessor stepProcessor assertErased classifyStepResult
         withState asSuspension handleDispatch fromResumed].
  rewrite ?Hb. destruct (box a) as [|v] eqn:Hx; [contradiction|].
  rewrite ?Hb. repeat split.
Qed.

(** X27. One step of the closure form.  [Step] on
    [Bind(Perform(op), f)] allocates a suspension whose [Op()] is [op]
    and touches nothing else; [Resume(v)] on it, for an answer [v] of
    the result type of [op], is [Step] on the continuation [f(v)], made
    after the suspension has been marked as used. *)
Theorem Step_then_Resume :
  forall (o : Operation) (f : A -> Eff Val Operation B)
         (hp : heap Val Operation) (fuel : nat)
         (v : dynval Val) (x : A),
    assert v = Ok x ->
    exists susp,
      Step (Bind (Perform o) f) hp
        = (Ok (zero, Some (List.length hp)), (hp ++ [susp])%list) /\
      SuspensionOp (List.length hp) (hp ++ [susp])%list = Ok o /\
      Resume (A := B) fuel (List.length hp) v (hp ++ [susp])%list
        = Some (Step (f x)
                  (store (List.length hp) (setUsed 1 susp) (hp ++ [susp])%list)).
Proof.
  intros o f hp fuel v x Hv. eexists. split; [reflexivity|].
  match goal with
  | |- context [(hp ++ [?y])%list] => set (susp := y)
  end.
  assert (Hl : load (List.length hp) (hp ++ [susp])%list = Some susp)
    by apply (load_alloc_new hp susp).
  split.
  - unfold SuspensionOp. rewrite Hl. reflexivity.
  - rewrite (Resume_fresh (A := B) fuel _ v _ Hl eq_refl).
    unfold advance, Step. cbn [cont susp suspResume]. rewrite Hv.
    cbn [rbind]. destruct (f x toResumed); reflexivity.
Qed.

(** X28. [TryResume] against [Resume].  On every suspension and in
    every state of it, [TryResume] returns [(a, next, true)] exactly
    where [Resume] returns [(a, next)], with the same effect on the
    suspensions; where [Resume] panics, [TryResume] panics alike, or
    the panic is the one of the guard and [TryResume] returns
    [(zero, nil, false)]. *)
Theorem TryResume_against_Resume :
  forall (fuel : nat) (s : ptr) (v : dynval Val) (hp : heap Val Operation),
    match Resume (A := A) fuel s v hp with
    | None => TryResume (A := A) fuel s v hp = None
    | Some (Ok (a, next), hp') =>
        TryResume (A := A) fuel s v hp = Some (Ok (a, next, true), hp')
    | Some (Panic msg, hp') =>
        TryResume (A := A) fuel s v hp = Some (Panic msg, hp') \/
        (msg = resumed_twice /\
         TryResume (A := A) fuel s v hp = Some (Ok (zero, None, false), hp'))
    end.
Proof.
  intros fuel s v hp. unfold Resume, TryResume.
  destruct (load s hp) as [susp|]; [|left; reflexivity].
  cbv zeta. destruct (negb _).
  - right. split; reflexivity.
  - destruct (advance fuel s susp v _) as [[[[a next]|msg] hp2]|];
      first [reflexivity | left; reflexivity].
Qed.

End Simplest.

Lemma pure_computations_witness :
  Handle (pureEval GoValue Op0) (Pure 42) tt = Ok (42, tt) /\
  Step (Pure (Operation := Op0) 42) [] = (Ok (42, None), []) /\
  Reify (Operation := Op0) (Pure 42) = Ok (ExprReturn 42).
Proof.
  destruct (@pure_computations GoValue Op0 Z unit _ (pureEval GoValue Op0)
              42 tt [])
    as [H1 [_ [H3 [_ H5]]]].
  - discriminate.
  - split; [exact H1|]. split; [exact H3|exact H5].
Defined.

Lemma Step_then_Resume_witness :
  exists susp,
    Step (Bind (Perform (A := Z) Get) (fun s => Pure (GoInt.add s 1))) []
      = (Ok (0, Some 0%nat), [susp]) /\
    SuspensionOp 0%nat [susp] = Ok Get /\
    Resume (A := Z) 0 0%nat (dbox (GInt 5)) [susp]
      = Some (Step (Pure (Operation := Op0) (GoInt.add 5 1))
                (store 0%nat (setUsed 1 susp) [susp])).
Proof.
  exact (@Step_then_Resume GoValue Op0 Z Z _ _ Get
           (fun s => Pure (GoInt.add s 1)) [] 0%nat (dbox (GInt 5)) 5
           eq_refl).
Defined.
